(** * The learning platform: lesson parser, page segmentation, challenge
      validation and progress store

    A shallow embedding of [learn/parser.py], [learn/progress.py] and the
    segmentation and validation functions of [learn/ui.py], followed by the
    properties of the specification that these functions decide.  After
    them come the theme registry of [learn/theme.py], the fallback
    rendering, the challenge reset, the module picker and the credentials
    file of [learn/ui.py], with further properties of all of these.

    Conventions of the embedding.
    - Text is a list of characters ([list ascii]); a character is a code
      point below 256.  The literals of the source are written with [lit].
    - A Python [dict] with string keys is a [gmap string _]; the values a
      progress file can hold are the [json] values.
    - A Python exception is the [Raise] case of [result].
    - Definitions come first, theorems after them. *)

From stdpp Require Import gmap strings list fin_maps.
From Stdlib Require Import ZArith Ascii DecimalString Lia.

#[local] Set Warnings "-register-all".
#[local] Open Scope Z_scope.

(** ** Python values and exceptions *)

(** The values [json.load] builds.  Numbers with a fraction or an exponent
    are outside the model: the progress file only ever holds integers. *)
Inductive json :=
| JNull
| JBool (b : bool)
| JInt (n : Z)
| JStr (s : string)
| JArr (l : list json)
| JObj (o : gmap string json).

Inductive exn :=
| KeyError
| AttributeError
| TypeError
| UnicodeDecodeError.

Inductive result (A : Type) :=
| Return (a : A)
| Raise (e : exn).
Arguments Return {A} a.
Arguments Raise {A} e.

#[export] Instance result_ret : MRet result := @Return.
#[export] Instance result_bind : MBind result := fun A B f r =>
  match r with
  | Return a => f a
  | Raise e => Raise e
  end.

Module Py.

(** [v[k]] for a string key [k]. *)
Definition getitem (k : string) (v : json) : result json :=
  match v with
  | JObj o => match o !! k with
              | Some x => Return x
              | None => Raise KeyError
              end
  | _ => Raise TypeError
  end.

(** [d.get(k, dflt)] on a dict. *)
Definition get (k : string) (dflt : json) (d : gmap string json) : json :=
  default dflt (d !! k).

(** [d.setdefault(k, dflt)] on a dict, as the dict it leaves behind. *)
Definition dict_setdefault (k : string) (dflt : json)
    (d : gmap string json) : gmap string json :=
  match d !! k with
  | Some _ => d
  | None => <[k := dflt]> d
  end.

(** [v.setdefault(k, dflt)]: only a dict has the method. *)
Definition setdefault (k : string) (dflt : json) (v : json) : result json :=
  match v with
  | JObj o => Return (JObj (dict_setdefault k dflt o))
  | _ => Raise AttributeError
  end.

(** [v[k] = x] for a string key [k]. *)
Definition setitem (k : string) (x : json) (v : json) : result json :=
  match v with
  | JObj o => Return (JObj (<[k := x]> o))
  | _ => Raise TypeError
  end.

(** [v[k]] followed by an in-place operation [f] on the value found
    there: the container is handed back with the entry updated. *)
Definition at_key (k : string) (f : json → result json) (v : json)
    : result json :=
  match v with
  | JObj o => match o !! k with
              | Some x => x' ← f x; Return (JObj (<[k := x']> o))
              | None => Raise KeyError
              end
  | _ => Raise TypeError
  end.

(** The same on a value known to be a dict. *)
Definition dict_at (k : string) (f : json → result json)
    (d : gmap string json) : result (gmap string json) :=
  match d !! k with
  | Some x => x' ← f x; Return (<[k := x']> d)
  | None => Raise KeyError
  end.

(** [v == s] for a string [s]: only an equal string is equal to it. *)
Definition eq_str (v : json) (s : string) : bool :=
  match v with
  | JStr s' => String.eqb s' s
  | _ => false
  end.

(** [v + 1]. *)
Definition add1 (v : json) : result json :=
  match v with
  | JInt n => Return (JInt (n + 1))
  | JBool b => Return (JInt (Z.b2z b + 1))
  | _ => Raise TypeError
  end.

(** [f"{n}"] for an integer. *)
Definition fmt_int (n : Z) : string := NilZero.string_of_int (Z.to_int n).

End Py.

(** ** learn/progress.py *)

Module Progress.

(** What [load_progress] finds at [_progress_path()]. *)
Inductive progress_file :=
| Missing                 (* os.path.isfile(path) is false *)
| Unreadable              (* open or read raises OSError *)
| Undecodable             (* the bytes are not UTF-8: UnicodeDecodeError *)
| Malformed               (* json.load raises JSONDecodeError *)
| Parsed (data : json).   (* json.load returns data *)

Definition default_progress : gmap string json :=
  <["streak" := JInt 0]>
    (<["last_active" := JNull]> (<["courses" := JObj ∅]> ∅)).

(** The keys of [default], in the order the loop visits them. *)
Definition default_keys : list string :=
  ["courses"; "last_active"; "streak"]%string.

(** [for key in default: data.setdefault(key, default[key])] *)
Fixpoint backfill (keys : list string) (data : json) : result json :=
  match keys with
  | [] => Return data
  | key :: keys' =>
      data' ← Py.setdefault key (Py.get key JNull default_progress) data;
      backfill keys' data'
  end.

Definition load_progress (file : progress_file) : result json :=
  match file with
  | Missing => Return (JObj default_progress)
  | Unreadable => Return (JObj default_progress)
  | Undecodable => Raise UnicodeDecodeError
  | Malformed => Return (JObj default_progress)
  | Parsed data => backfill default_keys data
  end.

(** [update_streak]: [today] and [yesterday] are the two strings the
    function computes from the clock, [date.today().isoformat()] and
    [(date.today() - timedelta(days=1)).isoformat()].  The result is the
    document as the call leaves it and the value returned. *)
Definition update_streak (today yesterday : string)
    (progress : gmap string json) : result (gmap string json * json) :=
  let last := Py.get "last_active" JNull progress in
  if Py.eq_str last today then
    Return (progress, Py.get "streak" (JInt 1) progress)
  else
    progress1 ←
      (if Py.eq_str last yesterday then
         s ← Py.add1 (Py.get "streak" (JInt 0) progress);
         Return (<["streak" := s]> progress)
       else Return (<["streak" := JInt 1]> progress));
    let progress2 := <["last_active" := JStr today]> progress1 in
    s ← Py.getitem "streak" (JObj progress2);
    Return (progress2, s).

Definition _ensure_module (course_id module_id : string)
    (progress : gmap string json) : result (gmap string json) :=
  progress1 ← Py.dict_at "courses"
                (Py.setdefault course_id (JObj ∅)) progress;
  Py.dict_at "courses"
    (Py.at_key course_id (Py.setdefault module_id (JObj ∅))) progress1.

Definition mark_lesson (course_id module_id : string)
    (progress : gmap string json) : result (gmap string json) :=
  progress1 ← _ensure_module course_id module_id progress;
  Py.dict_at "courses"
    (Py.at_key course_id
       (Py.at_key module_id (Py.setitem "lesson" (JBool true))))
    progress1.

Definition mark_quiz (course_id module_id : string) (score total : Z)
    (progress : gmap string json) : result (gmap string json) :=
  progress1 ← _ensure_module course_id module_id progress;
  Py.dict_at "courses"
    (Py.at_key course_id
       (Py.at_key module_id
          (Py.setitem "quiz_score"
             (JStr (Py.fmt_int score +:+ "/" +:+ Py.fmt_int total)))))
    progress1.

Definition mark_challenge (course_id module_id : string)
    (progress : gmap string json) : result (gmap string json) :=
  progress1 ← _ensure_module course_id module_id progress;
  Py.dict_at "courses"
    (Py.at_key course_id
       (Py.at_key module_id (Py.setitem "challenge" (JBool true))))
    progress1.

(** The entry a dict holds under [k], read as a dict; an absent entry
    reads as the empty dict (what [setdefault(k, {})] would create). *)
Definition entry (k : string) (d : gmap string json) : gmap string json :=
  match d !! k with
  | Some (JObj o) => o
  | _ => ∅
  end.

(** The nested entries the mark operations walk through are dicts
    wherever they exist. *)
Definition module_slot_ok (course_id module_id : string)
    (courses : gmap string json) : bool :=
  match courses !! course_id with
  | None => true
  | Some (JObj mods) =>
      match mods !! module_id with
      | None | Some (JObj _) => true
      | Some _ => false
      end
  | Some _ => false
  end.

End Progress.

(** ** Specification vocabulary for the progress store *)

Module ProgressSpec.
Import Progress.

(** [r] is a successful outcome that differs from [progress] at most in
    the field [field] of the entry [courses[c][m]], which now holds [v]:
    every other top-level key, course entry, module entry and field reads
    as before (an entry that did not exist reading as the empty dict). *)
Definition marks_only (c m field : string) (v : json)
    (progress : gmap string json) (r : result (gmap string json)) : Prop :=
  ∃ progress' courses courses' mods' fields',
    r = Return progress' ∧
    progress !! "courses" = Some (JObj courses) ∧
    progress' !! "courses" = Some (JObj courses') ∧
    (∀ k, k ≠ "courses" → progress' !! k = progress !! k) ∧
    (∀ c', c' ≠ c → courses' !! c' = courses !! c') ∧
    courses' !! c = Some (JObj mods') ∧
    (∀ m', m' ≠ m → mods' !! m' = entry c courses !! m') ∧
    mods' !! m = Some (JObj fields') ∧
    (∀ f, f ≠ field → fields' !! f = entry m (entry c courses) !! f) ∧
    fields' !! field = Some v.

End ProgressSpec.

(** ** Text *)

Abbreviation text := (list ascii).

(** A literal of the source. *)
Definition lit (s : string) : text := String.list_ascii_of_string s.

Module Str.

(** [str.isspace] on one character, which is also the class [\s] of [re]:
    the whitespace code points below 256. *)
Definition isspace (c : ascii) : bool :=
  let n := nat_of_ascii c in
  ((9 <=? n) && (n <=? 13) || (28 <=? n) && (n <=? 32)
   || (n =? 133) || (n =? 160))%nat.

Fixpoint lstrip (s : text) : text :=
  match s with
  | c :: s' => if isspace c then lstrip s' else s
  | [] => []
  end.

Definition rstrip (s : text) : text := rev (lstrip (rev s)).

(** [s.strip()] *)
Definition strip (s : text) : text := rstrip (lstrip s).

(** Whether [w] is made of whitespace only. *)
Definition all_space (w : text) : bool := forallb isspace w.

(** [s.startswith(p)] *)
Fixpoint startswith (p s : text) : bool :=
  match p, s with
  | [], _ => true
  | a :: p', b :: s' => Ascii.eqb a b && startswith p' s'
  | _ :: _, [] => false
  end.

(** [p in s] *)
Fixpoint contains (p s : text) : bool :=
  startswith p s ||
  match s with
  | [] => false
  | _ :: s' => contains p s'
  end.

(** [s.count(p)] for a nonempty [p]: occurrences are counted from the
    left and do not overlap; [skip] is the number of characters still
    covered by the occurrence counted last. *)
Fixpoint count_from (p : text) (skip : nat) (s : text) : nat :=
  match s with
  | [] => 0
  | _ :: s' =>
      match skip with
      | S n => count_from p n s'
      | O => if startswith p s then S (count_from p (length p - 1) s')
             else count_from p 0 s'
      end
  end%nat.

Definition count (p s : text) : nat := count_from p 0 s.

(** [range(start, stop, step)] for a positive step. *)
Definition range (start stop step : nat) : list nat :=
  map (λ j, start + step * j)%nat
      (seq 0 ((stop - start + step - 1) / step))%nat.

End Str.

(** ** The fragment of [re] the program uses

    Every pattern of the program is a sequence of literals, repeated
    character classes (greedy or lazy, with a minimal number of
    repetitions) and capturing groups that are not nested.  [exec] is the
    backtracking matcher: alternatives are tried in the order [re] tries
    them, and the first complete match wins. *)

Module Re.

Inductive regex :=
| Lit (l : text)                                   (* literal characters *)
| Rep (greedy : bool) (min : nat) (cls : ascii → bool)
                        (* cls{min,} when greedy, cls{min,}? otherwise *)
| Grp (r : regex)                                  (* ( r ) *)
| Seq (r1 r2 : regex).

(** The classes. *)
Definition space : ascii → bool := Str.isspace.            (* \s *)
Definition dot (c : ascii) : bool := negb (Ascii.eqb c "010").   (* . *)
Definition dotall (_ : ascii) : bool := true.              (* . with DOTALL *)
Definition newline (c : ascii) : bool := Ascii.eqb c "010".      (* \n *)

(** [min] mandatory repetitions. *)
Fixpoint rep_min {R} (cls : ascii → bool) (min : nat) (s : text)
    (k : text → option R) : option R :=
  match min with
  | O => k s
  | S n => match s with
           | c :: s' => if cls c then rep_min cls n s' k else None
           | [] => None
           end
  end.

(** Lazy repetition: try to go on first, take one more character only
    when that fails. *)
Fixpoint rep_lazy {R} (cls : ascii → bool) (s : text)
    (k : text → option R) : option R :=
  match k s with
  | Some r => Some r
  | None => match s with
            | c :: s' => if cls c then rep_lazy cls s' k else None
            | [] => None
            end
  end.

(** Greedy repetition: take as many characters as possible, give them
    back one by one while the rest fails. *)
Fixpoint rep_greedy {R} (cls : ascii → bool) (s : text)
    (k : text → option R) : option R :=
  match s with
  | c :: s' =>
      if cls c then
        match rep_greedy cls s' k with
        | Some r => Some r
        | None => k s
        end
      else k s
  | [] => k s
  end.

(** [exec r s groups k]: match [r] at the start of [s], then continue
    with [k] on the rest of the text and the groups captured so far. *)
Fixpoint exec {R} (r : regex) (s : text) (groups : list text)
    (k : text → list text → option R) : option R :=
  match r with
  | Lit l =>
      if Str.startswith l s then k (drop (length l) s) groups else None
  | Rep greedy min cls =>
      rep_min cls min s (λ s1,
        if greedy then rep_greedy cls s1 (λ s2, k s2 groups)
        else rep_lazy cls s1 (λ s2, k s2 groups))
  | Grp r1 =>
      exec r1 s groups (λ s' groups',
        k s' (groups' ++ [take (length s - length s') s]))
  | Seq r1 r2 =>
      exec r1 s groups (λ s' groups', exec r2 s' groups' k)
  end.

(** The least number of characters a match of [r] consumes. *)
Fixpoint min_len (r : regex) : nat :=
  match r with
  | Lit l => length l
  | Rep _ min _ => min
  | Grp r1 => min_len r1
  | Seq r1 r2 => min_len r1 + min_len r2
  end.

(** [pattern.match(s)]: the groups and the end offset of the match. *)
Definition re_match (r : regex) (s : text) : option (list text * nat) :=
  exec r s [] (λ s' groups, Some (groups, length s - length s')%nat).

(** [pattern.search(s)], as the start offset of the leftmost match. *)
Fixpoint search (r : regex) (s : text) : option nat :=
  match re_match r s with
  | Some _ => Some 0%nat
  | None => match s with
            | [] => None
            | _ :: s' => S <$> search r s'
            end
  end.

(** [pattern.sub(repl, s)] with a function [repl] of the groups.  [skip]
    is the number of characters still covered by the last match.  No
    pattern of the program matches the empty string, and an empty match
    is not taken here. *)
Fixpoint sub_from (r : regex) (repl : list text → text) (skip : nat)
    (s : text) : text :=
  match s with
  | [] => []
  | c :: s' =>
      match skip with
      | S n => sub_from r repl n s'
      | O => match re_match r s with
             | Some (groups, S n) => repl groups ++ sub_from r repl n s'
             | _ => c :: sub_from r repl 0 s'
             end
      end
  end.

Definition sub (r : regex) (repl : list text → text) (s : text) : text :=
  sub_from r repl 0 s.

(** One more character in front of the first part. *)
Definition push (c : ascii) (parts : list text) : list text :=
  match parts with
  | t :: parts' => (c :: t) :: parts'
  | [] => [[c]]
  end.

(** [pattern.split(s)]: the text before the first match, then for every
    match its groups followed by the text up to the next match. *)
Fixpoint split_from (r : regex) (skip : nat) (s : text) : list text :=
  match s with
  | [] => [[]]
  | c :: s' =>
      match skip with
      | S n => split_from r n s'
      | O => match re_match r s with
             | Some (groups, S n) => [] :: groups ++ split_from r n s'
             | _ => push c (split_from r 0 s')
             end
      end
  end.

Definition split (r : regex) (s : text) : list text := split_from r 0 s.

(** [match.group(n)], [n] counted from 1. *)
Definition group (n : nat) (groups : list text) : text :=
  nth (n - 1) groups [].

(** Vocabulary for the statements: [pre] put in front of the first part,
    and "no match of [r] begins inside [pre] when [rest] follows". *)
Definition prepend (pre : text) (parts : list text) : list text :=
  foldr push parts pre.

Definition no_match_in (r : regex) (pre rest : text) : Prop :=
  ∀ a b, pre = a ++ b → b ≠ [] → re_match r (b ++ rest) = None.

End Re.

Infix "-;-" := Re.Seq (at level 60, right associativity).

(** ** os.path on a POSIX system

    [posixpath.join] (for two arguments) and [posixpath.normpath].  The
    parser below is stated over any [os.path]; this one is used where a
    statement needs a concrete file system convention. *)

Module Posix.

Definition sep : ascii := "/"%char.

(** [s.split(c)] *)
Fixpoint split_on (c : ascii) (s : text) : list text :=
  match s with
  | [] => [[]]
  | x :: s' =>
      if Ascii.eqb x c then [] :: split_on c s'
      else match split_on c s' with
           | t :: parts => (x :: t) :: parts
           | [] => [[x]]
           end
  end.

(** [c.join(l)] *)
Definition join_with (c : ascii) (l : list text) : text :=
  match l with
  | [] => []
  | x :: l' => x ++ flat_map (λ y, c :: y) l'
  end.

Definition endswith_sep (s : text) : bool :=
  match last s with
  | Some c => Ascii.eqb c sep
  | None => false
  end.

Definition join (a b : text) : text :=
  if Str.startswith [sep] b then b
  else if bool_decide (a = []) || endswith_sep a then a ++ b
  else a ++ sep :: b.

(** One round of the loop over the components. *)
Definition norm_step (initial_slashes : nat) (new_comps : list text)
    (comp : text) : list text :=
  if bool_decide (comp = []) || bool_decide (comp = lit ".") then new_comps
  else if negb (bool_decide (comp = lit ".."))
          || (bool_decide (initial_slashes = 0%nat)
              && bool_decide (new_comps = []))
          || bool_decide (last new_comps = Some (lit ".."))
       then new_comps ++ [comp]
       else removelast new_comps.

Definition normpath (path : text) : text :=
  match path with
  | [] => lit "."
  | _ =>
      let initial_slashes :=
        if Str.startswith [sep] path then
          if Str.startswith [sep; sep] path
             && negb (Str.startswith [sep; sep; sep] path)
          then 2%nat else 1%nat
        else 0%nat in
      let comps := split_on sep path in
      let new_comps := foldl (norm_step initial_slashes) [] comps in
      let path := repeat sep initial_slashes ++ join_with sep new_comps in
      match path with
      | [] => lit "."
      | _ => path
      end
  end.

End Posix.

(** ** learn/parser.py *)

Module Parser.
Import Re.

Definition PAGE_MARKER : regex :=
  Lit (lit "<!--") -;- Rep true 0 space -;- Lit (lit "lesson:page") -;-
  Rep true 1 space -;- Grp (Rep false 0 dot) -;- Rep true 0 space -;-
  Lit (lit "-->").

Definition END_MARKER : regex :=
  Lit (lit "<!--") -;- Rep true 0 space -;- Lit (lit "lesson:end") -;-
  Rep true 0 space -;- Lit (lit "-->").

Definition IMAGE_LINE : regex :=
  Lit (lit "![") -;- Grp (Rep false 0 dot) -;- Lit (lit "](") -;-
  Grp (Rep false 0 dot) -;- Lit (lit ")").

(** The pattern of [re.sub(r"\n{3,}", "\n\n", content)]. *)
Definition BLANK_LINES : regex := Rep true 3 newline.

Definition nl : ascii := "010"%char.

Definition IMG_DELIM : text := ["000"%char].

Definition _image_marker (alt abs_path : text) : text :=
  IMG_DELIM ++ lit "IMG[" ++ alt ++ lit "](" ++ abs_path ++ lit ")"
  ++ IMG_DELIM.

Record page := Page { title : text; content : text }.

Section WithOsPath.

Variable os_path_join : text → text → text.
Variable os_path_normpath : text → text.

Definition _replace_image (readme_dir : text) (groups : list text) : text :=
  let alt := group 1 groups in
  let rel_path := group 2 groups in
  let abs_path := os_path_normpath (os_path_join readme_dir rel_path) in
  _image_marker alt abs_path.

(** One round of the loop over [range(1, len(parts), 2)]. *)
Definition page_step (readme_dir : text) (parts : list text)
    (pages : list page) (i : nat) : list page :=
  let title := Str.strip (nth i parts []) in
  let content :=
    if (i + 1 <? length parts)%nat then nth (i + 1) parts [] else [] in
  let content := sub IMAGE_LINE (_replace_image readme_dir) content in
  let content := sub BLANK_LINES (λ _, [nl; nl]) content in
  let content := Str.strip content in
  match content with
  | [] => pages
  | _ => pages ++ [Page title content]
  end.

(** [parse_readme]: [file] is what is found at [readme_path] ([None]
    when it is not a file) and [readme_dir] is
    [os.path.dirname(os.path.abspath(readme_path))]. *)
Definition parse_readme (readme_dir : text) (file : option text)
    : list page :=
  match file with
  | None => []
  | Some text =>
      let text := match search END_MARKER text with
                  | Some start => take start text
                  | None => text
                  end in
      let parts := split PAGE_MARKER text in
      if (length parts <? 3)%nat then []
      else foldl (page_step readme_dir parts) []
                 (Str.range 1 (length parts) 2)
  end.

End WithOsPath.

End Parser.

(** ** learn/ui.py: page segmentation and challenge validation *)

Module Ui.
Import Re.

Definition _IMG_MARKER : regex :=
  Lit Parser.IMG_DELIM -;- Lit (lit "IMG[") -;- Grp (Rep false 0 dot) -;-
  Lit (lit "](") -;- Grp (Rep false 0 dot) -;- Lit (lit ")") -;-
  Lit Parser.IMG_DELIM.

(** [("text", text)] and [("image", (alt, path))]. *)
Inductive segment :=
| SText (t : text)
| SImage (alt path : text).

(** The [while i < len(parts)] loop; it runs at most [len(parts)]
    rounds, which is the fuel [_split_page_segments] gives it. *)
Fixpoint split_loop (fuel : nat) (parts : list text) (i : nat)
    (segments : list segment) : list segment :=
  match fuel with
  | O => segments
  | S fuel' =>
      if (i <? length parts)%nat then
        if (i mod 3 =? 0)%nat then
          let t := Str.strip (nth i parts []) in
          split_loop fuel' parts (i + 1)
            (match t with
             | [] => segments
             | _ => segments ++ [SText t]
             end)
        else if (i mod 3 =? 1)%nat then
          let alt := nth i parts [] in
          let path :=
            if (i + 1 <? length parts)%nat then nth (i + 1) parts []
            else [] in
          split_loop fuel' parts (i + 1 + 1) (segments ++ [SImage alt path])
        else split_loop fuel' parts (i + 1) segments
      else segments
  end.

Definition _split_page_segments (raw_content : text) : list segment :=
  let parts := split _IMG_MARKER raw_content in
  split_loop (length parts) parts 0 [].

Definition dquote : ascii := "034"%char.

(** The three patterns of [_strip_comments]; the first two are compiled
    with [re.DOTALL]. *)
Definition DOCSTRING_DQ : regex :=
  Lit (repeat dquote 3) -;- Rep false 0 dotall -;- Lit (repeat dquote 3).

Definition DOCSTRING_SQ : regex :=
  Lit (lit "'''") -;- Rep false 0 dotall -;- Lit (lit "'''").

Definition COMMENT : regex := Lit (lit "#") -;- Rep true 0 dot.

Definition _strip_comments (code : text) : text :=
  let code := sub DOCSTRING_DQ (λ _, []) code in
  let code := sub DOCSTRING_SQ (λ _, []) code in
  let code := sub COMMENT (λ _, []) code in
  code.

Definition PLACEHOLDER : text := lit "XXXX___".

(** [code] is the content of the challenge file. *)
Definition _check_placeholders (code : text) : bool :=
  Str.contains PLACEHOLDER (_strip_comments code).

(** What [_validate_challenge] shows: the "not found" message or one of
    the four result panels, with the value it interpolates. *)
Inductive panel :=
| NotFound
| Incomplete (count : nat)
| Timeout
| Passed (output : text)
| Failed (error : text).

(** What [subprocess.run] gives back. *)
Inductive process :=
| TimeoutExpired
| CompletedProcess (returncode : Z) (stdout stderr : text).

(** A run of [_validate_challenge] either ends without starting the
    subprocess, or starts it and ends according to its result. *)
Inductive validation :=
| Done (shown : panel) (returned : bool)
| Execute (k : process → panel * bool).

(** The part of [_validate_challenge] after [subprocess.run]. *)
Definition classify (result : process) : panel * bool :=
  match result with
  | TimeoutExpired => (Timeout, false)
  | CompletedProcess returncode stdout stderr =>
      if returncode =? 0 then (Passed (Str.strip stdout), true)
      else
        let error := match Str.strip stderr with
                     | [] => Str.strip stdout
                     | e => e
                     end in
        let error := if (800 <? length error)%nat
                     then take 800 error ++ Parser.nl :: lit "..."
                     else error in
        (Failed error, false)
  end.

(** [file] is what is found at [challenge_path] ([None] when it is not
    a file). *)
Definition _validate_challenge (file : option text) : validation :=
  match file with
  | None => Done NotFound false
  | Some code =>
      if _check_placeholders code then
        let code := _strip_comments code in
        let count := Str.count PLACEHOLDER code in
        Done (Incomplete count) false
      else Execute classify
  end.

End Ui.

(** ** Vocabulary for lesson documents *)

Module Doc.

(** An end marker and a page marker, with the whitespace [w1], [w2],
    [w0] the patterns allow and the free text [raw] that follows the
    keyword of a page marker. *)
Definition end_marker (w1 w2 : text) : text :=
  lit "<!--" ++ w1 ++ lit "lesson:end" ++ w2 ++ lit "-->".

Definition page_marker (w0 raw : text) : text :=
  lit "<!--" ++ w0 ++ lit "lesson:page" ++ raw ++ lit "-->".

(** An image reference of Markdown. *)
Definition image_ref (alt path : text) : text :=
  lit "![" ++ alt ++ lit "](" ++ path ++ lit ")".

End Doc.

(** ** Vocabulary for lesson documents, continued *)

Module Lesson.
Import Doc.

(** A page of a lesson document as its author writes it: a page marker
    and the text up to the next marker. *)
Record item := Item { item_w0 : text; item_raw : text; item_body : text }.

Definition render_item (it : item) : text :=
  page_marker (item_w0 it) (item_raw it) ++ item_body it.

(** Front matter followed by pages. *)
Definition document (pre : text) (items : list item) : text :=
  pre ++ flat_map render_item items.

(** A page marker is well formed when only whitespace separates the
    comment opener from the keyword, whitespace follows the keyword, and
    the free text after it has no comment closer and, once trimmed, no
    line break. *)
Definition wf_marker (w0 raw : text) : bool :=
  Str.all_space w0
  && match raw with
     | c :: _ => Str.isspace c
     | [] => false
     end
  && negb (Str.contains (lit "-->") raw)
  && forallb Re.dot (Str.strip raw).

(** A page is well formed when its marker is and its body does not
    mention the page keyword. *)
Definition wf_item (it : item) : bool :=
  wf_marker (item_w0 it) (item_raw it)
  && negb (Str.contains (lit "lesson:page") (item_body it)).

(** The parts [PAGE_MARKER.split] gives after the front matter. *)
Definition parts_of (items : list item) : list text :=
  flat_map (λ it, [Str.strip (item_raw it); item_body it]) items.

Section WithOsPath.

Variable os_path_join : text → text → text.
Variable os_path_normpath : text → text.

(** What the parser makes of the text of a page: image references
    replaced, blank lines collapsed, the whole trimmed. *)
Definition page_content (readme_dir body : text) : text :=
  Str.strip
    (Re.sub Parser.BLANK_LINES (λ _, [Parser.nl; Parser.nl])
       (Re.sub Parser.IMAGE_LINE
          (Parser._replace_image os_path_join os_path_normpath readme_dir)
          body)).

(** The pages a written page gives: none when its content is empty. *)
Definition pages_of_item (readme_dir : text) (it : item)
    : list Parser.page :=
  match page_content readme_dir (item_body it) with
  | [] => []
  | c => [Parser.Page (Str.strip (item_raw it)) c]
  end.

End WithOsPath.

End Lesson.

(** ** Vocabulary for page content *)

Module Content.
Import Ui.

(** An image placeholder and the prose that follows it. *)
Record fragment :=
  Fragment { frag_alt : text; frag_path : text; frag_text : text }.

(** Page content: prose with embedded image placeholders. *)
Definition page_text (t0 : text) (frags : list fragment) : text :=
  t0 ++ flat_map (λ f, Parser._image_marker (frag_alt f) (frag_path f)
                       ++ frag_text f) frags.

(** The chunks of prose and the image pairs as they stand in the
    content, an empty chunk being no chunk. *)
Definition chunk (t : text) : list segment :=
  match t with
  | [] => []
  | _ => [SText t]
  end.

Definition embedded_segments (t0 : text) (frags : list fragment)
    : list segment :=
  chunk t0
  ++ flat_map (λ f, SImage (frag_alt f) (frag_path f) :: chunk (frag_text f))
       frags.

(** A chunk trimmed, a blank chunk being no chunk. *)
Definition text_segment (t : text) : list segment := chunk (Str.strip t).

(** Prose does not hold the opener of a placeholder; an alt text has no
    line break and no [](]; a path has no line break and no closing
    parenthesis followed by the delimiter. *)
Definition wf_text (t : text) : bool :=
  negb (Str.contains (Parser.IMG_DELIM ++ lit "IMG[") t).

Definition wf_fragment (f : fragment) : bool :=
  forallb Re.dot (frag_alt f)
  && negb (Str.contains (lit "](") (frag_alt f))
  && forallb Re.dot (frag_path f)
  && negb (Str.contains (lit ")" ++ Parser.IMG_DELIM) (frag_path f))
  && wf_text (frag_text f).

(** An image reference of a lesson document and the prose that follows
    it, and a page body made of prose and image references. *)
Record reference :=
  Reference { ref_alt : text; ref_path : text; ref_text : text }.

Definition body_text (t0 : text) (refs : list reference) : text :=
  t0 ++ flat_map (λ r, Doc.image_ref (ref_alt r) (ref_path r) ++ ref_text r)
          refs.

(** Prose of a lesson document holds neither the delimiter nor the
    opener of an image reference; an alt text has no line break and no
    [](]; a relative path has no line break and no closing parenthesis;
    the resolved path has no line break and no delimiter. *)
Definition wf_prose (t : text) : bool :=
  forallb (λ c, negb (Ascii.eqb c "000")) t
  && negb (Str.contains (lit "![") t).


Definition wf_reference (resolve : text → text) (r : reference) : bool :=
  forallb Re.dot (ref_alt r)
  && negb (Str.contains (lit "](") (ref_alt r))
  && forallb Re.dot (ref_path r)
  && negb (Str.contains (lit ")") (ref_path r))
  && forallb Re.dot (resolve (ref_path r))
  && forallb (λ c, negb (Ascii.eqb c "000")) (resolve (ref_path r))
  && wf_prose (ref_text r).


(** The placeholder and prose an image reference becomes, [resolve]
    being the resolution of its path. *)
Definition fragment_of (resolve : text → text) (r : reference) : fragment :=
  Fragment (ref_alt r) (resolve (ref_path r)) (ref_text r).

(** A fragment with its prose transformed. *)
Definition map_text (g : text → text) (fr : fragment) : fragment :=
  Fragment (frag_alt fr) (frag_path fr) (g (frag_text fr)).

(** The fragments with the prose of the last one trimmed on the right. *)
Fixpoint rstrip_last (frags : list fragment) : list fragment :=
  match frags with
  | [] => []
  | [fr] => [map_text Str.rstrip fr]
  | fr :: frags' => fr :: rstrip_last frags'
  end.

(** Whether a text is free of the delimiter. *)
Definition no_delim (t : text) : bool :=
  forallb (λ c, negb (Ascii.eqb c "000")) t.

(** A fragment whose alt text and path are on one line, the alt text
    without [](], and whose path and prose are free of the delimiter. *)
Definition clean_fragment (fr : fragment) : bool :=
  forallb Re.dot (frag_alt fr)
  && negb (Str.contains (lit "](") (frag_alt fr))
  && forallb Re.dot (frag_path fr)
  && no_delim (frag_path fr)
  && no_delim (frag_text fr).

(** [re.sub(r"\n{3,}", "\n\n", content)] *)
Definition collapse (t : text) : text :=
  Re.sub Parser.BLANK_LINES (λ _, [Parser.nl; Parser.nl]) t.

(** The parts [_IMG_MARKER.split] gives after the first chunk. *)
Definition parts_of (frags : list fragment) : list text :=
  flat_map (λ f, [frag_alt f; frag_path f; frag_text f]) frags.

End Content.

(** ** Vocabulary for challenge files *)

Module Source.
Import Ui.

Definition squote : ascii := "'"%char.

(** A challenge file as a sequence of pieces: code, a docstring in
    double or in single quotes, a comment from [#] to the end of its
    line. *)
Inductive piece :=
| Code (c : text)
| DocDQ (body : text)
| DocSQ (body : text)
| Comment (body : text).

Definition render_piece (p : piece) : text :=
  match p with
  | Code c => c
  | DocDQ body => repeat dquote 3 ++ body ++ repeat dquote 3
  | DocSQ body => repeat squote 3 ++ body ++ repeat squote 3
  | Comment body => lit "#" ++ body
  end.

Definition render (pieces : list piece) : text :=
  flat_map render_piece pieces.

(** The code of a file: its code pieces, one after the other. *)
Definition code_of (pieces : list piece) : text :=
  flat_map (λ p, match p with Code c => c | _ => [] end) pieces.

(** The docstring pattern for the quote character [q]; the two patterns
    of [_strip_comments] are its instances. *)
Definition DOCSTRING (q : ascii) : Re.regex :=
  Re.Lit (repeat q 3) -;- Re.Rep false 0 Re.dotall -;- Re.Lit (repeat q 3).

(** No run of three quotes [q] begins inside [r], whatever follows. *)
Definition quote_free (q : ascii) (r : text) : bool :=
  negb (Str.contains (repeat q 3) (r ++ [q; q])).

Definition is_doc_dq (p : piece) : bool :=
  match p with DocDQ _ => true | _ => false end.

Definition is_doc_sq (p : piece) : bool :=
  match p with DocSQ _ => true | _ => false end.

Definition is_comment (p : piece) : bool :=
  match p with Comment _ => true | _ => false end.

(** What a piece must satisfy for each of the three substitutions: a
    docstring closes at its own closing quotes and no other piece holds
    an opener of it; code holds no [#] and a comment no line break. *)
Definition wf_dq (p : piece) : bool :=
  match p with
  | DocDQ body => quote_free dquote body
  | _ => quote_free dquote (render_piece p)
  end.

Definition wf_sq (p : piece) : bool :=
  match p with
  | DocDQ _ => true
  | DocSQ body => quote_free squote body
  | _ => quote_free squote (render_piece p)
  end.

Definition wf_hash (p : piece) : bool :=
  match p with
  | Code c => negb (Str.contains (lit "#") c)
  | Comment body => forallb Re.dot body
  | _ => true
  end.

(** In a file without its docstrings, every comment ends the file or is
    followed by code that starts with a line break. *)
Fixpoint comments_end (pieces : list piece) : bool :=
  match pieces with
  | [] => true
  | Comment _ :: rest =>
      match rest with
      | [] => true
      | Code (c :: _) :: _ => Ascii.eqb c Parser.nl
      | _ => false
      end && comments_end rest
  | _ :: rest => comments_end rest
  end.

Definition no_docs (pieces : list piece) : list piece :=
  filter (λ p, is_doc_sq p = false)
    (filter (λ p, is_doc_dq p = false) pieces).

Definition wf_source (pieces : list piece) : bool :=
  forallb wf_dq pieces && forallb wf_sq pieces && forallb wf_hash pieces
  && comments_end (no_docs pieces).

End Source.

(** ** Vocabulary for the pages the parser returns *)

Module PageShape.

(** A page as the parser leaves it: a content that is not empty, has no
    whitespace around it and no three line breaks in a row, and a title
    without whitespace around it. *)
Definition normalised (p : Parser.page) : Prop :=
  Parser.content p ≠ [] ∧ Str.strip (Parser.content p) = Parser.content p ∧
  Str.strip (Parser.title p) = Parser.title p ∧
  Str.contains [Parser.nl; Parser.nl; Parser.nl] (Parser.content p) = false.

End PageShape.

(** ** Python values read through [.get] and tested for truth *)

Module PyValue.

(** [v.get(k, dflt)]: only a dict has the method. *)
Definition get (k : string) (dflt : json) (v : json) : result json :=
  match v with
  | JObj o => Return (Py.get k dflt o)
  | _ => Raise AttributeError
  end.

(** [bool(v)] *)
Definition truthy (v : json) : bool :=
  match v with
  | JNull => false
  | JBool b => b
  | JInt n => negb (n =? 0)
  | JStr s => negb (String.eqb s EmptyString)
  | JArr l => negb (length l =? 0)%nat
  | JObj o => negb (size o =? 0)%nat
  end.

End PyValue.

(** ** learn/progress.py: reading a module's record *)

Module ProgressRead.

Definition get_module_progress (course_id module_id : string)
    (progress : gmap string json) : result json :=
  course ← PyValue.get course_id (JObj ∅)
             (Py.get "courses" (JObj ∅) progress);
  PyValue.get module_id (JObj ∅) course.

(** The progress document as the mark operations keep it: [courses]
    holds dicts of dicts of dicts. *)
Definition is_dict (v : json) : bool :=
  match v with JObj _ => true | _ => false end.

Definition dict_of (P : json → bool) (v : json) : bool :=
  match v with
  | JObj o => forallb (λ kv, P kv.2) (map_to_list o)
  | _ => false
  end.

Definition wf_progress (progress : gmap string json) : bool :=
  match progress !! "courses" with
  | Some courses => dict_of (dict_of is_dict) courses
  | None => false
  end.

(** A session on the document: the streak update of start-up and the
    three mark operations, in any order. *)
Inductive operation :=
| UpdateStreak (today yesterday : string)
| MarkLesson (course_id module_id : string)
| MarkQuiz (course_id module_id : string) (score total : Z)
| MarkChallenge (course_id module_id : string).

Definition apply (op : operation) (progress : gmap string json)
    : result (gmap string json) :=
  match op with
  | UpdateStreak today yesterday =>
      r ← Progress.update_streak today yesterday progress; Return r.1
  | MarkLesson c m => Progress.mark_lesson c m progress
  | MarkQuiz c m score total => Progress.mark_quiz c m score total progress
  | MarkChallenge c m => Progress.mark_challenge c m progress
  end.

Fixpoint run (ops : list operation) (progress : gmap string json)
    : result (gmap string json) :=
  match ops with
  | [] => Return progress
  | op :: ops' => progress' ← apply op progress; run ops' progress'
  end.

(** The streak is a number wherever it is present. *)
Definition is_number (v : json) : bool :=
  match v with JInt _ | JBool _ => true | _ => false end.

Definition streak_ok (progress : gmap string json) : bool :=
  match progress !! "streak" with
  | Some v => is_number v
  | None => true
  end.

Definition session_ok (progress : gmap string json) : bool :=
  wf_progress progress && streak_ok progress.

(** [courses[c][m][field] = v] with the entries created on the way. *)
Definition set_field (c m field : string) (v : json)
    (courses : gmap string json) : gmap string json :=
  <[c := JObj (<[m := JObj (<[field := v]>
                       (Progress.entry m (Progress.entry c courses)))]>
                 (Progress.entry c courses))]> courses.


(** The field a mark operation assigns, and the value it gives it. *)
Definition mark_of (op : operation)
    : option (string * string * string * json) :=
  match op with
  | UpdateStreak _ _ => None
  | MarkLesson c m => Some (c, m, "lesson"%string, JBool true)
  | MarkQuiz c m score total =>
      Some (c, m, "quiz_score"%string,
            JStr (Py.fmt_int score +:+ "/" +:+ Py.fmt_int total))
  | MarkChallenge c m => Some (c, m, "challenge"%string, JBool true)
  end.


(** The streak as [update_streak] keeps it: an integer that is not
    negative, and at least 1 once [last_active] holds a date. *)
Definition streak_sound (progress : gmap string json) : Prop :=
  ∃ n, progress !! "streak" = Some (JInt n) ∧ 0 ≤ n ∧
       ∀ d, Py.get "last_active" JNull progress = JStr d → 1 ≤ n.


End ProgressRead.

(** ** learn/theme.py and the registration loop of learn/content/courses.py *)

Module Theme.

(** The two module-level dicts. *)
Record registry := Registry {
  _COURSE_ART : gmap string string;
  _COURSE_COLORS : gmap string string
}.

Definition empty : registry := Registry ∅ ∅.

Definition _DEFAULT_COLOR : string := "blue".

Definition DEFAULT_ART : string :=
"
      .---.
     / o o \    AI Training
    |   ^   |   Platform
     \ --- /
      '---'
".

(** [if color:] for an argument that is [None] or a string. *)
Definition given (x : option string) : option string :=
  match x with
  | Some s => if String.eqb s EmptyString then None else Some s
  | None => None
  end.

Definition register_course_theme (course_id : string)
    (color art : option string) (r : registry) : registry :=
  let colors := match given color with
                | Some c => <[course_id := c]> (_COURSE_COLORS r)
                | None => _COURSE_COLORS r
                end in
  let arts := match given art with
              | Some a => <[course_id := a]> (_COURSE_ART r)
              | None => _COURSE_ART r
              end in
  Registry arts colors.

Definition get_course_color (course_id : string) (r : registry) : string :=
  default _DEFAULT_COLOR (_COURSE_COLORS r !! course_id).

Definition get_course_art (course_id : string) (r : registry) : string :=
  default DEFAULT_ART (_COURSE_ART r !! course_id).

(** A course of [COURSES], with the three entries the loop reads:
    [_c["id"]], [_c.get("color")] and [_c.get("art")]. *)
Record course := Course {
  course_id : string;
  course_color : option string;
  course_art : option string
}.

(** [for _c in COURSES: register_course_theme(...)] *)
Definition register_all (courses : list course) (r : registry) : registry :=
  foldl (λ r c, register_course_theme (course_id c) (course_color c)
                  (course_art c) r) r courses.

(** The ids and colours of the three courses of [COURSES]. *)
Definition COURSES (art1 art2 art3 : string) : list course :=
  [Course "ai-theory" (Some "cyan"%string) (Some art1);
   Course "langchain-fundamentals" (Some "green"%string) (Some art2);
   Course "langchain-agents" (Some "magenta"%string) (Some art3)].

End Theme.

(** ** learn/ui.py: rendering a page without native images *)

Module Rendering.
Import Re Ui.

Definition _PANEL_OVERHEAD : Z := 6.

Definition _NATIVE_IMAGE_TERMINALS : list string :=
  ["iTerm.app"; "iTerm2"; "WezTerm"]%string.

(** [os.environ.get("TERM_PROGRAM", "") in _NATIVE_IMAGE_TERMINALS] *)
Definition _terminal_supports_native_images (environ : gmap string string)
    : bool :=
  bool_decide (default EmptyString (environ !! "TERM_PROGRAM")
               ∈ _NATIVE_IMAGE_TERMINALS).

(** [_show_image_notice]: [shown] is the global [_IMAGE_NOTICE_SHOWN]
    when the call starts; the result tells whether the notice is printed
    and gives the global as the call leaves it. *)
Definition _show_image_notice (environ : gmap string string) (shown : bool)
    : bool * bool :=
  if shown then (false, shown)
  else (negb (_terminal_supports_native_images environ), true).

(** A run of calls of [_show_image_notice], each with the environment of
    its moment: what every call prints. *)
Fixpoint notices (calls : list (gmap string string)) (shown : bool)
    : list bool :=
  match calls with
  | [] => []
  | environ :: calls' =>
      let '(printed, shown') := _show_image_notice environ shown in
      printed :: notices calls' shown'
  end.

Section WithPixels.

(** [rich_pixels.Pixels] and what [_render_image_pixels] makes of a path
    and a width ([None] when the image cannot be loaded). *)
Variable pixels : Type.
Variable _render_image_pixels : text → Z → option pixels.

(** [Markdown(t)], [Text(t)] with or without [style="dim italic"], and a
    pixel image. *)
Inductive renderable :=
| Markdown (t : text)
| Text (t : text) (dim_italic : bool)
| Pixels (img : pixels).

(** [Markdown(raw_content)], or the [Group] of the renderables. *)
Inductive rendered :=
| Single (r : renderable)
| Group (renderables : list renderable).

(** The [while i < len(parts)] loop of [_build_page_content_fallback],
    with the same fuel as the loop of [_split_page_segments]. *)
Fixpoint fallback_loop (max_img_width : Z) (fuel : nat) (parts : list text)
    (i : nat) (renderables : list renderable) : list renderable :=
  match fuel with
  | O => renderables
  | S fuel' =>
      if (i <? length parts)%nat then
        if (i mod 3 =? 0)%nat then
          let segment := Str.strip (nth i parts []) in
          fallback_loop max_img_width fuel' parts (i + 1)
            (match segment with
             | [] => renderables
             | _ => renderables ++ [Markdown segment]
             end)
        else if (i mod 3 =? 1)%nat then
          let alt := nth i parts [] in
          let path :=
            if (i + 1 <? length parts)%nat then nth (i + 1) parts []
            else [] in
          fallback_loop max_img_width fuel' parts (i + 1 + 1)
            (match _render_image_pixels path max_img_width with
             | Some img_renderable =>
                 renderables ++ [Text [] false; Pixels img_renderable;
                                 Text (lit "  " ++ alt) true; Text [] false]
             | None =>
                 renderables
                 ++ [Text (lit "  [Image: " ++ alt ++ lit "]") true]
             end)
        else fallback_loop max_img_width fuel' parts (i + 1) renderables
      else renderables
  end.

Definition _build_page_content_fallback (console_width : Z)
    (raw_content : text) : rendered :=
  let max_img_width := console_width - _PANEL_OVERHEAD in
  let parts := split _IMG_MARKER raw_content in
  let renderables :=
    fallback_loop max_img_width (length parts) parts 0 [] in
  match renderables with
  | [] => Single (Markdown raw_content)
  | _ => Group renderables
  end.

(** What the fallback shows for one segment of [_split_page_segments]. *)
Definition shown_as (max_img_width : Z) (s : segment) : list renderable :=
  match s with
  | SText t => [Markdown t]
  | SImage alt path =>
      match _render_image_pixels path max_img_width with
      | Some img => [Text [] false; Pixels img; Text (lit "  " ++ alt) true;
                     Text [] false]
      | None => [Text (lit "  [Image: " ++ alt ++ lit "]") true]
      end
  end.

End WithPixels.

Arguments Markdown {pixels} t.
Arguments Text {pixels} t dim_italic.
Arguments Pixels {pixels} img.
Arguments Single {pixels} r.
Arguments Group {pixels} renderables.

End Rendering.

(** ** learn/ui.py: resetting a challenge *)

Module Reset.
Import Ui.

(** The message [_reset_challenge] prints. *)
Inductive message :=
| FileNotFound                  (* Error: ... not found! *)
| NothingToReset                (* Challenge already has placeholders *)
| ResetDone                     (* Challenge reset to original placeholders *)
| ResetFailed (stderr : text)   (* Reset failed: {result.stderr.strip()} *)
| GitNotFound.                  (* Error: git not found. Cannot reset. *)

(** What [subprocess.run(["git", "checkout", ...])] gives back, or the
    [FileNotFoundError] it raises when there is no [git]. *)
Inductive git :=
| NoGit
| GitCompleted (returncode : Z) (stderr : text).

(** A run either ends without starting [git], or starts it and ends
    according to its result. *)
Inductive reset :=
| Shown (m : message)
| Checkout (k : git → message).

Definition after_git (result : git) : message :=
  match result with
  | NoGit => GitNotFound
  | GitCompleted returncode stderr =>
      if returncode =? 0 then ResetDone else ResetFailed (Str.strip stderr)
  end.

(** [file] is what is found at [challenge_path] ([None] when it is not
    a file). *)
Definition _reset_challenge (file : option text) : reset :=
  match file with
  | None => Shown FileNotFound
  | Some code =>
      if _check_placeholders code then Shown NothingToReset
      else Checkout after_git
  end.

End Reset.

(** ** learn/ui.py: the module picker *)

Module Menus.
Import ProgressRead.

(** What is found at a module's [README.md].  The text is the text as
    [open] gives it, every line end a line break; a file that is not
    UTF-8 makes the function raise and is none of the cases. *)
Inductive readme :=
| NoReadme                (* os.path.isfile is false *)
| UnreadableReadme        (* open or read raises OSError *)
| Readme (t : text).

(** [for line in f]: the lines of a text, each with its line break. *)
Fixpoint file_lines (s : text) : list text :=
  match s with
  | [] => []
  | c :: s' =>
      if Ascii.eqb c Parser.nl then [c] :: file_lines s'
      else match file_lines s' with
           | line :: lines => (c :: line) :: lines
           | [] => [[c]]
           end
  end.

(** The loop over the lines. *)
Fixpoint first_description (lines : list text) : text :=
  match lines with
  | [] => []
  | line :: lines' =>
      let line := Str.strip line in
      if bool_decide (line = []) || Str.startswith (lit "#") line
         || Str.startswith (lit "<!--") line
      then first_description lines'
      else if (100 <? length line)%nat then take 97 line ++ lit "..."
      else line
  end.

Definition _get_module_description (file : readme) : text :=
  match file with
  | NoReadme => []
  | UnreadableReadme => []
  | Readme t => first_description (file_lines t)
  end.

(** The shape of a description: at most 100 characters on one line,
    not a heading and not a comment, and no whitespace in front. *)
Definition description_ok (d : text) : Prop :=
  (length d <= 100)%nat ∧ forallb Re.dot d = true ∧
  Str.startswith (lit "#") d = false ∧
  Str.startswith (lit "<!--") d = false ∧
  match d with [] => True | c :: _ => Str.isspace c = false end.

(** The progress indicator [module_picker] appends to a module's name:
    a check mark, a tilde, or nothing. *)
Inductive indicator :=
| Complete
| Started
| Unmarked.

(** [progress] is the argument of [module_picker], [None] by default. *)
Definition module_indicator (course_id module_id : string)
    (progress : option (gmap string json)) : result indicator :=
  match progress with
  | None => Return Unmarked
  | Some progress =>
      if PyValue.truthy (JObj progress) then
        mp ← get_module_progress course_id module_id progress;
        lesson ← PyValue.get "lesson" JNull mp;
        both ← (if PyValue.truthy lesson
                then quiz_score ← PyValue.get "quiz_score" JNull mp;
                     Return (PyValue.truthy quiz_score)
                else Return false);
        if both : bool then Return Complete
        else if PyValue.truthy mp then Return Started
        else Return Unmarked
      else Return Unmarked
  end.

End Menus.

(** ** learn/ui.py: writing the credentials to [.env] *)

Module Setup.
Import Re.





(** The message printed at the end, with the keys it names. *)
Inductive message :=
| AlreadyInEnv
| Added (keys : list string).


End Setup.

(** * Properties *)

(** ** Progress store *)

Module ProgressFacts.
Import Progress.

Lemma eq_str_true v s : Py.eq_str v s = true ↔ v = JStr s.
Proof.
  destruct v; simpl; try (split; [discriminate | congruence]).
  rewrite String.eqb_eq. split; congruence.
Qed.

Lemma eq_str_false v s : Py.eq_str v s = false ↔ v ≠ JStr s.
Proof.
  rewrite <- eq_str_true. destruct (Py.eq_str v s); split; congruence.
Qed.

Lemma eq_str_refl s : Py.eq_str (JStr s) s = true.
Proof. by apply eq_str_true. Qed.

(** A missing, unreadable or malformed file loads as the default
    document. *)
Lemma load_progress_default file :
  file = Missing ∨ file = Unreadable ∨ file = Malformed →
  load_progress file = Return (JObj default_progress).
Proof. by intros [-> | [-> | ->]]. Qed.

(** A parsed JSON object keeps its keys and gains the missing ones. *)
Lemma load_progress_backfill o :
  load_progress (Parsed (JObj o)) =
    Return (JObj (Py.dict_setdefault "streak" (JInt 0)
                    (Py.dict_setdefault "last_active" JNull
                       (Py.dict_setdefault "courses" (JObj ∅) o)))).
Proof. reflexivity. Qed.

Lemma dict_setdefault_lookup k' v (d : gmap string json) k :
  Py.dict_setdefault k' v d !! k =
    match d !! k with
    | Some x => Some x
    | None => if decide (k = k') then Some v else None
    end.
Proof.
  unfold Py.dict_setdefault.
  destruct (d !! k') eqn:Hk'.
  - destruct (d !! k) eqn:Hk; [done |].
    case_decide; [congruence | done].
  - case_decide as Hkk.
    + subst. by rewrite lookup_insert_eq, Hk'.
    + rewrite lookup_insert_ne by done. by destruct (d !! k).
Qed.

Lemma load_progress_backfill_lookup o k :
  ∃ o', load_progress (Parsed (JObj o)) = Return (JObj o') ∧
        o' !! k = match o !! k with
                  | Some v => Some v
                  | None => default_progress !! k
                  end.
Proof.
  eexists; split; [apply load_progress_backfill |].
  rewrite !dict_setdefault_lookup.
  destruct (o !! k); [done |].
  unfold default_progress.
  repeat case_decide; simplify_map_eq; done.
Qed.

End ProgressFacts.

Module ProgressClaims.
Import Progress ProgressSpec ProgressFacts.

(** C2.  On a document whose streak is the integer [n]:
    if [last_active] is today's date the streak is returned and the
    document is left as it is; if it is yesterday's date the streak
    becomes [n + 1]; for any other value, [null] and an absent key
    included, it becomes 1; in the two mutating branches [last_active]
    becomes today's date; and a second call on the same day returns the
    same streak and changes nothing. *)
Theorem update_streak_branches
    (today yesterday : string) (progress : gmap string json) (n : Z) :
  today ≠ yesterday →
  progress !! "streak" = Some (JInt n) →
  let last := Py.get "last_active" JNull progress in
  (last = JStr today →
     update_streak today yesterday progress = Return (progress, JInt n)) ∧
  (last = JStr yesterday →
     update_streak today yesterday progress =
       Return (<["last_active" := JStr today]>
                 (<["streak" := JInt (n + 1)]> progress), JInt (n + 1))) ∧
  (last ≠ JStr today → last ≠ JStr yesterday →
     update_streak today yesterday progress =
       Return (<["last_active" := JStr today]>
                 (<["streak" := JInt 1]> progress), JInt 1)) ∧
  (∃ progress' k,
     update_streak today yesterday progress = Return (progress', JInt k) ∧
     progress' !! "last_active" = Some (JStr today) ∧
     progress' !! "streak" = Some (JInt k) ∧
     update_streak today yesterday progress' = Return (progress', JInt k)).
Proof.
  intros Hty Hs last.
  assert (Hsame : last = JStr today →
            update_streak today yesterday progress
            = Return (progress, JInt n)).
  { intros Hl. unfold update_streak. fold last.
    rewrite Hl, eq_str_refl. unfold Py.get. by rewrite Hs. }
  assert (Hyest : last = JStr yesterday →
            update_streak today yesterday progress =
              Return (<["last_active" := JStr today]>
                        (<["streak" := JInt (n + 1)]> progress),
                      JInt (n + 1))).
  { intros Hl. unfold update_streak. fold last. rewrite Hl.
    replace (Py.eq_str (JStr yesterday) today) with false
      by (symmetry; apply eq_str_false; congruence).
    rewrite eq_str_refl. unfold Py.get at 1. rewrite Hs. simpl.
    by simplify_map_eq. }
  assert (Hother : last ≠ JStr today → last ≠ JStr yesterday →
            update_streak today yesterday progress =
              Return (<["last_active" := JStr today]>
                        (<["streak" := JInt 1]> progress), JInt 1)).
  { intros H1 H2. unfold update_streak. fold last.
    apply eq_str_false in H1, H2. rewrite H1, H2. simpl.
    by simplify_map_eq. }
  split_and!; try done.
  assert (Hagain : ∀ p k, p !! "last_active" = Some (JStr today) →
            p !! "streak" = Some (JInt k) →
            update_streak today yesterday p = Return (p, JInt k)).
  { intros p k Hl Hk. unfold update_streak, Py.get.
    rewrite Hl, Hk. simpl. by rewrite String.eqb_refl. }
  destruct (Py.eq_str last today) eqn:Ht;
    [apply eq_str_true in Ht | apply eq_str_false in Ht].
  { exists progress, n. split_and!; try done; [by apply Hsame | |].
    - unfold last, Py.get in Ht.
      destruct (progress !! "last_active"); simpl in Ht; congruence.
    - apply Hagain; [| done]. unfold last, Py.get in Ht.
      destruct (progress !! "last_active"); simpl in Ht; congruence. }
  destruct (Py.eq_str last yesterday) eqn:Hy;
    [apply eq_str_true in Hy | apply eq_str_false in Hy].
  - eexists _, (n + 1). split; [by apply Hyest |].
    split_and!; [by simplify_map_eq .. |].
    apply Hagain; by simplify_map_eq.
  - eexists _, 1. split; [by apply Hother |].
    split_and!; [by simplify_map_eq .. |].
    apply Hagain; by simplify_map_eq.
Qed.

Lemma update_streak_branches_witness :
  let progress : gmap string json :=
    <["streak" := JInt 4]> (<["last_active" := JStr "2024-03-09"]> ∅) in
  update_streak "2024-03-10" "2024-03-09" progress =
    Return (<["last_active" := JStr "2024-03-10"]>
              (<["streak" := JInt (4 + 1)]> progress), JInt (4 + 1)).
Proof.
  intros progress.
  refine (proj1 (proj2 (update_streak_branches
                          "2024-03-10" "2024-03-09" progress 4 _ _)) _).
  - discriminate.
  - reflexivity.
  - reflexivity.
Defined.

(** C8 (the code departs from the claim).  A progress file whose JSON
    text is an array parses, and [load_progress] raises on it: the
    [setdefault] call fails outside the exceptions the function
    catches. *)
Theorem load_progress_raises_on_array :
  load_progress (Parsed (JArr [])) = Raise AttributeError.
Proof. reflexivity. Qed.

(** The same for every parsed value that is not an object, and for a
    file that is not UTF-8. *)
Lemma load_progress_raises data :
  (∀ o, data ≠ JObj o) →
  load_progress (Parsed data) = Raise AttributeError.
Proof. intros H. destruct data; try reflexivity. by destruct (H o). Qed.

Lemma load_progress_raises_undecodable :
  load_progress Undecodable = Raise UnicodeDecodeError.
Proof. reflexivity. Qed.

(** The three mark operations share one shape: ensure the nested
    entries, then assign one field of the module entry. *)
Lemma ensure_then_set c m field v progress courses :
  progress !! "courses" = Some (JObj courses) →
  module_slot_ok c m courses = true →
  (progress1 ← _ensure_module c m progress;
   Py.dict_at "courses"
     (Py.at_key c (Py.at_key m (Py.setitem field v))) progress1)
  = Return (<["courses" :=
               JObj (<[c := JObj (<[m := JObj (<[field := v]>
                                     (entry m (entry c courses)))]>
                                    (entry c courses))]> courses)]>
              progress).
Proof.
  intros Hc Hok. unfold module_slot_ok in Hok.
  unfold _ensure_module, entry.
  destruct (courses !! c) as [[| | | | | mods] |] eqn:Hcc; try done;
    [destruct (mods !! m) as [[| | | | | fields] |] eqn:Hm; try done |];
    repeat (unfold Py.dict_at, Py.at_key, Py.setdefault, Py.setitem,
              Py.dict_setdefault; simpl; simplify_map_eq);
    by rewrite ?insert_insert_eq.
Qed.

Lemma ensure_then_set_marks_only c m field v progress courses :
  progress !! "courses" = Some (JObj courses) →
  module_slot_ok c m courses = true →
  marks_only c m field v progress
    (progress1 ← _ensure_module c m progress;
     Py.dict_at "courses"
       (Py.at_key c (Py.at_key m (Py.setitem field v))) progress1).
Proof.
  intros Hc Hok. rewrite (ensure_then_set _ _ _ _ _ _ Hc Hok).
  unfold marks_only. do 5 eexists.
  split; [reflexivity |]. split; [exact Hc |].
  split; [by rewrite lookup_insert_eq |].
  split; [by intros k Hk; rewrite lookup_insert_ne |].
  split; [by intros c' Hc'; rewrite lookup_insert_ne |].
  split; [by rewrite lookup_insert_eq |].
  split; [by intros m' Hm'; rewrite lookup_insert_ne |].
  split; [by rewrite lookup_insert_eq |].
  split; [by intros f Hf; rewrite lookup_insert_ne |].
  by rewrite lookup_insert_eq.
Qed.

(** C10.  On a document whose [courses] entry is a dict in which the
    course and module entries, where they exist, are dicts, each of
    [mark_lesson], [mark_quiz] and [mark_challenge] succeeds, creates the
    course and module entries if they are absent, sets its own field of
    [courses[c][m]], and leaves every other top-level key ([streak] and
    [last_active] among them), every other course entry, every other
    module entry and every other field of that module entry as it was. *)
Theorem mark_operations_frame
    (c m : string) (score total : Z)
    (progress courses : gmap string json) :
  progress !! "courses" = Some (JObj courses) →
  module_slot_ok c m courses = true →
  marks_only c m "lesson" (JBool true) progress
    (mark_lesson c m progress) ∧
  marks_only c m "quiz_score"
    (JStr (Py.fmt_int score +:+ "/" +:+ Py.fmt_int total)) progress
    (mark_quiz c m score total progress) ∧
  marks_only c m "challenge" (JBool true) progress
    (mark_challenge c m progress).
Proof.
  intros Hc Hok.
  split_and!; by apply ensure_then_set_marks_only with courses.
Qed.

Lemma mark_operations_frame_witness :
  let progress : gmap string json :=
    <["streak" := JInt 2]>
      (<["courses" := JObj (<["py" := JObj (<["m1" := JObj
                               (<["lesson" := JBool true]> ∅)]> ∅)]> ∅)]>
         ∅) in
  marks_only "py" "m2" "quiz_score" (JStr "3/5") progress
    (mark_quiz "py" "m2" 3 5 progress).
Proof.
  intros progress.
  refine (proj1 (proj2 (mark_operations_frame "py" "m2" 3 5 progress
            (<["py" := JObj (<["m1" := JObj
                               (<["lesson" := JBool true]> ∅)]> ∅)]> ∅)
            _ _))).
  - reflexivity.
  - reflexivity.
Defined.

End ProgressClaims.

(** ** Text *)

Module StrFacts.
Import Str.

Lemma startswith_spec p s :
  startswith p s = true ↔ ∃ r, s = p ++ r.
Proof.
  revert s. induction p as [| a p IH]; intros s; simpl.
  - split; [by exists s | done].
  - destruct s as [| b s]; simpl.
    + split; [done | by intros [r Hr]].
    + rewrite andb_true_iff, Ascii.eqb_eq, IH. split.
      * intros [-> [r ->]]. by exists r.
      * intros [r Hr]. injection Hr as -> ->. eauto.
Qed.

Lemma startswith_app p s : startswith p (p ++ s) = true.
Proof. apply startswith_spec. by exists s. Qed.

Lemma startswith_drop p s :
  startswith p s = true → s = p ++ drop (length p) s.
Proof.
  intros [r ->]%startswith_spec. by rewrite drop_app_length.
Qed.

Lemma startswith_nil_r p : p ≠ [] → startswith p [] = false.
Proof. by destruct p. Qed.

Lemma contains_spec p s :
  contains p s = true ↔ ∃ a b, s = a ++ p ++ b.
Proof.
  induction s as [| c s IH]; simpl.
  - rewrite orb_false_r, startswith_spec. split.
    + intros [r Hr]. by exists [], r.
    + intros (a & b & Hab). destruct a; simpl in Hab; [by exists b |].
      discriminate.
  - rewrite orb_true_iff, startswith_spec, IH. split.
    + intros [[r Hr] | (a & b & ->)].
      * by exists [], r.
      * by exists (c :: a), b.
    + intros (a & b & Hab). destruct a as [| c' a]; simpl in Hab.
      * left. by exists b.
      * right. injection Hab as -> ->. by exists a, b.
Qed.

Lemma contains_false p s :
  contains p s = false ↔ ∀ a b, s ≠ a ++ p ++ b.
Proof.
  rewrite <- not_true_iff_false, contains_spec. split.
  - intros H a b Hab. apply H. eauto.
  - intros H (a & b & Hab). by apply (H a b).
Qed.

Lemma contains_false_app p a b :
  contains p (a ++ b) = false →
  contains p a = false ∧ contains p b = false.
Proof.
  rewrite !contains_false. intros H. split.
  - intros x y ->. apply (H x (y ++ b)). by rewrite <- !app_assoc.
  - intros x y ->. apply (H (a ++ x) y). by rewrite <- !app_assoc.
Qed.

(** A pattern [c0 :: v] in which the character [c] does not occur after
    the first position cannot begin inside [b] and run into a text that
    starts with [c]: an occurrence that begins inside [b] lies in [b]. *)
Lemma overlap_inside (c c0 : ascii) (v b rest x : text) :
  b ≠ [] →
  Forall (λ d, d ≠ c) v →
  b ++ c :: rest = c0 :: v ++ x →
  ∃ z, b = c0 :: v ++ z.
Proof.
  intros Hb Hv. destruct b as [| b0 b]; [done |]. simpl.
  intros [= -> H]. clear Hb. revert b H.
  induction Hv as [| d v Hd Hv IH]; intros b H; simpl in *.
  - by exists b.
  - destruct b as [| b1 b]; simpl in H.
    + injection H as -> _. done.
    + injection H as -> H. destruct (IH _ H) as [z Hz].
      exists z. by injection Hz as ->.
Qed.

Lemma overlap_inside_end (c0 : ascii) (v b x : text) :
  b ++ [] = c0 :: v ++ x → ∃ z, b = c0 :: v ++ z.
Proof. rewrite app_nil_r. intros ->. by exists x. Qed.

(** *** Whitespace *)

Lemma lstrip_spec s :
  ∃ w, s = w ++ lstrip s ∧ all_space w = true ∧
       match lstrip s with
       | [] => True
       | c :: _ => isspace c = false
       end.
Proof.
  induction s as [| c s (w & Hw & Hs & Hh)]; simpl.
  - by exists [].
  - destruct (isspace c) eqn:Hc.
    + exists (c :: w). simpl. rewrite Hc, Hs. by rewrite <- Hw.
    + exists []. simpl. by rewrite Hc.
Qed.

Lemma lstrip_idem s : lstrip (lstrip s) = lstrip s.
Proof.
  destruct (lstrip_spec s) as (w & _ & _ & H).
  destruct (lstrip s) as [| c t]; [done |]. simpl. by rewrite H.
Qed.

Lemma lstrip_all_space w s :
  all_space w = true → lstrip (w ++ s) = lstrip s.
Proof.
  induction w as [| c w IH]; simpl; [done |].
  intros [Hc Hw]%andb_true_iff. rewrite Hc. by apply IH.
Qed.

Lemma lstrip_nonspace c s : isspace c = false → lstrip (c :: s) = c :: s.
Proof. intros H. simpl. by rewrite H. Qed.

Lemma all_space_app a b :
  all_space (a ++ b) = all_space a && all_space b.
Proof. apply forallb_app. Qed.

Lemma all_space_rev a : all_space (rev a) = all_space a.
Proof.
  induction a as [| c a IH]; simpl; [done |].
  rewrite all_space_app, IH. simpl. rewrite andb_true_r. apply andb_comm.
Qed.

Lemma rstrip_spec s :
  ∃ w, s = rstrip s ++ w ∧ all_space w = true ∧
       match last (rstrip s) with
       | None => True
       | Some c => isspace c = false
       end.
Proof.
  unfold rstrip. destruct (lstrip_spec (rev s)) as (w & Hw & Hs & Hh).
  exists (rev w). split_and!.
  - rewrite <- rev_app_distr, <- Hw. by rewrite rev_involutive.
  - by rewrite all_space_rev.
  - destruct (lstrip (rev s)) as [| c t]; [done |]. simpl.
    by rewrite last_snoc.
Qed.

Lemma rstrip_all_space s w :
  all_space w = true → rstrip (s ++ w) = rstrip s.
Proof.
  intros Hw. unfold rstrip. rewrite rev_app_distr.
  rewrite lstrip_all_space; [done | by rewrite all_space_rev].
Qed.

Lemma rstrip_nonspace s c : isspace c = false → rstrip (s ++ [c]) = s ++ [c].
Proof.
  intros Hc. unfold rstrip. rewrite rev_app_distr. simpl. rewrite Hc.
  simpl. by rewrite rev_involutive.
Qed.

Lemma rstrip_nil_iff s : rstrip s = [] ↔ all_space s = true.
Proof.
  split.
  - intros H. destruct (rstrip_spec s) as (w & Hw & Hs & _).
    rewrite H in Hw. simpl in Hw. by subst.
  - intros H. rewrite <- (app_nil_l s). by rewrite rstrip_all_space.
Qed.

(** A text is its stripped core between two runs of whitespace; the
    core is empty or begins and ends with a character that is not
    whitespace. *)
Lemma strip_spec s :
  ∃ w1 w2, s = w1 ++ strip s ++ w2 ∧
           all_space w1 = true ∧ all_space w2 = true ∧
           match strip s with
           | [] => True
           | c :: _ => isspace c = false
           end ∧
           match last (strip s) with
           | None => True
           | Some c => isspace c = false
           end.
Proof.
  unfold strip.
  destruct (lstrip_spec s) as (w1 & H1 & Hw1 & Hh).
  destruct (rstrip_spec (lstrip s)) as (w2 & H2 & Hw2 & Hl).
  exists w1, w2. split_and!; try done.
  - by rewrite <- H2.
  - destruct (rstrip (lstrip s)) as [| c t] eqn:E; [done |].
    rewrite H2 in Hh. by simpl in Hh.
Qed.

Lemma strip_all_space s : all_space s = true → strip s = [].
Proof.
  intros H. unfold strip. apply rstrip_nil_iff.
  destruct (lstrip_spec s) as (w & Hw & _ & _).
  rewrite Hw, all_space_app in H. by apply andb_true_iff in H as [_ H].
Qed.

Lemma strip_nil_iff s : strip s = [] ↔ all_space s = true.
Proof.
  split; [| apply strip_all_space].
  intros H. destruct (strip_spec s) as (w1 & w2 & Hs & H1 & H2 & _).
  rewrite H in Hs. simpl in Hs. subst s.
  by rewrite all_space_app, H1, H2.
Qed.

(** Stripping the core put between whitespace gives the core back. *)
Lemma strip_core w1 t w2 :
  all_space w1 = true → all_space w2 = true →
  match t with [] => True | c :: _ => isspace c = false end →
  match last t with None => True | Some c => isspace c = false end →
  strip (w1 ++ t ++ w2) = t.
Proof.
  intros H1 H2 Hh Hl. unfold strip. rewrite lstrip_all_space by done.
  destruct t as [| c t]; simpl in *.
  - apply rstrip_nil_iff. rewrite <- all_space_rev.
    destruct (lstrip_spec w2) as (w & Hw & _ & _).
    rewrite <- (all_space_rev w2) in H2. rewrite all_space_rev in *.
    rewrite Hw, all_space_app in H2.
    by apply andb_true_iff in H2 as [_ H2].
  - rewrite Hh. rewrite app_comm_cons, rstrip_all_space by done.
    destruct (exists_last (l := c :: t)) as (t' & d & Ht); [done |].
    rewrite Ht in *. rewrite last_snoc in Hl. by apply rstrip_nonspace.
Qed.

Lemma strip_idem s : strip (strip s) = strip s.
Proof.
  destruct (strip_spec s) as (w1 & w2 & _ & _ & _ & Hh & Hl).
  rewrite <- (app_nil_r (strip s)) at 1.
  by apply (strip_core [] (strip s) []).
Qed.

End StrFacts.

(** ** The matcher *)

Module ReFacts.
Import Str Re StrFacts.

Section Repetition.
Context {R : Type} (cls : ascii → bool) (k : text → option R).

Lemma rep_min_app n a s :
  length a = n → forallb cls a = true → rep_min cls n (a ++ s) k = k s.
Proof.
  intros <-. induction a as [| c a IH]; simpl; [done |].
  intros [-> Ha]%andb_true_iff. by apply IH.
Qed.

Lemma rep_min_inv n s r :
  rep_min cls n s k = Some r →
  ∃ a s', s = a ++ s' ∧ length a = n ∧ forallb cls a = true ∧
          k s' = Some r.
Proof.
  revert s. induction n as [| n IH]; intros s; simpl.
  - intros H. by exists [], s.
  - destruct s as [| c s]; [done |]. destruct (cls c) eqn:Hc; [| done].
    intros (a & s' & -> & <- & Ha & Hk)%IH.
    exists (c :: a), s'. simpl. by rewrite Hc, Ha.
Qed.

Lemma rep_lazy_here s r : k s = Some r → rep_lazy cls s k = Some r.
Proof. intros H. destruct s; simpl; by rewrite H. Qed.

Lemma rep_lazy_skip a s :
  forallb cls a = true →
  (∀ a1 a2, a = a1 ++ a2 → a2 ≠ [] → k (a2 ++ s) = None) →
  rep_lazy cls (a ++ s) k = rep_lazy cls s k.
Proof.
  induction a as [| c a IH]; [done |].
  intros [Hc Ha]%andb_true_iff Hk. simpl.
  pose proof (Hk [] (c :: a) eq_refl) as H0. simpl in H0.
  rewrite H0 by done. rewrite Hc. apply IH; [done |].
  intros a1 a2 -> Hne. by apply (Hk (c :: a1) a2).
Qed.

Lemma rep_lazy_inv s r :
  rep_lazy cls s k = Some r →
  ∃ a s', s = a ++ s' ∧ forallb cls a = true ∧ k s' = Some r.
Proof.
  induction s as [| c s IH]; simpl.
  - destruct (k []) eqn:Hk; [| done]. intros [= ->]. by exists [], [].
  - destruct (k (c :: s)) eqn:Hk.
    + intros [= ->]. by exists [], (c :: s).
    + destruct (cls c) eqn:Hc; [| done].
      intros (a & s' & -> & Ha & Hs)%IH.
      exists (c :: a), s'. simpl. by rewrite Hc, Ha.
Qed.

Lemma rep_greedy_stop s :
  match s with [] => True | c :: _ => cls c = false end →
  rep_greedy cls s k = k s.
Proof. destruct s as [| c s]; simpl; [done |]. by intros ->. Qed.

Lemma rep_greedy_max a s r :
  forallb cls a = true →
  match s with [] => True | c :: _ => cls c = false end →
  k s = Some r →
  rep_greedy cls (a ++ s) k = Some r.
Proof.
  intros Ha Hs Hk. induction a as [| c a IH]; simpl.
  - by rewrite rep_greedy_stop.
  - apply andb_true_iff in Ha as [-> Ha]. by rewrite IH.
Qed.

Lemma rep_greedy_inv s r :
  rep_greedy cls s k = Some r →
  ∃ a s', s = a ++ s' ∧ forallb cls a = true ∧ k s' = Some r.
Proof.
  induction s as [| c s IH]; simpl.
  - intros H. by exists [], [].
  - destruct (cls c) eqn:Hc.
    + destruct (rep_greedy cls s k) eqn:Hg.
      * intros [= ->]. destruct (IH eq_refl) as (a & s' & -> & Ha & Hs).
        exists (c :: a), s'. simpl. by rewrite Hc, Ha.
      * intros H. by exists [], (c :: s).
    + intros H. by exists [], (c :: s).
Qed.

End Repetition.

Section Exec.
Context {R : Type}.
Implicit Types (k : text → list text → option R) (g : list text).

Lemma exec_seq r1 r2 s g k :
  exec (r1 -;- r2) s g k = exec r1 s g (λ s' g', exec r2 s' g' k).
Proof. reflexivity. Qed.

Lemma exec_rep greedy min cls s g k :
  exec (Rep greedy min cls) s g k =
    rep_min cls min s (λ s1,
      if greedy then rep_greedy cls s1 (λ s2, k s2 g)
      else rep_lazy cls s1 (λ s2, k s2 g)).
Proof. reflexivity. Qed.

Lemma exec_grp r1 s g k :
  exec (Grp r1) s g k =
    exec r1 s g (λ s' g', k s' (g' ++ [take (length s - length s') s])).
Proof. reflexivity. Qed.

Lemma exec_lit l s g k : exec (Lit l) (l ++ s) g k = k s g.
Proof. simpl. by rewrite startswith_app, drop_app_length. Qed.

Lemma exec_lit_inv l s g k r :
  exec (Lit l) s g k = Some r → ∃ s', s = l ++ s' ∧ k s' g = Some r.
Proof.
  cbn [exec]. destruct (startswith l s) eqn:Hl; [| done].
  intros H. exists (drop (length l) s). split; [| done].
  by apply startswith_drop.
Qed.

Lemma exec_lit_fail l s g k :
  startswith l s = false → exec (Lit l) s g k = None.
Proof. simpl. by intros ->. Qed.

End Exec.

(** A pattern that begins with a literal matches only where the literal
    is. *)
Lemma re_match_lit_prefix l r s x :
  re_match (Lit l -;- r) s = Some x → startswith l s = true.
Proof.
  unfold re_match. simpl. by destruct (startswith l s).
Qed.

(** *** Matches are not empty

    A match consumes at least [min_len r] characters; every pattern of
    the program has a positive [min_len], so [sub] and [split] never
    meet an empty match. *)

Lemma exec_consumes {R} r : ∀ s g (k : text → list text → option R) res,
  exec r s g k = Some res →
  ∃ a s' g', s = a ++ s' ∧ (min_len r <= length a)%nat ∧
             k s' g' = Some res.
Proof.
  induction r as [l | greedy min cls | r1 IH1 | r1 IH1 r2 IH2];
    intros s g k res H.
  - apply exec_lit_inv in H as (s' & -> & H). by exists l, s', g.
  - rewrite exec_rep in H.
    apply rep_min_inv in H as (a & s1 & -> & Ha & _ & H).
    destruct greedy.
    + apply rep_greedy_inv in H as (b & s2 & -> & _ & H).
      exists (a ++ b), s2, g. rewrite <- app_assoc, length_app.
      split_and!; [done | simpl; lia | done].
    + apply rep_lazy_inv in H as (b & s2 & -> & _ & H).
      exists (a ++ b), s2, g. rewrite <- app_assoc, length_app.
      split_and!; [done | simpl; lia | done].
  - rewrite exec_grp in H. apply IH1 in H as (a & s' & g' & -> & Ha & H).
    by exists a, s', (g' ++ [take (length (a ++ s') - length s') (a ++ s')]).
  - rewrite exec_seq in H. apply IH1 in H as (a & s1 & g1 & -> & Ha & H).
    apply IH2 in H as (b & s2 & g2 & -> & Hb & H).
    exists (a ++ b), s2, g2. rewrite <- app_assoc, length_app.
    split_and!; [done | simpl; lia | done].
Qed.

Lemma re_match_consumes r s g n :
  re_match r s = Some (g, n) → (min_len r <= n)%nat.
Proof.
  unfold re_match. intros H.
  apply exec_consumes in H as (a & s' & g' & -> & Ha & [= _ <-]).
  rewrite length_app. lia.
Qed.

Lemma patterns_consume :
  Forall (λ r, (1 <= min_len r)%nat)
    [Parser.PAGE_MARKER; Parser.END_MARKER; Parser.IMAGE_LINE;
     Parser.BLANK_LINES; Ui._IMG_MARKER; Ui.DOCSTRING_DQ; Ui.DOCSTRING_SQ;
     Ui.COMMENT].
Proof. repeat constructor. Qed.


(** *** sub, split and search along a text *)

Lemma push_ne c parts : push c parts ≠ [].
Proof. by destruct parts. Qed.

Lemma split_from_ne r n s : split_from r n s ≠ [].
Proof.
  revert n. induction s as [| c s IH]; intros n; simpl; [done |].
  destruct n; [| apply IH].
  destruct (re_match r (c :: s)) as [[g [| m]] |];
    try apply push_ne; done.
Qed.

Lemma sub_from_skip r repl n s :
  sub_from r repl n s = sub r repl (drop n s).
Proof.
  revert n. induction s as [| c s IH]; intros n.
  - by destruct n.
  - destruct n; [done |]. simpl. apply IH.
Qed.

Lemma split_from_skip r n s :
  split_from r n s = split r (drop n s).
Proof.
  revert n. induction s as [| c s IH]; intros n.
  - by destruct n.
  - destruct n; [done |]. simpl. apply IH.
Qed.

Lemma sub_match r repl m rest g :
  m ≠ [] →
  re_match r (m ++ rest) = Some (g, length m) →
  sub r repl (m ++ rest) = repl g ++ sub r repl rest.
Proof.
  intros Hm H. destruct m as [| c m]; [done |].
  unfold sub at 1. simpl in *. rewrite H.
  by rewrite sub_from_skip, drop_app_length.
Qed.

Lemma split_match r m rest g :
  m ≠ [] →
  re_match r (m ++ rest) = Some (g, length m) →
  split r (m ++ rest) = [] :: g ++ split r rest.
Proof.
  intros Hm H. destruct m as [| c m]; [done |].
  unfold split at 1. simpl in *. rewrite H.
  by rewrite split_from_skip, drop_app_length.
Qed.

Lemma sub_no_match r repl pre rest :
  no_match_in r pre rest →
  sub r repl (pre ++ rest) = pre ++ sub r repl rest.
Proof.
  induction pre as [| c pre IH]; intros H; [done |].
  unfold sub at 1. simpl.
  pose proof (H [] (c :: pre) eq_refl) as H0. simpl in H0.
  rewrite H0 by done. f_equal. apply IH.
  intros a b -> Hb. by apply (H (c :: a) b).
Qed.

Lemma split_no_match r pre rest :
  no_match_in r pre rest →
  split r (pre ++ rest) = prepend pre (split r rest).
Proof.
  induction pre as [| c pre IH]; intros H; [done |].
  unfold split at 1. simpl.
  pose proof (H [] (c :: pre) eq_refl) as H0. simpl in H0.
  rewrite H0 by done. f_equal. apply IH.
  intros a b -> Hb. by apply (H (c :: a) b).
Qed.

Lemma search_match r s x : re_match r s = Some x → search r s = Some 0%nat.
Proof. intros H. destruct s; simpl; by rewrite H. Qed.

Lemma search_no_match r pre rest :
  no_match_in r pre rest →
  search r (pre ++ rest) = (λ n, length pre + n)%nat <$> search r rest.
Proof.
  induction pre as [| c pre IH]; intros H.
  - simpl. by destruct (search r rest).
  - simpl. pose proof (H [] (c :: pre) eq_refl) as H0. simpl in H0.
    rewrite H0 by done. rewrite IH.
    + by destruct (search r rest).
    + intros a b -> Hb. by apply (H (c :: a) b).
Qed.

Lemma search_nil_no_match r s :
  no_match_in r s [] → re_match r [] = None → search r s = None.
Proof.
  intros H H0. rewrite <- (app_nil_r s), search_no_match by done.
  simpl. by rewrite H0.
Qed.

Lemma prepend_cons pre t parts : prepend pre (t :: parts) = (pre ++ t) :: parts.
Proof. induction pre as [| c pre IH]; simpl; [done |]. by rewrite IH. Qed.

Lemma no_match_in_nil r rest : no_match_in r [] rest.
Proof. intros a b H Hb. by destruct a, b. Qed.

End ReFacts.

(** ** The markers of a lesson document *)

Module MarkerFacts.
Import Str Re StrFacts ReFacts Parser Doc.

Lemma all_space_ne w (c : ascii) :
  all_space w = true → isspace c = false → Forall (λ d, d ≠ c) w.
Proof.
  intros Hw Hc. apply Forall_forall. intros d Hd ->.
  unfold all_space in Hw. rewrite forallb_forall in Hw.
  rewrite (Hw c) in Hc; [done |]. by apply list_elem_of_In.
Qed.

Lemma search_none_keyword r kw t :
  (∀ s x, re_match r s = Some x → contains kw s = true) →
  contains kw t = false → search r t = None.
Proof.
  intros Hkw Ht. apply search_nil_no_match.
  - intros a b -> Hb. rewrite app_nil_r.
    apply contains_false_app in Ht as [_ Ht].
    destruct (re_match r b) eqn:E; [| done].
    apply Hkw in E. congruence.
  - destruct (re_match r []) eqn:E; [| done].
    apply Hkw in E. apply contains_false_app with (a := []) in Ht as [Ht _].
    congruence.
Qed.

(** *** The end marker *)

Lemma end_marker_sound s x :
  re_match END_MARKER s = Some x →
  ∃ w1 w2 rest, all_space w1 = true ∧ all_space w2 = true ∧
                s = end_marker w1 w2 ++ rest.
Proof.
  unfold re_match, END_MARKER. rewrite exec_seq. intros H.
  apply exec_lit_inv in H as (s1 & -> & H).
  rewrite exec_seq, exec_rep in H. cbn [rep_min] in H.
  apply rep_greedy_inv in H as (w1 & s2 & -> & Hw1 & H).
  rewrite exec_seq in H. apply exec_lit_inv in H as (s3 & -> & H).
  rewrite exec_seq, exec_rep in H. cbn [rep_min] in H.
  apply rep_greedy_inv in H as (w2 & s4 & -> & Hw2 & H).
  apply exec_lit_inv in H as (s5 & -> & H).
  exists w1, w2, s5. unfold end_marker. by rewrite <- !app_assoc.
Qed.

Lemma end_marker_keyword s x :
  re_match END_MARKER s = Some x → contains (lit "lesson:end") s = true.
Proof.
  intros (w1 & w2 & rest & _ & _ & ->)%end_marker_sound.
  apply contains_spec.
  exists (lit "<!--" ++ w1), (w2 ++ lit "-->" ++ rest).
  unfold end_marker. by rewrite <- !app_assoc.
Qed.

Lemma end_marker_complete w1 w2 rest :
  all_space w1 = true → all_space w2 = true →
  re_match END_MARKER (end_marker w1 w2 ++ rest)
  = Some ([], length (end_marker w1 w2)).
Proof.
  intros H1 H2. unfold re_match, END_MARKER, end_marker.
  rewrite <- !app_assoc.
  rewrite exec_seq, exec_lit, exec_seq, exec_rep. cbn [rep_min].
  apply rep_greedy_max; [done | done |].
  rewrite exec_seq, exec_lit, exec_seq, exec_rep. cbn [rep_min].
  apply rep_greedy_max; [done | done |].
  rewrite exec_lit.
  do 2 f_equal. rewrite !length_app. simpl. lia.
Qed.

Lemma search_none_inv r a b :
  search r (a ++ b) = None → re_match r b = None.
Proof.
  induction a as [| c a IH]; simpl.
  - destruct b; simpl; by destruct (re_match r _).
  - destruct (re_match r (c :: a ++ b)); [done |].
    destruct (search r (a ++ b)); [done |]. intros _. by apply IH.
Qed.

(** No end marker begins inside a text free of end markers and runs
    into an end marker that follows it. *)
Lemma no_end_before pre w1 w2 tail :
  search END_MARKER pre = None →
  no_match_in END_MARKER pre (end_marker w1 w2 ++ tail).
Proof.
  intros Hpre a b -> Hb.
  destruct (re_match _ _) eqn:E; [| done]. exfalso.
  apply end_marker_sound in E as (w & w' & rest & Hw & Hw' & E).
  change (end_marker w1 w2 ++ tail)
    with ("<"%char :: (lit "!--" ++ w1 ++ lit "lesson:end" ++ w2
                         ++ lit "-->") ++ tail) in E.
  change (end_marker w w' ++ rest)
    with ("<"%char :: (lit "!--" ++ w ++ lit "lesson:end" ++ w'
                         ++ lit "-->") ++ rest) in E.
  apply overlap_inside in E as [z Hz]; [| done |].
  - apply search_none_inv in Hpre.
    change (b = end_marker w w' ++ z) in Hz.
    rewrite Hz, end_marker_complete in Hpre; done.
  - rewrite !Forall_app. split_and!.
    + by repeat constructor.
    + by apply all_space_ne.
    + by repeat constructor.
    + by apply all_space_ne.
    + by repeat constructor.
Qed.

Lemma search_end_marker pre w1 w2 tail :
  all_space w1 = true → all_space w2 = true →
  search END_MARKER pre = None →
  search END_MARKER (pre ++ end_marker w1 w2 ++ tail) = Some (length pre).
Proof.
  intros H1 H2 Hpre. rewrite search_no_match by by apply no_end_before.
  erewrite search_match by by apply end_marker_complete.
  simpl. f_equal. lia.
Qed.

(** *** The page marker *)

Lemma take_app_diff (t s : text) :
  take (length (t ++ s) - length s) (t ++ s) = t.
Proof.
  rewrite length_app. replace (length t + length s - length s)%nat
    with (length t) by lia. apply take_app_length.
Qed.

(** A run of whitespace at the start of a text stops before the first
    character that is not whitespace. *)
Lemma space_prefix_stops (sp a s s' : text) (d : ascii) :
  all_space sp = true → isspace d = false →
  a ++ d :: s = sp ++ s' →
  ∃ y, a = sp ++ y ∧ s' = y ++ d :: s.
Proof.
  revert a. induction sp as [| c sp IH]; intros a Hsp Hd H; simpl in *.
  - by exists a.
  - apply andb_true_iff in Hsp as [Hc Hsp].
    destruct a as [| a0 a]; simpl in H.
    + injection H as -> _. congruence.
    + injection H as -> H. destruct (IH a Hsp Hd H) as (y & -> & ->).
      by exists y.
Qed.

(** After a text that has no comment closer, the closer that follows is
    the first one. *)
Lemma closer_is_first (x rest r' : text) :
  x ≠ [] → contains (lit "-->") x = false →
  x ++ lit "-->" ++ rest ≠ lit "-->" ++ r'.
Proof.
  intros Hx Hc H. rewrite contains_false in Hc.
  destruct x as [| x1 [| x2 [| x3 x]]]; simpl in H; simplify_eq.
  by apply (Hc [] x).
Qed.

Lemma page_marker_sound s x :
  re_match PAGE_MARKER s = Some x →
  ∃ w0 s', all_space w0 = true ∧
           s = lit "<!--" ++ w0 ++ lit "lesson:page" ++ s'.
Proof.
  unfold re_match, PAGE_MARKER. rewrite exec_seq. intros H.
  apply exec_lit_inv in H as (s1 & -> & H).
  rewrite exec_seq, exec_rep in H. cbn [rep_min] in H.
  apply rep_greedy_inv in H as (w0 & s2 & -> & Hw0 & H).
  rewrite exec_seq in H. apply exec_lit_inv in H as (s3 & -> & H).
  by exists w0, s3.
Qed.

(** The match at a page marker, with the free text split into leading
    whitespace [w], core [t] and trailing whitespace [w2]. *)
Lemma page_marker_core w0 w t w2 rest :
  all_space w0 = true → all_space w = true → w ≠ [] →
  all_space w2 = true →
  forallb dot t = true →
  match t with [] => w2 = [] | c :: _ => isspace c = false end →
  match last t with None => True | Some c => isspace c = false end →
  contains (lit "-->") (t ++ w2) = false →
  re_match PAGE_MARKER (page_marker w0 (w ++ t ++ w2) ++ rest)
  = Some ([t], length (page_marker w0 (w ++ t ++ w2))).
Proof.
  intros Hw0 Hw Hne Hw2 Hdot Hhead Hlast Hc.
  unfold re_match, PAGE_MARKER, page_marker. rewrite <- !app_assoc.
  rewrite exec_seq, exec_lit, exec_seq, exec_rep. cbn [rep_min].
  apply rep_greedy_max; [done | done |].
  rewrite exec_seq, exec_lit, exec_seq, exec_rep.
  destruct w as [| c w]; [done |]. simpl in Hw.
  apply andb_true_iff in Hw as [Hc0 Hw].
  change ((c :: w) ++ t ++ w2 ++ lit "-->" ++ rest)
    with ([c] ++ w ++ t ++ w2 ++ lit "-->" ++ rest).
  rewrite rep_min_app; [| done | by simpl; rewrite andb_true_r].
  apply rep_greedy_max; [done | |].
  { destruct t as [| d t]; [by subst w2 | done]. }
  rewrite exec_seq, exec_grp, exec_rep. cbn [rep_min].
  rewrite rep_lazy_skip; [| done |].
  - apply rep_lazy_here.
    rewrite exec_seq, exec_rep. cbn [rep_min].
    apply rep_greedy_max; [done | done |].
    rewrite exec_lit. rewrite take_app_diff. f_equal. f_equal.
    rewrite !length_app. simpl. lia.
  - intros a1 a2 -> Ha2.
    rewrite exec_seq, exec_rep. cbn [rep_min].
    match goal with |- ?g = None => destruct g eqn:E; [| done] end.
    exfalso. apply rep_greedy_inv in E as (sp & s' & Hs & Hsp & E).
    apply exec_lit_inv in E as (r' & -> & _).
    destruct (exists_last (l := a2)) as (y & d & ->); [done |].
    rewrite last_app in Hlast. rewrite last_snoc in Hlast.
    rewrite <- !app_assoc in Hs. simpl in Hs.
    apply space_prefix_stops in Hs as (z & -> & Hz); [| done | done].
    rewrite <- !app_assoc in Hc.
    apply contains_false_app in Hc as [_ Hc].
    apply contains_false_app in Hc as [_ Hc].
    apply (closer_is_first (z ++ [d] ++ w2) rest r');
      [by destruct z | done |].
    rewrite <- !app_assoc. by simpl.
Qed.


Lemma page_marker_ne w0 raw : page_marker w0 raw ≠ [].
Proof. done. Qed.

Lemma page_marker_complete w0 raw rest :
  Lesson.wf_marker w0 raw = true →
  re_match PAGE_MARKER (page_marker w0 raw ++ rest)
  = Some ([strip raw], length (page_marker w0 raw)).
Proof.
  unfold Lesson.wf_marker. rewrite !andb_true_iff, negb_true_iff.
  intros [[[Hw0 Hhead] Hclose] Hdot].
  destruct (strip_spec raw) as (w1 & w2 & Hraw & Hw1 & Hw2 & Hh & Hl).
  destruct (strip raw) as [| c t] eqn:Hs.
  - simpl in Hraw.
    assert (Hsp : all_space raw = true)
      by (by rewrite Hraw, all_space_app, Hw1, Hw2).
    rewrite <- (app_nil_r raw) at 1 2.
    change (raw ++ []) with (raw ++ [] ++ []).
    apply page_marker_core; try done. by destruct raw.
  - assert (w1 ≠ []) as Hne.
    { intros ->. rewrite Hraw in Hhead. simpl in Hhead. congruence. }
    rewrite Hraw at 1 2. apply page_marker_core; try done.
    rewrite Hraw in Hclose. by apply contains_false_app in Hclose as [_ ?].
Qed.

(** No page marker begins inside a text that does not mention the page
    keyword, whether the text ends the document or a marker follows. *)
Lemma no_page_in body rest :
  contains (lit "lesson:page") body = false →
  match rest with [] => True | c :: _ => c = "<"%char end →
  no_match_in PAGE_MARKER body rest.
Proof.
  intros Hbody Hrest a b -> Hb.
  apply contains_false_app in Hbody as [_ Hbody].
  destruct (re_match _ _) eqn:E; [| done]. exfalso.
  apply page_marker_sound in E as (w0 & s' & Hw0 & E).
  replace (lit "<!--" ++ w0 ++ lit "lesson:page" ++ s')
    with ("<"%char :: (lit "!--" ++ w0 ++ lit "lesson:page") ++ s') in E
    by (by rewrite <- !app_assoc).
  assert (∃ z, b = "<"%char :: (lit "!--" ++ w0 ++ lit "lesson:page") ++ z)
    as [z Hz].
  { destruct rest as [| c rest].
    - by apply overlap_inside_end in E.
    - subst c. apply overlap_inside in E; [done | done |].
      rewrite !Forall_app. split_and!.
      + by repeat constructor.
      + by apply all_space_ne.
      + by repeat constructor. }
  assert (contains (lit "lesson:page") b = true) as Hc; [| congruence].
  apply contains_spec. exists (lit "<!--" ++ w0), z.
  rewrite Hz. by rewrite <- !app_assoc.
Qed.

Lemma flat_map_render_head items :
  match flat_map Lesson.render_item items with
  | [] => True
  | c :: _ => c = "<"%char
  end.
Proof. by destruct items. Qed.

Lemma split_items items :
  forallb Lesson.wf_item items = true →
  split PAGE_MARKER (flat_map Lesson.render_item items)
  = [] :: Lesson.parts_of items.
Proof.
  induction items as [| it items IH]; [done |].
  cbn [forallb flat_map]. intros [Hit Hitems]%andb_true_iff.
  apply andb_true_iff in Hit as [Hm Hb]. apply negb_true_iff in Hb.
  unfold Lesson.render_item at 1. rewrite <- !app_assoc.
  rewrite (split_match _ _ _ [strip (Lesson.item_raw it)]);
    [| done | by apply page_marker_complete].
  cbn [app Lesson.parts_of flat_map]. do 2 f_equal.
  rewrite split_no_match
    by (apply no_page_in; [done | apply flat_map_render_head]).
  rewrite IH by done. by rewrite prepend_cons, app_nil_r.
Qed.

Lemma split_document pre items :
  contains (lit "lesson:page") pre = false →
  forallb Lesson.wf_item items = true →
  split PAGE_MARKER (Lesson.document pre items)
  = pre :: Lesson.parts_of items.
Proof.
  intros Hpre Hitems. unfold Lesson.document.
  rewrite split_no_match
    by (apply no_page_in; [done | apply flat_map_render_head]).
  rewrite split_items by done. by rewrite prepend_cons, app_nil_r.
Qed.

End MarkerFacts.

Module ParserFacts.
Import Str Re StrFacts ReFacts Parser Doc MarkerFacts Lesson.

Lemma range_odd n :
  range 1 (1 + 2 * n) 2 = map (λ j, 1 + 2 * j)%nat (seq 0 n).
Proof.
  unfold range. f_equal. f_equal.
  replace (1 + 2 * n - 1 + 2 - 1)%nat with (1 + n * 2)%nat by lia.
  by rewrite Nat.div_add by lia.
Qed.

Lemma length_parts_of items :
  length (parts_of items) = (2 * length items)%nat.
Proof. induction items as [| it items IH]; simpl; lia. Qed.

Lemma nth_parts_of items k it :
  items !! k = Some it →
  nth (2 * k) (parts_of items) [] = strip (item_raw it) ∧
  nth (2 * k + 1) (parts_of items) [] = item_body it.
Proof.
  revert k. induction items as [| it' items IH]; intros k; [done |].
  destruct k as [| k]; simpl.
  - by intros [= ->].
  - intros H. replace (k + S (k + 0))%nat with (S (2 * k)) by lia.
    replace (k + S (k + 0) + 1)%nat with (S (2 * k + 1)) by lia.
    by apply IH.
Qed.

(** *** Blank lines and blank pages *)

Lemma all_space_take_drop n s :
  all_space s = all_space (take n s) && all_space (drop n s).
Proof. by rewrite <- all_space_app, take_drop. Qed.

(** A substitution whose matches and replacements are whitespace maps
    whitespace to whitespace, and yields whitespace only from it. *)
Lemma sub_from_all_space r repl :
  (∀ g, all_space (repl g) = true) →
  ∀ s n, all_space s = true → all_space (sub_from r repl n s) = true.
Proof.
  intros Hrepl. induction s as [| c s IH]; intros n; [done |].
  simpl. intros [Hc Hs]%andb_true_iff. destruct n as [| n]; [| by apply IH].
  destruct (re_match r (c :: s)) as [[g [| m]] |]; simpl;
    rewrite ?all_space_app, ?Hrepl, ?Hc; by apply IH.
Qed.

Lemma sub_all_space_inv r repl :
  (∀ s g n, re_match r s = Some (g, n) → all_space (take n s) = true) →
  ∀ s, all_space (sub r repl s) = true → all_space s = true.
Proof.
  intros Hm s. remember (length s) as len eqn:Hlen.
  revert s Hlen. induction len as [len IH] using lt_wf_ind.
  intros [| c s] Hlen; [done |]. unfold sub. cbn [sub_from].
  assert (Hstep : all_space (c :: sub_from r repl 0 s) = true →
                  all_space (c :: s) = true).
  { simpl. intros [Hc Hs]%andb_true_iff. rewrite Hc. simpl.
    apply (IH (length s)); [simpl in Hlen; lia | done | done]. }
  destruct (re_match r (c :: s)) as [[g [| m]] |] eqn:E; try done.
  rewrite all_space_app, sub_from_skip. intros [_ Hs]%andb_true_iff.
  apply Hm in E. rewrite (all_space_take_drop (S m)), E.
  cbn [drop andb].
  apply (IH (length (drop m s))); [| done | done].
  rewrite length_drop. simpl in Hlen. lia.
Qed.

Lemma sub_nonspace_repl r repl :
  (∀ g, all_space (repl g) = false) →
  ∀ s, all_space (sub r repl s) = true → all_space s = true.
Proof.
  intros Hrepl. induction s as [| c s IH]; [done |]. unfold sub. simpl.
  destruct (re_match r (c :: s)) as [[g [| m]] |] eqn:E.
  - simpl. intros [-> Hs]%andb_true_iff. by apply IH.
  - rewrite all_space_app, Hrepl. done.
  - simpl. intros [-> Hs]%andb_true_iff. by apply IH.
Qed.

Lemma sub_id r repl s :
  no_match_in r s [] → sub r repl s = s.
Proof.
  intros H. rewrite <- (app_nil_r s) at 1.
  rewrite sub_no_match by done. by rewrite app_nil_r.
Qed.

Lemma newline_space c : newline c = true → isspace c = true.
Proof. unfold newline. by intros ->%Ascii.eqb_eq. Qed.

Lemma all_newline_space a : forallb newline a = true → all_space a = true.
Proof.
  induction a as [| c a IH]; simpl; [done |].
  intros [Hc Ha]%andb_true_iff. by rewrite newline_space, IH.
Qed.

Lemma blank_lines_sound s g n :
  re_match BLANK_LINES s = Some (g, n) →
  ∃ a s', s = a ++ s' ∧ forallb newline a = true ∧ n = length a ∧
          (3 <= n)%nat ∧ g = [].
Proof.
  unfold re_match, BLANK_LINES. rewrite exec_rep. intros H.
  apply rep_min_inv in H as (a & s1 & -> & Ha & Hna & H).
  apply rep_greedy_inv in H as (b & s2 & -> & Hnb & H).
  injection H as <- <-. exists (a ++ b), s2.
  rewrite <- app_assoc, forallb_app, Hna, Hnb, !length_app.
  split_and!; try done; lia.
Qed.

Lemma blank_lines_space s g n :
  re_match BLANK_LINES s = Some (g, n) → all_space (take n s) = true.
Proof.
  intros (a & s' & -> & Ha & -> & _)%blank_lines_sound.
  rewrite take_app_length. by apply all_newline_space.
Qed.

(** The match of [\n{3,}] at the start of a run of line breaks. *)
Lemma blank_lines_run nls z :
  forallb newline nls = true →
  match z with [] => True | c :: _ => newline c = false end →
  re_match BLANK_LINES (nls ++ z)
  = if (3 <=? length nls)%nat then Some ([], length nls) else None.
Proof.
  intros Hn Hz. unfold re_match, BLANK_LINES. rewrite exec_rep.
  destruct nls as [| n1 [| n2 [| n3 nls]]]; simpl in Hn.
  - destruct z as [| c z]; simpl; [done |]. by rewrite Hz.
  - apply andb_true_iff in Hn as [H1 _]. simpl. rewrite H1.
    destruct z as [| c z]; simpl; [done |]. by rewrite Hz.
  - apply andb_true_iff in Hn as [H1 [H2 _]%andb_true_iff].
    simpl. rewrite H1, H2.
    destruct z as [| c z]; simpl; [done |]. by rewrite Hz.
  - apply andb_true_iff in Hn as [H1 [H2 [H3 Hn]%andb_true_iff]%andb_true_iff].
    change ((n1 :: n2 :: n3 :: nls) ++ z) with ([n1; n2; n3] ++ nls ++ z).
    rewrite rep_min_app; [| done | by simpl; rewrite H1, H2, H3].
    cbn [length Nat.leb].
    apply rep_greedy_max; [done | done |].
    do 2 f_equal. simpl. rewrite length_app. lia.
Qed.

(** A text whose last character is not a line break is a run of line
    breaks followed by another character. *)
Lemma newline_prefix a :
  a ≠ [] →
  match last a with Some c => newline c = false | None => True end →
  ∃ nls d y, a = nls ++ d :: y ∧ forallb newline nls = true ∧
             newline d = false.
Proof.
  induction a as [| c a IH]; [done |]. intros _ Hl.
  destruct (newline c) eqn:Hc.
  - destruct a as [| c' a]; [simpl in Hl; congruence |].
    destruct IH as (nls & d & y & Ha & Hn & Hd); [done | done |].
    exists (c :: nls), d, y. simpl. by rewrite Ha, Hc, Hn.
  - by exists [], c, a.
Qed.

(** Collapsing blank lines works on each side of a boundary that no run
    of line breaks crosses. *)
Lemma sub_blank_app f a rest :
  match last a with Some c => newline c = false | None => True end →
  sub BLANK_LINES f (a ++ rest)
  = sub BLANK_LINES f a ++ sub BLANK_LINES f rest.
Proof.
  remember (length a) as len eqn:Hlen. revert a Hlen.
  induction len as [len IH] using lt_wf_ind. intros a Hlen Hl.
  destruct a as [| c a]; [done |].
  destruct (newline_prefix (c :: a)) as (nls & d & y & Ha & Hn & Hd);
    [done | done |].
  assert (Hly : match last (d :: y) with
                | Some c => newline c = false
                | None => True
                end).
  { rewrite Ha, last_app in Hl.
    destruct (last (d :: y)) eqn:E; [done |]. by apply last_None in E. }
  destruct (decide (3 <= length nls)%nat) as [H3 | H3].
  - rewrite Ha, <- app_assoc.
    assert (nls ≠ []) as Hne by (intros ->; simpl in H3; lia).
    apply Nat.leb_le in H3 as H3'.
    rewrite (sub_match _ _ nls _ []);
      [| done | by rewrite blank_lines_run, H3'].
    rewrite (sub_match _ _ nls _ []);
      [| done | by rewrite blank_lines_run, H3'].
    rewrite <- app_assoc. f_equal.
    apply (IH (length (d :: y))); [| done | done].
    rewrite Hlen, Ha, length_app. destruct nls; simpl in *; lia.
  - unfold sub at 1 2. cbn [app sub_from].
    replace (c :: a ++ rest) with (nls ++ (d :: y) ++ rest)
      by (by rewrite app_assoc, <- Ha).
    rewrite Ha at 1. rewrite !blank_lines_run by done.
    replace (3 <=? length nls)%nat with false
      by (symmetry; apply Nat.leb_gt; lia).
    cbn [app]. f_equal. apply (IH (length a)).
    + simpl in Hlen. lia.
    + done.
    + destruct a; [done |]. by simpl in Hl.
Qed.

(** A run of three or more line breaks becomes one blank line. *)
Lemma collapse_run f a k b :
  (3 <= k)%nat →
  match last a with Some c => newline c = false | None => True end →
  match b with [] => True | c :: _ => newline c = false end →
  sub BLANK_LINES f (a ++ repeat nl k ++ b)
  = sub BLANK_LINES f a ++ f [] ++ sub BLANK_LINES f b.
Proof.
  intros Hk Ha Hb. rewrite sub_blank_app by done. f_equal.
  apply sub_match; [by destruct k; [lia |] |].
  rewrite blank_lines_run, repeat_length; [| | done].
  - by apply Nat.leb_le in Hk as ->.
  - clear. by induction k.
Qed.


Lemma image_line_prefix s x :
  re_match IMAGE_LINE s = Some x → startswith (lit "![") s = true.
Proof. apply re_match_lit_prefix. Qed.

Lemma image_line_no_match_space s :
  all_space s = true → no_match_in IMAGE_LINE s [].
Proof.
  intros Hs a b -> Hb. rewrite app_nil_r.
  rewrite all_space_app in Hs. apply andb_true_iff in Hs as [_ Hs].
  destruct (re_match _ _) eqn:E; [| done].
  apply image_line_prefix in E. apply startswith_spec in E as [r' ->].
  done.
Qed.

(** *** Image references *)

Lemma image_line_complete alt path rest :
  forallb dot alt = true → contains (lit "](") alt = false →
  forallb dot path = true → contains (lit ")") path = false →
  re_match IMAGE_LINE (image_ref alt path ++ rest)
  = Some ([alt; path], length (image_ref alt path)).
Proof.
  intros Hda Ha Hdp Hp. unfold re_match, IMAGE_LINE, image_ref.
  rewrite <- !app_assoc.
  rewrite exec_seq, exec_lit, exec_seq, exec_grp, exec_rep. cbn [rep_min].
  rewrite rep_lazy_skip; [| done |].
  - apply rep_lazy_here.
    rewrite exec_seq, exec_lit, exec_seq, exec_grp, exec_rep.
    cbn [rep_min]. rewrite rep_lazy_skip; [| done |].
    + apply rep_lazy_here. rewrite exec_lit, !take_app_diff.
      f_equal. f_equal. rewrite !length_app. simpl. lia.
    + intros a1 a2 -> Ha2. apply exec_lit_fail.
      apply contains_false_app in Hp as [_ Hp].
      destruct a2 as [| x a2]; [done |].
      destruct (startswith _ _) eqn:E; [| done].
      apply startswith_spec in E as [r' E]. injection E as -> _.
      rewrite contains_false in Hp. by destruct (Hp [] a2).
  - intros a1 a2 -> Ha2. rewrite exec_seq. apply exec_lit_fail.
    apply contains_false_app in Ha as [_ Ha].
    destruct (startswith _ _) eqn:E; [| done].
    apply startswith_spec in E as [r' E].
    rewrite contains_false in Ha.
    destruct a2 as [| x1 [| x2 a2]]; simpl in E; simplify_eq.
    by destruct (Ha [] a2).
Qed.

(** No image reference begins inside a text without the opener [![],
    whether the text ends there or an image reference follows. *)
Lemma no_image_in pre rest :
  contains (lit "![") pre = false →
  match rest with [] => True | c :: _ => c = "!"%char end →
  no_match_in IMAGE_LINE pre rest.
Proof.
  intros Hpre Hrest a b -> Hb.
  apply contains_false_app in Hpre as [_ Hpre].
  destruct (re_match _ _) eqn:E; [| done]. exfalso.
  apply image_line_prefix, startswith_spec in E as [s' E].
  change (lit "![" ++ s') with ("!"%char :: ["["%char] ++ s') in E.
  assert (∃ z, b = "!"%char :: ["["%char] ++ z) as [z Hz].
  { destruct rest as [| c rest].
    - by apply overlap_inside_end in E.
    - subst c. apply overlap_inside in E; [done | done |].
      by repeat constructor. }
  rewrite contains_false in Hpre. by destruct (Hpre [] z).
Qed.


Section WithOsPath.

Variable os_path_join : text → text → text.
Variable os_path_normpath : text → text.

Abbreviation page_step := (page_step os_path_join os_path_normpath).
Abbreviation pages_of_item := (pages_of_item os_path_join os_path_normpath).
Abbreviation parse_readme := (parse_readme os_path_join os_path_normpath).

Abbreviation page_content := (page_content os_path_join os_path_normpath).

(** The content of a page is empty exactly when its body is blank. *)
Lemma page_content_nil_iff readme_dir body :
  page_content readme_dir body = [] ↔ all_space body = true.
Proof.
  unfold Lesson.page_content. rewrite strip_nil_iff. split.
  - intros H. apply sub_all_space_inv in H; [| apply blank_lines_space].
    apply sub_nonspace_repl in H; done.
  - intros H. rewrite (sub_id IMAGE_LINE)
      by by apply image_line_no_match_space.
    by apply sub_from_all_space.
Qed.

Lemma pages_of_item_blank readme_dir it :
  all_space (item_body it) = true → pages_of_item readme_dir it = [].
Proof.
  intros H%(page_content_nil_iff readme_dir).
  unfold Lesson.pages_of_item. fold (page_content readme_dir (item_body it)).
  by rewrite H.
Qed.

Lemma pages_of_item_nonblank readme_dir it :
  all_space (item_body it) = false →
  pages_of_item readme_dir it
  = [Page (strip (item_raw it)) (page_content readme_dir (item_body it))].
Proof.
  intros H. unfold Lesson.pages_of_item.
  fold (page_content readme_dir (item_body it)).
  destruct (page_content readme_dir (item_body it)) eqn:E; [| done].
  apply page_content_nil_iff in E. congruence.
Qed.


Lemma page_step_item readme_dir pre items acc k it :
  items !! k = Some it →
  page_step readme_dir (pre :: parts_of items) acc (1 + 2 * k)
  = acc ++ pages_of_item readme_dir it.
Proof.
  intros Hk. destruct (nth_parts_of _ _ _ Hk) as [Ht Hb].
  apply lookup_lt_Some in Hk as Hlt.
  unfold Parser.page_step, Lesson.pages_of_item, page_content.
  cbn [nth Nat.add length]. rewrite Ht, strip_idem.
  replace (S (2 * k) + 1)%nat with (S (2 * k + 1)) by lia.
  replace (S (2 * k + 1) <? S (length (parts_of items)))%nat with true
    by (symmetry; apply Nat.ltb_lt; rewrite length_parts_of; lia).
  cbn [nth]. rewrite Hb.
  destruct (strip (sub _ _ _)); [by rewrite app_nil_r | done].
Qed.

Lemma foldl_pages readme_dir pre items m : ∀ k acc,
  (k + m)%nat = length items →
  foldl (page_step readme_dir (pre :: parts_of items)) acc
        (map (λ j, 1 + 2 * j)%nat (seq k m))
  = acc ++ flat_map (pages_of_item readme_dir) (drop k items).
Proof.
  induction m as [| m IH]; intros k acc Hk.
  - rewrite drop_ge by lia. simpl. by rewrite app_nil_r.
  - destruct (lookup_lt_is_Some_2 items k) as [it Hit]; [lia |].
    cbn [seq map foldl]. rewrite (page_step_item _ _ _ _ _ it) by done.
    rewrite IH by lia. rewrite (drop_S _ it k) by done.
    by rewrite <- app_assoc.
Qed.

(** A document made of front matter and well-formed pages, with no end
    marker, parses page by page. *)
Lemma parse_document readme_dir pre items :
  search END_MARKER (document pre items) = None →
  contains (lit "lesson:page") pre = false →
  forallb wf_item items = true →
  parse_readme readme_dir (Some (document pre items))
  = flat_map (pages_of_item readme_dir) items.
Proof.
  intros Hend Hpre Hitems. unfold Parser.parse_readme.
  rewrite Hend, split_document by done.
  cbn [length]. rewrite length_parts_of.
  destruct items as [| it items]; [done |].
  replace (S (2 * length (it :: items)) <? 3)%nat with false
    by (symmetry; apply Nat.ltb_ge; simpl; lia).
  change (S (2 * length (it :: items)))
    with (1 + 2 * length (it :: items))%nat.
  rewrite range_odd. by rewrite foldl_pages.
Qed.

End WithOsPath.

End ParserFacts.


(** ** The parser *)

Module ParserClaims.
Import Str Re StrFacts ReFacts Parser Doc MarkerFacts Lesson ParserFacts.

(** C3.  A document made of front matter [pre] and [N] well-formed page
    markers, each followed by a body that is not blank, and holding no
    end marker, parses to exactly [N] pages in the order of the markers;
    the title of each page is the free text of its marker trimmed, and
    the front matter is in no page. *)
Theorem pages_in_source_order
    (os_path_join : text → text → text) (os_path_normpath : text → text)
    (readme_dir pre : text) (items : list item) :
  search END_MARKER (document pre items) = None →
  contains (lit "lesson:page") pre = false →
  forallb wf_item items = true →
  forallb (λ it, negb (all_space (item_body it))) items = true →
  parse_readme os_path_join os_path_normpath readme_dir
    (Some (document pre items))
  = map (λ it, Page (strip (item_raw it))
                 (page_content os_path_join os_path_normpath readme_dir
                    (item_body it)))
        items
  ∧ length (parse_readme os_path_join os_path_normpath readme_dir
              (Some (document pre items))) = length items.
Proof.
  intros Hend Hpre Hwf Hbody.
  assert (parse_readme os_path_join os_path_normpath readme_dir
            (Some (document pre items))
          = map (λ it, Page (strip (item_raw it))
                         (page_content os_path_join os_path_normpath
                            readme_dir (item_body it))) items) as ->.
  { rewrite parse_document by done. clear Hend Hwf.
    induction items as [| it items IH]; [done |].
    cbn [forallb] in Hbody. apply andb_true_iff in Hbody as [Hit Hbody].
    apply negb_true_iff in Hit. cbn [flat_map map].
    rewrite pages_of_item_nonblank by done. by rewrite IH. }
  by rewrite length_map.
Qed.

Lemma pages_in_source_order_witness :
  let items := [Item (lit " ") (lit "  Intro ") (lit " Hello ");
                Item [] (lit " Next steps") (lit "More")] in
  length (parse_readme Posix.join Posix.normpath (lit "/course")
            (Some (document (lit "# Notes ") items))) = 2%nat.
Proof.
  intros items.
  refine (proj2 (pages_in_source_order Posix.join Posix.normpath
                   (lit "/course") (lit "# Notes ") items _ _ _ _)).
  - reflexivity.
  - reflexivity.
  - reflexivity.
  - reflexivity.
Defined.

(** C6.  In a document of front matter and well-formed pages with no end
    marker, every page body is normalised by [page_content] (image
    references replaced, blank lines collapsed, the result trimmed) and
    gives a page exactly when it is not blank, so the number of pages is
    the number of bodies that are not blank; the content of every page
    returned is nonempty and has no leading or trailing whitespace; and
    collapsing turns a run of three or more line breaks (two or more
    blank lines) into exactly one blank line. *)
Theorem pages_normalised
    (os_path_join : text → text → text) (os_path_normpath : text → text)
    (readme_dir pre : text) (items : list item) :
  search END_MARKER (document pre items) = None →
  contains (lit "lesson:page") pre = false →
  forallb wf_item items = true →
  let parse := parse_readme os_path_join os_path_normpath readme_dir in
  let content_of := page_content os_path_join os_path_normpath readme_dir in
  parse (Some (document pre items))
  = flat_map (λ it, match content_of (item_body it) with
                    | [] => []
                    | c => [Page (strip (item_raw it)) c]
                    end) items
  ∧ (∀ body, content_of body = [] ↔ all_space body = true)
  ∧ length (parse (Some (document pre items)))
    = length (filter (λ it, all_space (item_body it) = false) items)
  ∧ (∀ p, p ∈ parse (Some (document pre items)) →
          content p ≠ [] ∧ strip (content p) = content p)
  ∧ (∀ a k b,
       (3 <= k)%nat →
       match last a with Some c => newline c = false | None => True end →
       match b with [] => True | c :: _ => newline c = false end →
       sub BLANK_LINES (λ _, [nl; nl]) (a ++ repeat nl k ++ b)
       = sub BLANK_LINES (λ _, [nl; nl]) a ++ [nl; nl]
         ++ sub BLANK_LINES (λ _, [nl; nl]) b).
Proof.
  intros Hend Hpre Hwf parse content_of.
  assert (Hparse : parse (Some (document pre items))
                   = flat_map (pages_of_item os_path_join os_path_normpath
                                 readme_dir) items)
    by by apply parse_document.
  split_and!.
  - by rewrite Hparse.
  - apply page_content_nil_iff.
  - rewrite Hparse. clear. induction items as [| it items IH]; [done |].
    cbn [flat_map]. rewrite length_app, IH, filter_cons.
    destruct (all_space (item_body it)) eqn:E.
    + rewrite pages_of_item_blank by done. by rewrite decide_False.
    + rewrite pages_of_item_nonblank by done. by rewrite decide_True.
  - intros p. rewrite Hparse, list_elem_of_In, in_flat_map.
    intros (it & _ & Hp). unfold pages_of_item in Hp.
    fold (content_of (item_body it)) in Hp.
    destruct (content_of (item_body it)) eqn:E; [done |].
    destruct Hp as [<- | []]. cbn [content]. split; [done |].
    rewrite <- E. apply strip_idem.
  - intros a k b Hk Ha Hb. by apply collapse_run.
Qed.

Lemma pages_normalised_witness :
  let items := [Item (lit " ") (lit " One ") (lit "  ");
                Item (lit " ") (lit " Two ") (lit " text ")] in
  length (parse_readme Posix.join Posix.normpath (lit "/course")
            (Some (document (lit "front ") items)))
  = length (filter (λ it, all_space (item_body it) = false) items).
Proof.
  intros items.
  refine (proj1 (proj2 (proj2
            (pages_normalised Posix.join Posix.normpath
               (lit "/course") (lit "front ") items _ _ _)))).
  - reflexivity.
  - reflexivity.
  - reflexivity.
Defined.


(** C7.  When an end marker follows a text [pre] that contains no end
    marker, the document parses as [pre] alone does: whatever stands at
    and after the marker, further page markers and image references
    included, reaches no page. *)
Theorem end_marker_cuts
    (os_path_join : text → text → text) (os_path_normpath : text → text)
    (readme_dir pre w1 w2 tail : text) :
  all_space w1 = true → all_space w2 = true →
  search END_MARKER pre = None →
  parse_readme os_path_join os_path_normpath readme_dir
    (Some (pre ++ end_marker w1 w2 ++ tail))
  = parse_readme os_path_join os_path_normpath readme_dir (Some pre).
Proof.
  intros H1 H2 Hpre. unfold parse_readme.
  rewrite search_end_marker, Hpre by done.
  by rewrite take_app_length.
Qed.

Lemma end_marker_cuts_witness :
  parse_readme Posix.join Posix.normpath (lit "/course")
    (Some (lit "<!-- lesson:page A -->Hello " ++ end_marker (lit " ") []
           ++ lit " junk <!-- lesson:page B -->more"))
  = parse_readme Posix.join Posix.normpath (lit "/course")
      (Some (lit "<!-- lesson:page A -->Hello ")).
Proof.
  refine (end_marker_cuts Posix.join Posix.normpath (lit "/course")
            (lit "<!-- lesson:page A -->Hello ") (lit " ") []
            (lit " junk <!-- lesson:page B -->more") _ _ _).
  - reflexivity.
  - reflexivity.
  - reflexivity.
Defined.

(** On a POSIX system the join of an absolute directory with any path,
    normalised, is absolute. *)
Lemma posix_resolved_absolute (readme_dir rel_path : text) :
  startswith [Posix.sep] readme_dir = true →
  startswith [Posix.sep] (Posix.normpath (Posix.join readme_dir rel_path))
  = true.
Proof.
  intros Hd.
  assert (∃ x, Posix.join readme_dir rel_path = Posix.sep :: x) as [x ->].
  { unfold Posix.join. destruct (startswith [Posix.sep] rel_path) eqn:Hp.
    - apply startswith_spec in Hp as [r ->]. by exists r.
    - apply startswith_spec in Hd as [r ->].
      destruct (_ || _); by eexists. }
  unfold Posix.normpath.
  destruct (startswith [Posix.sep] (Posix.sep :: x)) eqn:E; [| done].
  by destruct (_ && _).
Qed.

End ParserClaims.

(** ** Page segmentation *)

Module SegmentFacts.
Import Str Re StrFacts ReFacts MarkerFacts Parser Ui Content.

Lemma img_marker_prefix s x :
  re_match _IMG_MARKER s = Some x →
  startswith (IMG_DELIM ++ lit "IMG[") s = true.
Proof.
  unfold re_match, _IMG_MARKER. rewrite exec_seq. intros H.
  apply exec_lit_inv in H as (s1 & -> & H).
  rewrite exec_seq in H. apply exec_lit_inv in H as (s2 & -> & H).
  rewrite app_assoc. apply startswith_app.
Qed.

Lemma img_marker_complete alt path rest :
  forallb dot alt = true → contains (lit "](") alt = false →
  forallb dot path = true →
  contains (lit ")" ++ IMG_DELIM) path = false →
  re_match _IMG_MARKER (_image_marker alt path ++ rest)
  = Some ([alt; path], length (_image_marker alt path)).
Proof.
  intros Hda Ha Hdp Hp. unfold re_match, _IMG_MARKER, _image_marker.
  rewrite <- !app_assoc.
  rewrite exec_seq, exec_lit, exec_seq, exec_lit.
  rewrite exec_seq, exec_grp, exec_rep. cbn [rep_min].
  rewrite rep_lazy_skip; [| done |].
  - apply rep_lazy_here.
    rewrite exec_seq, exec_lit, exec_seq, exec_grp, exec_rep.
    cbn [rep_min]. rewrite rep_lazy_skip; [| done |].
    + apply rep_lazy_here. rewrite exec_seq, exec_lit, exec_lit.
      rewrite !take_app_diff.
      f_equal. f_equal. rewrite !length_app. simpl. lia.
    + intros a1 a2 -> Ha2.
      match goal with |- ?g = None => destruct g eqn:E; [| done] end.
      exfalso. rewrite exec_seq in E.
      apply exec_lit_inv in E as (s1 & Hs1 & E).
      apply exec_lit_inv in E as (s2 & -> & _).
      apply contains_false_app in Hp as [_ Hp].
      rewrite contains_false in Hp.
      destruct a2 as [| x1 [| x2 a2]]; simpl in Hs1; simplify_eq.
      by destruct (Hp [] a2).
  - intros a1 a2 -> Ha2. rewrite exec_seq. apply exec_lit_fail.
    apply contains_false_app in Ha as [_ Ha].
    destruct (startswith _ _) eqn:E; [| done].
    apply startswith_spec in E as [r' E].
    rewrite contains_false in Ha.
    destruct a2 as [| x1 [| x2 a2]]; simpl in E; simplify_eq.
    by destruct (Ha [] a2).
Qed.

Lemma no_marker_in t rest :
  wf_text t = true →
  match rest with [] => True | c :: _ => c = "000"%char end →
  no_match_in _IMG_MARKER t rest.
Proof.
  unfold wf_text. rewrite negb_true_iff.
  intros Ht Hrest a b -> Hb.
  apply contains_false_app in Ht as [_ Ht].
  destruct (re_match _ _) eqn:E; [| done]. exfalso.
  apply img_marker_prefix, startswith_spec in E as [s' E].
  change ((IMG_DELIM ++ lit "IMG[") ++ s')
    with ("000"%char :: lit "IMG[" ++ s') in E.
  assert (∃ z, b = "000"%char :: lit "IMG[" ++ z) as [z Hz].
  { destruct rest as [| c rest].
    - by apply overlap_inside_end in E.
    - subst c. apply overlap_inside in E; [done | done |].
      by repeat constructor. }
  rewrite contains_false in Ht. by destruct (Ht [] z).
Qed.

Lemma split_fragments frags :
  forallb wf_fragment frags = true →
  split _IMG_MARKER
    (flat_map (λ f, _image_marker (frag_alt f) (frag_path f)
                    ++ frag_text f) frags)
  = [] :: parts_of frags.
Proof.
  induction frags as [| f frags IH]; [done |].
  cbn [forallb flat_map]. intros [Hf Hfrags]%andb_true_iff.
  unfold wf_fragment in Hf. rewrite !andb_true_iff, !negb_true_iff in Hf.
  destruct Hf as [[[[Hda Ha] Hdp] Hp] Ht].
  rewrite <- !app_assoc.
  rewrite (split_match _ _ _ [frag_alt f; frag_path f]);
    [| done | by apply img_marker_complete].
  cbn [app parts_of flat_map]. do 3 f_equal.
  rewrite split_no_match by (apply no_marker_in; [done | by destruct frags]).
  rewrite IH by done. by rewrite prepend_cons, app_nil_r.
Qed.

Lemma split_page_text t0 frags :
  wf_text t0 = true → forallb wf_fragment frags = true →
  split _IMG_MARKER (page_text t0 frags) = t0 :: parts_of frags.
Proof.
  intros Ht Hf. unfold page_text.
  rewrite split_no_match by (apply no_marker_in; [done | by destruct frags]).
  rewrite split_fragments by done. by rewrite prepend_cons, app_nil_r.
Qed.

Lemma split_loop_done fuel parts i acc :
  (length parts <= i)%nat → split_loop fuel parts i acc = acc.
Proof.
  intros H. destruct fuel; [done |]. simpl.
  by replace (i <? length parts)%nat with false
    by (symmetry; apply Nat.ltb_ge; lia).
Qed.

Lemma step_text acc t :
  match strip t with
  | [] => acc
  | _ => acc ++ [SText (strip t)]
  end = acc ++ text_segment t.
Proof.
  unfold text_segment, chunk. destruct (strip t); [| done].
  by rewrite app_nil_r.
Qed.

(** The loop from the start of a text part on: [done] are the parts
    already consumed, [tcur] the text part the index stands at. *)
Lemma split_loop_from frags : ∀ done tcur fuel acc,
  (length done mod 3 = 0)%nat →
  (2 * length frags + 1 <= fuel)%nat →
  split_loop fuel (done ++ tcur :: parts_of frags) (length done) acc
  = acc ++ text_segment tcur
    ++ flat_map (λ f, SImage (frag_alt f) (frag_path f)
                      :: text_segment (frag_text f)) frags.
Proof.
  induction frags as [| f frags IH]; intros done tcur fuel acc Hmod Hfuel.
  - destruct fuel as [| fuel]; [simpl in Hfuel; lia |].
    cbn [split_loop parts_of flat_map].
    replace (length done <? length (done ++ [tcur]))%nat with true
      by (symmetry; apply Nat.ltb_lt; rewrite length_app; simpl; lia).
    rewrite Hmod. cbn [Nat.eqb]. rewrite nth_middle, step_text.
    rewrite split_loop_done by (rewrite length_app; simpl; lia).
    by rewrite app_nil_r.
  - destruct fuel as [| [| fuel]]; [simpl in Hfuel; lia .. |].
    cbn [parts_of flat_map app] in *.
    set (parts := done ++ tcur :: frag_alt f :: frag_path f
                    :: frag_text f :: flat_map _ frags).
    assert (Hlen : length parts
                   = (length done + 4
                      + length (parts_of frags))%nat).
    { unfold parts. rewrite length_app. simpl. unfold parts_of. lia. }
    cbn [split_loop].
    replace (length done <? length parts)%nat with true
      by (symmetry; apply Nat.ltb_lt; lia).
    rewrite Hmod. cbn [Nat.eqb].
    replace (length done + 1 <? length parts)%nat with true
      by (symmetry; apply Nat.ltb_lt; lia).
    replace ((length done + 1) mod 3)%nat with 1%nat
      by (rewrite Nat.Div0.add_mod, Hmod; done).
    cbn [Nat.eqb].
    replace (length done + 1 + 1 <? length parts)%nat with true
      by (symmetry; apply Nat.ltb_lt; lia).
    replace (nth (length done) parts []) with tcur
      by (unfold parts; by rewrite nth_middle).
    replace (nth (length done + 1) parts []) with (frag_alt f)
      by (unfold parts; by rewrite app_nth2_plus).
    replace (nth (length done + 1 + 1) parts []) with (frag_path f)
      by (unfold parts; by rewrite <- Nat.add_assoc, app_nth2_plus).
    rewrite step_text.
    replace parts
      with ((done ++ [tcur; frag_alt f; frag_path f])
            ++ frag_text f :: parts_of frags)
      by (unfold parts; by rewrite <- app_assoc).
    replace (length done + 1 + 1 + 1)%nat
      with (length (done ++ [tcur; frag_alt f; frag_path f]))
      by (rewrite length_app; simpl; lia).
    rewrite IH.
    + by rewrite <- !app_assoc.
    + rewrite length_app. cbn [length].
      rewrite Nat.Div0.add_mod, Hmod. done.
    + simpl in Hfuel. lia.
Qed.

Lemma length_fragment_parts frags :
  length (parts_of frags) = (3 * length frags)%nat.
Proof. induction frags as [| f frags IH]; simpl; lia. Qed.

(** Segmentation of page content: the image pairs in order, each chunk
    of prose trimmed, blank chunks left out. *)
Lemma split_page_text_segments t0 frags :
  wf_text t0 = true → forallb wf_fragment frags = true →
  _split_page_segments (page_text t0 frags)
  = text_segment t0
    ++ flat_map (λ f, SImage (frag_alt f) (frag_path f)
                      :: text_segment (frag_text f)) frags.
Proof.
  intros Ht Hf. unfold _split_page_segments.
  rewrite split_page_text by done.
  apply (split_loop_from frags [] t0 _ []); [done |].
  cbn [length]. rewrite length_fragment_parts. lia.
Qed.

End SegmentFacts.

(** ** From a page body to its segments *)

Module BodyFacts.
Import Str Re StrFacts ReFacts MarkerFacts ParserFacts Parser Doc Ui Content
  SegmentFacts.

(** *** Collapsing blank lines in page content *)

Lemma newline_run_prefix a :
  ∃ nls z, a = nls ++ z ∧ forallb newline nls = true ∧
           match z with [] => True | c :: _ => newline c = false end.
Proof.
  induction a as [| c a (nls & z & -> & Hn & Hz)].
  - by exists [], [].
  - destruct (newline c) eqn:Hc.
    + exists (c :: nls), z. simpl. by rewrite Hc, Hn.
    + by exists [], (c :: nls ++ z).
Qed.

Lemma head_app_nonnl (z rest : text) :
  match z with [] => True | c :: _ => newline c = false end →
  match rest with [] => True | c :: _ => newline c = false end →
  match z ++ rest with [] => True | c :: _ => newline c = false end.
Proof. by destruct z. Qed.

(** Collapsing works on each side of a boundary that is followed by a
    character other than a line break. *)
Lemma sub_blank_app_r f a rest :
  match rest with [] => True | c :: _ => newline c = false end →
  sub BLANK_LINES f (a ++ rest)
  = sub BLANK_LINES f a ++ sub BLANK_LINES f rest.
Proof.
  intros Hrest. remember (length a) as len eqn:Hlen. revert a Hlen.
  induction len as [len IH] using lt_wf_ind. intros a Hlen.
  destruct a as [| c a]; [done |].
  destruct (newline_run_prefix (c :: a)) as (nls & z & Ha & Hn & Hz).
  pose proof (head_app_nonnl z rest Hz Hrest) as Hzr.
  destruct (decide (3 <= length nls)%nat) as [H3 | H3].
  - assert (nls ≠ []) as Hne by (intros ->; simpl in H3; lia).
    apply Nat.leb_le in H3 as H3'.
    rewrite Ha, <- app_assoc.
    rewrite (sub_match _ _ nls _ []);
      [| done | by rewrite blank_lines_run, H3'].
    rewrite (sub_match _ _ nls _ []);
      [| done | by rewrite blank_lines_run, H3'].
    rewrite <- app_assoc. f_equal.
    apply (IH (length z)); [| done].
    rewrite Hlen, Ha, length_app. destruct nls; simpl in *; lia.
  - unfold sub at 1 2. cbn [app sub_from].
    replace (c :: a ++ rest) with (nls ++ z ++ rest)
      by (by rewrite app_assoc, <- Ha).
    rewrite Ha at 1. rewrite !blank_lines_run by done.
    replace (3 <=? length nls)%nat with false
      by (symmetry; apply Nat.leb_gt; lia).
    cbn [app]. f_equal. apply (IH (length a)); [| done].
    simpl in Hlen. lia.
Qed.

Lemma newline_free_inert a rest :
  forallb dot a = true → no_match_in BLANK_LINES a rest.
Proof.
  intros Ha a1 b -> Hb. rewrite forallb_app in Ha.
  apply andb_true_iff in Ha as [_ Ha]. destruct b as [| c b]; [done |].
  simpl in Ha. apply andb_true_iff in Ha as [Hc _].
  apply negb_true_iff in Hc.
  exact (blank_lines_run [] ((c :: b) ++ rest) eq_refl Hc).
Qed.

Lemma image_marker_dot alt path :
  forallb dot alt = true → forallb dot path = true →
  forallb dot (_image_marker alt path) = true.
Proof.
  intros Ha Hp. unfold _image_marker.
  by rewrite !forallb_app, Ha, Hp.
Qed.

Section Collapse.

Variable f : list text → text.

Lemma collapse_fragments frags :
  forallb (λ fr, forallb dot (frag_alt fr) && forallb dot (frag_path fr))
    frags = true →
  sub BLANK_LINES f
    (flat_map (λ fr, _image_marker (frag_alt fr) (frag_path fr)
                     ++ frag_text fr) frags)
  = flat_map (λ fr, _image_marker (frag_alt fr) (frag_path fr)
                    ++ frag_text fr) (map (map_text (sub BLANK_LINES f)) frags).
Proof.
  induction frags as [| fr frags IH]; [done |].
  cbn [forallb flat_map map]. intros [Hfr Hfrags]%andb_true_iff.
  apply andb_true_iff in Hfr as [Ha Hp]. rewrite <- !app_assoc.
  rewrite sub_no_match
    by (apply newline_free_inert; by apply image_marker_dot).
  rewrite sub_blank_app_r by by destruct frags.
  by rewrite IH.
Qed.

Lemma collapse_page_text t0 frags :
  forallb (λ fr, forallb dot (frag_alt fr) && forallb dot (frag_path fr))
    frags = true →
  sub BLANK_LINES f (page_text t0 frags)
  = page_text (sub BLANK_LINES f t0) (map (map_text (sub BLANK_LINES f)) frags).
Proof.
  intros Hfrags. unfold page_text.
  rewrite sub_blank_app_r by by destruct frags.
  by rewrite collapse_fragments.
Qed.

End Collapse.


(** *** Trimming page content *)

Lemma lstrip_app_nonspace a c rest :
  isspace c = false → lstrip (a ++ c :: rest) = lstrip a ++ c :: rest.
Proof.
  intros Hc. induction a as [| x a IH]; simpl.
  - by rewrite Hc.
  - by destruct (isspace x).
Qed.

Lemma rstrip_after_nonspace x c t :
  isspace c = false → rstrip (x ++ c :: t) = x ++ c :: rstrip t.
Proof.
  intros Hc. unfold rstrip. rewrite rev_app_distr. simpl.
  rewrite <- app_assoc. simpl. rewrite lstrip_app_nonspace by done.
  rewrite rev_app_distr. simpl. by rewrite rev_involutive, <- app_assoc.
Qed.

Lemma image_marker_last alt path :
  ∃ m, _image_marker alt path = "000"%char :: m ++ ["000"%char].
Proof.
  exists (lit "IMG[" ++ alt ++ lit "](" ++ path ++ lit ")").
  unfold _image_marker. by rewrite <- !app_assoc.
Qed.

Lemma rstrip_fragments y frags :
  frags ≠ [] →
  rstrip (y ++ flat_map (λ fr, _image_marker (frag_alt fr) (frag_path fr)
                               ++ frag_text fr) frags)
  = y ++ flat_map (λ fr, _image_marker (frag_alt fr) (frag_path fr)
                         ++ frag_text fr) (rstrip_last frags).
Proof.
  revert y. induction frags as [| fr frags IH]; intros y Hne; [done |].
  destruct frags as [| fr' frags].
  - cbn [flat_map rstrip_last map_text frag_alt frag_path frag_text].
    rewrite !app_nil_r.
    destruct (image_marker_last (frag_alt fr) (frag_path fr)) as [m ->].
    replace (y ++ ("000"%char :: m ++ ["000"%char]) ++ frag_text fr)
      with ((y ++ "000"%char :: m) ++ "000"%char :: frag_text fr)
      by (by rewrite <- !app_assoc; simpl; rewrite <- !app_assoc).
    rewrite rstrip_after_nonspace by done.
    rewrite <- !app_assoc. simpl. by rewrite <- !app_assoc.
  - change (rstrip_last (fr :: fr' :: frags))
      with (fr :: rstrip_last (fr' :: frags)).
    cbn [flat_map].
    rewrite !(app_assoc y). rewrite IH by done.
    by rewrite <- !app_assoc.
Qed.

Lemma strip_page_text t0 fr frags :
  strip (page_text t0 (fr :: frags))
  = page_text (lstrip t0) (rstrip_last (fr :: frags)).
Proof.
  unfold strip, page_text.
  assert (∃ rest, flat_map (λ fr, _image_marker (frag_alt fr) (frag_path fr)
                                  ++ frag_text fr) (fr :: frags)
                  = "000"%char :: rest) as [rest Hrest] by by eexists.
  rewrite Hrest, lstrip_app_nonspace by done. rewrite <- Hrest.
  by apply rstrip_fragments.
Qed.

(** *** Text free of the delimiter *)

Lemma sub_from_forallb (P : ascii → bool) r repl :
  (∀ g, forallb P (repl g) = true) →
  ∀ s n, forallb P s = true → forallb P (sub_from r repl n s) = true.
Proof.
  intros Hrepl. induction s as [| c s IH]; intros n; [done |].
  simpl. intros [Hc Hs]%andb_true_iff. destruct n as [| n]; [| by apply IH].
  destruct (re_match r (c :: s)) as [[g [| m]] |]; simpl;
    rewrite ?forallb_app, ?Hrepl, ?Hc; by apply IH.
Qed.

Lemma no_delim_lstrip t : no_delim t = true → no_delim (lstrip t) = true.
Proof.
  destruct (lstrip_spec t) as (w & Hw & _). unfold no_delim.
  rewrite Hw at 1. rewrite forallb_app. by intros [_ H]%andb_true_iff.
Qed.

Lemma no_delim_rstrip t : no_delim t = true → no_delim (rstrip t) = true.
Proof.
  destruct (rstrip_spec t) as (w & Hw & _). unfold no_delim.
  rewrite Hw at 1. rewrite forallb_app. by intros [H _]%andb_true_iff.
Qed.

Lemma no_delim_contains t p1 p2 :
  no_delim t = true → contains (p1 ++ "000"%char :: p2) t = false.
Proof.
  intros Ht. apply contains_false. intros a b ->.
  unfold no_delim in Ht. rewrite !forallb_app in Ht. simpl in Ht.
  by rewrite andb_false_r, andb_false_l, andb_false_r in Ht.
Qed.

Lemma no_delim_wf_text t : no_delim t = true → wf_text t = true.
Proof.
  intros Ht. unfold wf_text. apply negb_true_iff.
  by apply (no_delim_contains t [] (lit "IMG[")).
Qed.

(** *** Trimmed chunks *)

Lemma strip_lstrip t : strip (lstrip t) = strip t.
Proof. unfold strip. by rewrite lstrip_idem. Qed.

Lemma lstrip_app_space s w :
  all_space w = true →
  lstrip (s ++ w) = if all_space s then [] else lstrip s ++ w.
Proof.
  intros Hw. induction s as [| c s IH]; simpl.
  - rewrite <- (app_nil_r w). rewrite lstrip_all_space by done. done.
  - destruct (isspace c); simpl; [done |]. done.
Qed.

Lemma strip_app_space s w : all_space w = true → strip (s ++ w) = strip s.
Proof.
  intros Hw. unfold strip. rewrite lstrip_app_space by done.
  destruct (all_space s) eqn:Hs.
  - symmetry. by apply strip_all_space.
  - by apply rstrip_all_space.
Qed.

Lemma strip_rstrip t : strip (rstrip t) = strip t.
Proof.
  destruct (rstrip_spec t) as (w & Hw & Hs & _).
  rewrite Hw at 2. by rewrite strip_app_space.
Qed.

Lemma segments_rstrip_last frags :
  flat_map (λ f, SImage (frag_alt f) (frag_path f)
                 :: text_segment (frag_text f)) (rstrip_last frags)
  = flat_map (λ f, SImage (frag_alt f) (frag_path f)
                   :: text_segment (frag_text f)) frags.
Proof.
  induction frags as [| fr frags IH]; [done |].
  destruct frags as [| fr' frags].
  - cbn [rstrip_last flat_map map_text frag_alt frag_path frag_text].
    unfold text_segment. by rewrite strip_rstrip.
  - change (rstrip_last (fr :: fr' :: frags))
      with (fr :: rstrip_last (fr' :: frags)).
    cbn [flat_map]. by rewrite IH.
Qed.


Lemma clean_wf fr : clean_fragment fr = true → wf_fragment fr = true.
Proof.
  unfold clean_fragment, wf_fragment. rewrite !andb_true_iff.
  intros [[[[Ha Hc] Hp] Hdp] Ht]. split_and!; try done.
  - apply negb_true_iff.
    by apply (no_delim_contains (frag_path fr) (lit ")") []).
  - by apply no_delim_wf_text.
Qed.

Lemma clean_map_text g fr :
  (∀ t, no_delim t = true → no_delim (g t) = true) →
  clean_fragment fr = true → clean_fragment (map_text g fr) = true.
Proof.
  intros Hg. unfold clean_fragment. cbn [map_text frag_alt frag_path frag_text].
  rewrite !andb_true_iff. intros [H Ht]. split; [done | by apply Hg].
Qed.

Lemma clean_rstrip_last frags :
  forallb clean_fragment frags = true →
  forallb clean_fragment (rstrip_last frags) = true.
Proof.
  induction frags as [| fr frags IH]; [done |].
  destruct frags as [| fr' frags].
  - cbn [rstrip_last forallb]. rewrite !andb_true_r.
    apply clean_map_text, no_delim_rstrip.
  - change (rstrip_last (fr :: fr' :: frags))
      with (fr :: rstrip_last (fr' :: frags)).
    cbn [forallb] in *. intros [-> H]%andb_true_iff. by apply IH.
Qed.

Lemma no_delim_collapse t : no_delim t = true → no_delim (collapse t) = true.
Proof. intros H. by apply sub_from_forallb. Qed.


Section WithOsPath.

Variable os_path_join : text → text → text.
Variable os_path_normpath : text → text.
Variable readme_dir : text.

Abbreviation resolve :=
  (λ rel_path, os_path_normpath (os_path_join readme_dir rel_path)).
Abbreviation embed :=
  (sub IMAGE_LINE (_replace_image os_path_join os_path_normpath readme_dir)).

(** The image substitution turns a body of prose and image references
    into prose and placeholders. *)
Lemma embed_references refs :
  forallb (wf_reference resolve) refs = true →
  embed (flat_map (λ r, image_ref (ref_alt r) (ref_path r) ++ ref_text r)
           refs)
  = flat_map (λ f, _image_marker (frag_alt f) (frag_path f) ++ frag_text f)
      (map (fragment_of resolve) refs).
Proof.
  induction refs as [| r refs IH]; [done |].
  cbn [forallb flat_map map]. intros [Hr Hrefs]%andb_true_iff.
  unfold wf_reference, wf_prose in Hr.
  rewrite !andb_true_iff, !negb_true_iff in Hr.
  destruct Hr as [[[[[[Hda Ha] Hdp] Hp] _] _] [_ Ht]].
  rewrite <- !app_assoc.
  rewrite (sub_match _ _ _ _ [ref_alt r; ref_path r]);
    [| done | by apply image_line_complete].
  rewrite sub_no_match by (apply no_image_in; [done | by destruct refs]).
  by rewrite IH.
Qed.

Lemma embed_body t0 refs :
  wf_prose t0 = true → forallb (wf_reference resolve) refs = true →
  embed (body_text t0 refs) = page_text t0 (map (fragment_of resolve) refs).
Proof.
  unfold wf_prose. rewrite andb_true_iff, negb_true_iff.
  intros [_ Ht] Hrefs. unfold body_text, page_text.
  rewrite sub_no_match by (apply no_image_in; [done | by destruct refs]).
  by rewrite embed_references.
Qed.

Lemma clean_fragment_of r :
  wf_reference resolve r = true →
  clean_fragment (fragment_of resolve r) = true.
Proof.
  unfold wf_reference, wf_prose, clean_fragment, no_delim.
  cbn [fragment_of frag_alt frag_path frag_text].
  rewrite !andb_true_iff. intros [[[[[[Ha Hc] _] _] Hp] Hd] [Ht _]].
  by split_and!.
Qed.

Lemma clean_fragments refs :
  forallb (wf_reference resolve) refs = true →
  forallb clean_fragment
    (map (map_text collapse) (map (fragment_of resolve) refs)) = true.
Proof.
  induction refs as [| r refs IH]; [done |].
  cbn [forallb map]. intros [Hr Hrefs]%andb_true_iff.
  rewrite IH by done. rewrite andb_true_r.
  apply clean_map_text; [apply no_delim_collapse |].
  by apply clean_fragment_of.
Qed.

(** From the body of a page to the segments shown: the image pairs with
    their resolved paths, in order, between the chunks of prose with
    blank lines collapsed and surrounding whitespace trimmed. *)
Lemma parsed_body_segments t0 refs :
  wf_prose t0 = true → forallb (wf_reference resolve) refs = true →
  _split_page_segments
    (Lesson.page_content os_path_join os_path_normpath readme_dir
       (body_text t0 refs))
  = text_segment (collapse t0)
    ++ flat_map (λ r, SImage (ref_alt r) (resolve (ref_path r))
                      :: text_segment (collapse (ref_text r))) refs.
Proof.
  intros Ht0 Hrefs. unfold Lesson.page_content.
  rewrite embed_body by done.
  pose proof (clean_fragments refs Hrefs) as Hclean.
  assert (Hnd : no_delim (collapse t0) = true).
  { apply no_delim_collapse. unfold wf_prose in Ht0.
    by apply andb_true_iff in Ht0 as [Ht0 _]. }
  rewrite collapse_page_text.
  2:{ clear -Hrefs. induction refs as [| r refs IH]; [done |].
      cbn [forallb map] in *. apply andb_true_iff in Hrefs as [Hr Hrefs].
      rewrite IH by done. apply clean_fragment_of in Hr.
      unfold clean_fragment in Hr. rewrite !andb_true_iff in Hr.
      destruct Hr as [[[[-> _] ->] _] _]. done. }
  fold collapse.
  change (sub BLANK_LINES (λ _ : list text, [nl; nl])) with collapse.
  assert (Hsegs :
    flat_map (λ f, SImage (frag_alt f) (frag_path f)
                   :: text_segment (frag_text f))
      (map (map_text collapse) (map (fragment_of resolve) refs))
    = flat_map (λ r, SImage (ref_alt r) (resolve (ref_path r))
                     :: text_segment (collapse (ref_text r))) refs).
  { clear. induction refs as [| r refs IH]; [done |].
    cbn [map flat_map]. by rewrite IH. }
  destruct refs as [| r refs].
  - cbn [map flat_map]. unfold page_text at 1. cbn [flat_map].
    rewrite app_nil_r.
    rewrite <- (app_nil_r (strip (collapse t0))).
    change (strip (collapse t0) ++ [])
      with (page_text (strip (collapse t0)) []).
    rewrite split_page_text_segments; [| | done].
    + cbn [flat_map]. unfold text_segment. by rewrite strip_idem.
    + apply no_delim_wf_text. unfold strip.
      by apply no_delim_rstrip, no_delim_lstrip.
  - cbn [map] in *. rewrite strip_page_text.
    rewrite split_page_text_segments.
    + rewrite segments_rstrip_last, Hsegs.
      unfold text_segment. by rewrite strip_lstrip.
    + by apply no_delim_wf_text, no_delim_lstrip.
    + apply clean_rstrip_last in Hclean.
      clear -Hclean. revert Hclean.
      generalize (rstrip_last
        (map_text collapse (fragment_of resolve r)
         :: map (map_text collapse) (map (fragment_of resolve) refs))).
      intros l. induction l as [| fr l IH]; [done |].
      cbn [forallb]. intros [Hf Hl]%andb_true_iff.
      by rewrite clean_wf, IH.
Qed.


End WithOsPath.

End BodyFacts.

Module ImageClaims.
Import Str Re StrFacts ReFacts Parser Doc ParserFacts Ui Content BodyFacts.




End ImageClaims.


Module SegmentClaims.
Import Str Re StrFacts ReFacts Parser Doc Ui Content SegmentFacts BodyFacts.

(** C4, as the code has it.  For page content made of prose and embedded
    image placeholders (prose without the opener of a placeholder, alt
    texts and paths as the image pattern of the parser yields them),
    [_split_page_segments] gives back, in the order of the content, every
    image pair as it was embedded and every chunk of prose trimmed of
    surrounding whitespace; a chunk that is blank gives no segment.  In
    particular, for the content the parser makes of a page body of prose
    and image references, the segments are the image pairs with their
    resolved paths, in the order of the references, between the chunks of
    prose with blank lines collapsed and trimmed. *)
Theorem split_page_segments_in_order
    (os_path_join : text → text → text) (os_path_normpath : text → text)
    (readme_dir t0 b0 : text) (frags : list fragment)
    (refs : list reference) :
  let resolve := λ rel_path,
    os_path_normpath (os_path_join readme_dir rel_path) in
  wf_text t0 = true → forallb wf_fragment frags = true →
  wf_prose b0 = true → forallb (wf_reference resolve) refs = true →
  _split_page_segments (page_text t0 frags)
  = text_segment t0
    ++ flat_map (λ f, SImage (frag_alt f) (frag_path f)
                      :: text_segment (frag_text f)) frags
  ∧ _split_page_segments
      (Lesson.page_content os_path_join os_path_normpath readme_dir
         (body_text b0 refs))
    = text_segment (collapse b0)
      ++ flat_map (λ r, SImage (ref_alt r) (resolve (ref_path r))
                        :: text_segment (collapse (ref_text r))) refs.
Proof.
  intros resolve Ht0 Hfrags Hb0 Hrefs. split.
  - by apply split_page_text_segments.
  - by apply parsed_body_segments.
Qed.

Lemma split_page_segments_in_order_witness :
  _split_page_segments
    (Lesson.page_content Posix.join Posix.normpath (lit "/d")
       (body_text (lit "Intro ")
          [Reference (lit "a") (lit "img/a.png") (lit " then ");
           Reference (lit "b") (lit "../b.png") (lit " ")]))
  = [SText (lit "Intro"); SImage (lit "a") (lit "/d/img/a.png");
     SText (lit "then"); SImage (lit "b") (lit "/b.png")].
Proof.
  refine (proj2 (split_page_segments_in_order Posix.join Posix.normpath
            (lit "/d") (lit "Intro ") (lit "Intro ")
            [Fragment (lit "a") (lit "/d/a.png") (lit " then ")]
            [Reference (lit "a") (lit "img/a.png") (lit " then ");
             Reference (lit "b") (lit "../b.png") (lit " ")] _ _ _ _)).
  - reflexivity.
  - reflexivity.
  - reflexivity.
  - reflexivity.
Defined.

(** C4 as stated fails: the parser turns a page with two image
    references on consecutive lines into content whose chunks of prose
    are ["Intro:" + line break] and a line break; splitting it gives the
    first chunk without its line break and drops the second chunk. *)
Lemma split_page_segments_not_exact :
  let doc := lit "<!-- lesson:page T -->Intro:" ++ [nl]
             ++ image_ref (lit "a") (lit "a.png") ++ [nl]
             ++ image_ref (lit "b") (lit "b.png") in
  let frags := [Fragment (lit "a") (lit "/d/a.png") [nl];
                Fragment (lit "b") (lit "/d/b.png") []] in
  let raw := page_text (lit "Intro:" ++ [nl]) frags in
  map content (parse_readme Posix.join Posix.normpath (lit "/d") (Some doc))
  = [raw]
  ∧ embedded_segments (lit "Intro:" ++ [nl]) frags
    = [SText (lit "Intro:" ++ [nl]); SImage (lit "a") (lit "/d/a.png");
       SText [nl]; SImage (lit "b") (lit "/d/b.png")]
  ∧ _split_page_segments raw
    = [SText (lit "Intro:"); SImage (lit "a") (lit "/d/a.png");
       SImage (lit "b") (lit "/d/b.png")]
  ∧ _split_page_segments raw
    ≠ embedded_segments (lit "Intro:" ++ [nl]) frags.
Proof.
  split_and!; [by vm_compute .. |]. by vm_compute.
Qed.

End SegmentClaims.

(** ** Challenge validation *)

Module ValidateFacts.
Import Str Re StrFacts ReFacts MarkerFacts Parser Ui Source.

(** *** Counting *)

Lemma count_contains p s n : count_from p n s ≠ 0%nat → contains p s = true.
Proof.
  revert n. induction s as [| c s IH]; intros n; [done |].
  cbn [count_from contains]. destruct n as [| n].
  - destruct (startswith p (c :: s)); [done |].
    intros H%IH. by rewrite H, orb_true_r.
  - intros H%IH. by rewrite H, orb_true_r.
Qed.

Lemma contains_count p s :
  p ≠ [] → contains p s = true → count p s ≠ 0%nat.
Proof.
  intros Hp. unfold count. induction s as [| c s IH].
  - simpl. rewrite orb_false_r. by rewrite startswith_nil_r.
  - cbn [count_from contains]. destruct (startswith p (c :: s)); [done |].
    simpl. done.
Qed.

Lemma contains_iff_count p s :
  p ≠ [] → contains p s = true ↔ count p s ≠ 0%nat.
Proof. intros Hp. split; [by apply contains_count | apply count_contains]. Qed.

(** *** Docstrings *)

Lemma docstring_dq : DOCSTRING_DQ = DOCSTRING dquote.
Proof. reflexivity. Qed.

Lemma docstring_sq : DOCSTRING_SQ = DOCSTRING squote.
Proof. reflexivity. Qed.

Lemma quotes_start q b rest :
  b ≠ [] → startswith (repeat q 3) (b ++ rest) = true →
  contains (repeat q 3) (b ++ [q; q]) = true.
Proof.
  intros Hb [r' H]%startswith_spec. apply contains_spec.
  destruct b as [| x1 [| x2 [| x3 b]]]; simpl in H; simplify_eq.
  - by exists [], [].
  - by exists [], [q].
  - by exists [], (b ++ [q; q]).
Qed.

Lemma quote_free_suffix q a b :
  quote_free q (a ++ b) = true → quote_free q b = true.
Proof.
  unfold quote_free. rewrite !negb_true_iff, <- app_assoc.
  by intros [_ H]%contains_false_app.
Qed.

(** A text free of triple quotes holds no start of a docstring. *)
Lemma quote_free_inert q r rest :
  quote_free q r = true → no_match_in (DOCSTRING q) r rest.
Proof.
  intros Hr a b -> Hb. apply quote_free_suffix in Hr.
  destruct (re_match _ _) eqn:E; [| done].
  apply re_match_lit_prefix, quotes_start in E; [| done].
  unfold quote_free in Hr. by rewrite E in Hr.
Qed.

Lemma docstring_match q body rest :
  quote_free q body = true →
  re_match (DOCSTRING q) ((repeat q 3 ++ body ++ repeat q 3) ++ rest)
  = Some ([], length (repeat q 3 ++ body ++ repeat q 3)).
Proof.
  intros Hb. unfold re_match, DOCSTRING. rewrite <- !app_assoc.
  rewrite exec_seq, exec_lit, exec_seq, exec_rep. cbn [rep_min].
  rewrite rep_lazy_skip; [| by apply forallb_forall |].
  - apply rep_lazy_here. rewrite exec_lit. f_equal. f_equal.
    rewrite !length_app. simpl. lia.
  - intros a1 a2 -> Ha2. apply exec_lit_fail.
    apply quote_free_suffix in Hb.
    destruct (startswith _ _) eqn:E; [| done].
    apply quotes_start in E; [| done].
    unfold quote_free in Hb. by rewrite E in Hb.
Qed.

(** *** Comments *)

Lemma comment_match body rest :
  forallb dot body = true →
  match rest with [] => True | c :: _ => c = nl end →
  re_match COMMENT ((lit "#" ++ body) ++ rest)
  = Some ([], length (lit "#" ++ body)).
Proof.
  intros Hb Hrest. unfold re_match, COMMENT. rewrite <- !app_assoc.
  rewrite exec_seq, exec_lit, exec_rep. cbn [rep_min].
  apply rep_greedy_max; [done | |].
  - destruct rest as [| c rest]; [done |]. by subst c.
  - f_equal. f_equal. rewrite !length_app. simpl. lia.
Qed.

Lemma hash_free_inert c rest :
  contains (lit "#") c = false → no_match_in COMMENT c rest.
Proof.
  intros Hc a b -> Hb. apply contains_false_app in Hc as [_ Hc].
  destruct (re_match _ _) eqn:E; [| done].
  apply re_match_lit_prefix, startswith_spec in E as [r' E].
  destruct b as [| x b]; [done |]. simpl in E. injection E as -> _.
  rewrite contains_false in Hc. by destruct (Hc [] b).
Qed.

(** *** One substitution over the pieces of a file

    When every region piece is matched exactly where it stands and no
    match begins inside another piece, the substitution removes the
    region pieces and nothing else. *)
Lemma sub_pieces r (is_region : piece → bool) pieces :
  (∀ a p b, pieces = a ++ p :: b →
     if is_region p
     then render_piece p ≠ [] ∧
          ∃ g, re_match r (render_piece p ++ render b)
               = Some (g, length (render_piece p))
     else no_match_in r (render_piece p) (render b)) →
  sub r (λ _, []) (render pieces)
  = render (filter (λ p, is_region p = false) pieces).
Proof.
  induction pieces as [| p pieces IH]; intros H; [done |].
  assert (IH' : sub r (λ _, []) (render pieces)
                = render (filter (λ p, is_region p = false) pieces)).
  { apply IH. intros a p' b ->. by apply (H (p :: a)). }
  specialize (H [] p pieces eq_refl).
  unfold render in *. cbn [flat_map]. rewrite filter_cons.
  destruct (is_region p).
  - destruct H as [Hne [g Hm]].
    rewrite (sub_match _ _ _ _ g) by done.
    by rewrite decide_False.
  - rewrite sub_no_match by done. rewrite decide_True by done.
    cbn [flat_map]. by rewrite IH'.
Qed.

(** *** The three substitutions of [_strip_comments] *)

Lemma forallb_at (P : piece → bool) pieces a p b :
  forallb P pieces = true → pieces = a ++ p :: b → P p = true.
Proof.
  intros H ->. rewrite forallb_app in H. simpl in H.
  by apply andb_true_iff in H as [_ [H _]%andb_true_iff].
Qed.

Lemma forallb_filter (P : piece → bool) (Q : piece → Prop)
    `{∀ p, Decision (Q p)} pieces :
  forallb P pieces = true → forallb P (filter Q pieces) = true.
Proof.
  induction pieces as [| p pieces IH]; [done |]. simpl.
  intros [Hp Hps]%andb_true_iff. rewrite filter_cons.
  destruct (decide (Q p)); simpl; rewrite ?Hp; by apply IH.
Qed.

Lemma filter_at (Q : piece → Prop) `{∀ p, Decision (Q p)} pieces a p b :
  filter Q pieces = a ++ p :: b → Q p.
Proof.
  intros Hf. assert (p ∈ filter Q pieces) as Hp.
  { rewrite Hf. apply elem_of_app. right. by left. }
  by apply list_elem_of_filter in Hp as [Hp _].
Qed.

Lemma no_docs_at pieces a p b :
  no_docs pieces = a ++ p :: b →
  is_doc_dq p = false ∧ is_doc_sq p = false.
Proof.
  intros Hf. assert (p ∈ no_docs pieces) as Hp.
  { rewrite Hf. apply elem_of_app. right. by left. }
  unfold no_docs in Hp.
  apply list_elem_of_filter in Hp as [Hsq Hp].
  by apply list_elem_of_filter in Hp as [Hdq _].
Qed.

Lemma strip_docstrings_dq pieces :
  forallb wf_dq pieces = true →
  sub DOCSTRING_DQ (λ _, []) (render pieces)
  = render (filter (λ p, is_doc_dq p = false) pieces).
Proof.
  intros Hwf. apply sub_pieces. intros a p b Hp.
  pose proof (forallb_at _ _ _ _ _ Hwf Hp) as Hq.
  destruct p as [c | body | body | body]; cbn [is_doc_dq];
    try (by apply quote_free_inert).
  split; [done |]. exists []. cbn [render_piece].
  by rewrite docstring_dq, docstring_match.
Qed.

Lemma strip_docstrings_sq pieces :
  forallb wf_sq pieces = true →
  sub DOCSTRING_SQ (λ _, [])
    (render (filter (λ p, is_doc_dq p = false) pieces))
  = render (no_docs pieces).
Proof.
  intros Hwf. apply sub_pieces. intros a p b Hp.
  pose proof (forallb_at _ _ _ _ _
                (forallb_filter _ _ _ Hwf) Hp) as Hq.
  apply filter_at in Hp.
  destruct p as [c | body | body | body]; cbn [is_doc_sq];
    try done; try (by apply quote_free_inert).
  split; [done |]. exists []. cbn [render_piece].
  by rewrite docstring_sq, docstring_match.
Qed.

Lemma comments_end_app a l :
  comments_end (a ++ l) = true → comments_end l = true.
Proof.
  induction a as [| p a IH]; [done |].
  destruct p; cbn [app comments_end]; try apply IH.
  intros [_ H]%andb_true_iff. by apply IH.
Qed.

Lemma strip_line_comments pieces :
  forallb wf_hash pieces = true →
  comments_end (no_docs pieces) = true →
  sub COMMENT (λ _, []) (render (no_docs pieces))
  = render (filter (λ p, is_comment p = false) (no_docs pieces)).
Proof.
  intros Hwf Hend. apply sub_pieces. intros a p b Hp.
  pose proof (forallb_at _ _ _ _ _
                (forallb_filter _ _ _
                   (forallb_filter _ _ _ Hwf)) Hp) as Hq.
  rewrite Hp in Hend. apply comments_end_app in Hend.
  apply no_docs_at in Hp as [Hdq Hsq].
  destruct p as [c | body | body | body]; cbn [is_comment]; try done.
  - apply hash_free_inert. by apply negb_true_iff in Hq.
  - split; [done |]. exists []. apply comment_match; [done |].
    cbn [comments_end] in Hend. apply andb_true_iff in Hend as [Hend _].
    destruct b as [| [[| c' c] | | |] b]; try done.
    by apply Ascii.eqb_eq in Hend.
Qed.

Lemma render_code_pieces pieces :
  render (filter (λ p, is_comment p = false) (no_docs pieces))
  = code_of pieces.
Proof.
  unfold no_docs, render, code_of.
  induction pieces as [| p pieces IH]; [done |].
  destruct p; cbn [flat_map]; rewrite <- IH;
    repeat (rewrite filter_cons; cbn [is_doc_dq is_doc_sq is_comment];
            (rewrite decide_True by done) || (rewrite decide_False by done));
    done.
Qed.

(** On a well-formed file [_strip_comments] leaves the code pieces and
    nothing else. *)
Lemma strip_comments_code pieces :
  wf_source pieces = true →
  _strip_comments (render pieces) = code_of pieces.
Proof.
  unfold wf_source. rewrite !andb_true_iff.
  intros [[[Hdq Hsq] Hh] Hend]. unfold _strip_comments.
  rewrite strip_docstrings_dq, strip_docstrings_sq,
    strip_line_comments by done.
  apply render_code_pieces.
Qed.


End ValidateFacts.

Module ValidateClaims.
Import Str Re StrFacts ReFacts Parser Ui Source ValidateFacts.

(** C1.  [_strip_comments] removes docstrings in double quotes, then
    docstrings in single quotes, then [#] comments, and the placeholder
    is counted in what remains: when that count is not zero the run ends
    at [Incomplete count] and the subprocess is never started, otherwise
    the file goes on to execution.  On a file made of code, docstrings
    and comments the text that remains is the code alone, so the verdict
    is the one of the code: placeholders inside docstrings and comments
    do not count. *)
Theorem placeholders_counted_in_code (code : text) (pieces : list piece) :
  wf_source pieces = true →
  _strip_comments code
  = sub COMMENT (λ _, [])
      (sub DOCSTRING_SQ (λ _, []) (sub DOCSTRING_DQ (λ _, []) code))
  ∧ (count PLACEHOLDER (_strip_comments code) ≠ 0%nat →
     _validate_challenge (Some code)
     = Done (Incomplete (count PLACEHOLDER (_strip_comments code))) false)
  ∧ (count PLACEHOLDER (_strip_comments code) = 0%nat →
     _validate_challenge (Some code) = Execute classify)
  ∧ _strip_comments (render pieces) = code_of pieces
  ∧ (count PLACEHOLDER (code_of pieces) ≠ 0%nat →
     _validate_challenge (Some (render pieces))
     = Done (Incomplete (count PLACEHOLDER (code_of pieces))) false)
  ∧ (count PLACEHOLDER (code_of pieces) = 0%nat →
     _validate_challenge (Some (render pieces)) = Execute classify).
Proof.
  intros Hwf.
  assert (Hmech : ∀ c,
            (count PLACEHOLDER (_strip_comments c) ≠ 0%nat →
             _validate_challenge (Some c)
             = Done (Incomplete (count PLACEHOLDER (_strip_comments c)))
                 false) ∧
            (count PLACEHOLDER (_strip_comments c) = 0%nat →
             _validate_challenge (Some c) = Execute classify)).
  { intros c. unfold _validate_challenge, _check_placeholders. split.
    - intros H. apply count_contains in H as ->. done.
    - intros H. destruct (contains _ _) eqn:E; [| done].
      apply contains_count in E; done. }
  pose proof (strip_comments_code pieces Hwf) as Hcode.
  destruct (Hmech code) as [H1 H2].
  destruct (Hmech (render pieces)) as [H3 H4]. rewrite Hcode in H3, H4.
  by split_and!.
Qed.

(** Three placeholders in code, one in a docstring and one in a
    comment: [Incomplete 3]. *)
Lemma placeholders_counted_in_code_witness :
  let pieces :=
    [DocDQ (lit "Replace XXXX___ below.");
     Code (nl :: lit "a = XXXX___" ++ nl :: lit "b = XXXX___(XXXX___)  ");
     Comment (lit " XXXX___ is a call");
     Code [nl]] in
  _validate_challenge (Some (render pieces)) = Done (Incomplete 3) false.
Proof.
  intros pieces.
  refine (proj1 (proj2 (proj2 (proj2 (proj2
            (placeholders_counted_in_code [] pieces _))))) _).
  - reflexivity.
  - by vm_compute.
Defined.

(** C5.  When a file without placeholders in its code is run, the
    outcome is decided by the exit code alone: zero gives [Passed] with
    the trimmed standard output; any other code gives [Failed] with the
    trimmed standard error, or the trimmed standard output when that is
    empty, cut to its first 800 characters followed by a line break and
    three dots when it is longer than 800. *)
Theorem classification_by_exit_code
    (code stdout stderr : text) (returncode : Z) :
  _check_placeholders code = false →
  let error := match strip stderr with
               | [] => strip stdout
               | e => e
               end in
  _validate_challenge (Some code) = Execute classify ∧
  classify (CompletedProcess 0 stdout stderr)
  = (Passed (strip stdout), true) ∧
  (returncode ≠ 0 → (length error <= 800)%nat →
   classify (CompletedProcess returncode stdout stderr)
   = (Failed error, false)) ∧
  (returncode ≠ 0 → (800 < length error)%nat →
   classify (CompletedProcess returncode stdout stderr)
   = (Failed (take 800 error ++ nl :: lit "..."), false)).
Proof.
  intros Hc error. split_and!.
  - unfold _validate_challenge. by rewrite Hc.
  - done.
  - intros Hrc Hlen. unfold classify. fold error.
    apply Z.eqb_neq in Hrc as ->.
    by replace (800 <? length error)%nat with false
      by (symmetry; apply Nat.ltb_ge; lia).
  - intros Hrc Hlen. unfold classify. fold error.
    apply Z.eqb_neq in Hrc as ->.
    by replace (800 <? length error)%nat with true
      by (symmetry; apply Nat.ltb_lt; lia).
Qed.

Lemma classification_by_exit_code_witness :
  classify (CompletedProcess 2 (lit " out ") (lit " "))
  = (Failed (lit "out"), false).
Proof.
  refine (proj1 (proj2 (proj2
            (classification_by_exit_code (lit "print(1)") (lit " out ")
               (lit " ") 2 _))) _ _).
  - reflexivity.
  - discriminate.
  - simpl. lia.
Defined.

End ValidateClaims.

(** * Further properties of the progress store *)

Module ProgressExtraFacts.
Import Progress ProgressSpec ProgressFacts ProgressRead.

Lemma dict_of_spec P v :
  dict_of P v = true ↔
  ∃ o, v = JObj o ∧ ∀ k x, o !! k = Some x → P x = true.
Proof.
  destruct v; simpl;
    try (split; [discriminate | by intros (? & ? & _)]).
  rewrite forallb_forall. split.
  - intros H. exists o. split; [done |]. intros k x Hk.
    apply (H (k, x)). apply list_elem_of_In. by apply elem_of_map_to_list.
  - intros (o' & [= <-] & H) [k x] Hin. simpl.
    apply (H k). apply elem_of_map_to_list. by apply list_elem_of_In.
Qed.

Lemma wf_slot progress :
  wf_progress progress = true →
  ∃ courses, progress !! "courses" = Some (JObj courses) ∧
             ∀ c m, module_slot_ok c m courses = true.
Proof.
  unfold wf_progress. destruct (progress !! "courses") as [v |]; [| done].
  intros (courses & -> & H)%dict_of_spec. exists courses. split; [done |].
  intros c m. unfold module_slot_ok.
  destruct (courses !! c) as [x |] eqn:Hc; [| done].
  apply H in Hc. apply dict_of_spec in Hc as (mods & -> & Hm).
  destruct (mods !! m) as [y |] eqn:Hy; [| done].
  apply Hm in Hy. by destruct y.
Qed.

Lemma wf_entry c courses :
  dict_of (dict_of is_dict) (JObj courses) = true →
  ∀ m y, entry c courses !! m = Some y → is_dict y = true.
Proof.
  intros (o & [= <-] & H)%dict_of_spec m y. unfold entry.
  destruct (courses !! c) as [[| | | | | mods] |] eqn:Hc;
    try by rewrite lookup_empty.
  apply H in Hc. apply dict_of_spec in Hc as (o & [= <-] & Hm).
  apply Hm.
Qed.

Lemma wf_set_field c m field v progress courses :
  wf_progress progress = true →
  progress !! "courses" = Some (JObj courses) →
  wf_progress (<["courses" := JObj (set_field c m field v courses)]> progress)
  = true.
Proof.
  unfold wf_progress. intros Hwf Hc. rewrite Hc in Hwf.
  rewrite lookup_insert_eq. apply dict_of_spec. eexists; split; [done |].
  intros c' x. unfold set_field.
  destruct (decide (c' = c)) as [-> | Hne].
  - rewrite lookup_insert_eq. intros [= <-].
    apply dict_of_spec. eexists; split; [done |]. intros m' y.
    destruct (decide (m' = m)) as [-> | Hm].
    + rewrite lookup_insert_eq. by intros [= <-].
    + rewrite lookup_insert_ne by done. by apply wf_entry.
  - rewrite lookup_insert_ne by done.
    apply dict_of_spec in Hwf as (o & [= <-] & H). apply H.
Qed.

(** A mark operation is one assignment in the nested dicts. *)
Lemma apply_mark op c m field v progress courses :
  mark_of op = Some (c, m, field, v) →
  progress !! "courses" = Some (JObj courses) →
  module_slot_ok c m courses = true →
  apply op progress
  = Return (<["courses" := JObj (set_field c m field v courses)]> progress).
Proof.
  intros Hop Hc Hok.
  destruct op; simpl in Hop; try done; injection Hop as <- <- <- <-;
    apply (ProgressClaims.ensure_then_set _ _ _ _ _ _ Hc Hok).
Qed.

Lemma entry_set_field_same c m field v courses :
  entry c (set_field c m field v courses)
  = <[m := JObj (<[field := v]> (entry m (entry c courses)))]>
      (entry c courses).
Proof. unfold set_field, entry at 1. by rewrite lookup_insert_eq. Qed.

Lemma entry_set_field_other c' c m field v courses :
  c' ≠ c → entry c' (set_field c m field v courses) = entry c' courses.
Proof.
  intros Hne. unfold set_field, entry at 1 3.
  by rewrite lookup_insert_ne.
Qed.

Lemma entry_insert_same m (o : gmap string json) fields :
  entry m (<[m := JObj fields]> o) = fields.
Proof. unfold entry. by rewrite lookup_insert_eq. Qed.

Lemma entry_insert_other m' m (o : gmap string json) x :
  m' ≠ m → entry m' (<[m := x]> o) = entry m' o.
Proof. intros Hne. unfold entry. by rewrite lookup_insert_ne. Qed.

Lemma slot_ok_set_field c' m' c m field v courses :
  (∀ c m, module_slot_ok c m courses = true) →
  module_slot_ok c' m' (set_field c m field v courses) = true.
Proof.
  intros H. unfold module_slot_ok, set_field.
  destruct (decide (c' = c)) as [-> | Hne].
  - rewrite lookup_insert_eq.
    destruct (decide (m' = m)) as [-> | Hm].
    + by rewrite lookup_insert_eq.
    + rewrite lookup_insert_ne by done.
      specialize (H c m'). unfold module_slot_ok in H. unfold entry.
      destruct (courses !! c) as [[| | | | | mods] |]; try done.
  - rewrite lookup_insert_ne by done. apply (H c' m').
Qed.

(** What [get_module_progress] reads in a well-formed document. *)
Lemma get_module_entry c m progress courses :
  progress !! "courses" = Some (JObj courses) →
  module_slot_ok c m courses = true →
  get_module_progress c m progress
  = Return (JObj (entry m (entry c courses))).
Proof.
  intros Hc Hok. unfold get_module_progress, Py.get, module_slot_ok in *.
  rewrite Hc. simpl. unfold Py.get, entry.
  destruct (courses !! c) as [[| | | | | mods] |]; try done; simpl;
    unfold Py.get.
  by destruct (mods !! m) as [[| | | | | fields] |].
Qed.

Lemma set_field_twice c m field v1 v2 courses :
  set_field c m field v2 (set_field c m field v1 courses)
  = set_field c m field v2 courses.
Proof.
  unfold set_field at 1. rewrite entry_set_field_same, entry_insert_same.
  unfold set_field. by rewrite !insert_insert_eq.
Qed.

Lemma set_field_commute c1 m1 f1 v1 c2 m2 f2 v2 courses :
  (c1, m1, f1) ≠ (c2, m2, f2) →
  set_field c1 m1 f1 v1 (set_field c2 m2 f2 v2 courses)
  = set_field c2 m2 f2 v2 (set_field c1 m1 f1 v1 courses).
Proof.
  intros Hne. unfold set_field at 1 3.
  destruct (decide (c1 = c2)) as [-> | Hc].
  - rewrite !entry_set_field_same. unfold set_field.
    rewrite !insert_insert_eq. f_equal. f_equal.
    destruct (decide (m1 = m2)) as [-> | Hm].
    + rewrite !entry_insert_same, !insert_insert_eq. f_equal. f_equal.
      apply insert_insert_ne. congruence.
    + rewrite !entry_insert_other by done. by apply insert_insert_ne.
  - rewrite !entry_set_field_other by done. unfold set_field.
    by apply insert_insert_ne.
Qed.

(** Two mark operations, one after the other. *)
Lemma apply_two_marks op1 op2 c1 m1 f1 v1 c2 m2 f2 v2 progress courses :
  progress !! "courses" = Some (JObj courses) →
  (∀ c m, module_slot_ok c m courses = true) →
  mark_of op1 = Some (c1, m1, f1, v1) →
  mark_of op2 = Some (c2, m2, f2, v2) →
  run [op1; op2] progress
  = Return (<["courses" := JObj (set_field c2 m2 f2 v2
                                   (set_field c1 m1 f1 v1 courses))]>
              progress).
Proof.
  intros Hc Hok H1 H2. simpl.
  rewrite (apply_mark _ _ _ _ _ _ _ H1 Hc (Hok _ _)). simpl.
  erewrite (apply_mark _ _ _ _ _ _ _ H2);
    [| apply lookup_insert_eq | by apply slot_ok_set_field].
  simpl. by rewrite insert_insert_eq.
Qed.


End ProgressExtraFacts.

Module ProgressExtras.
Import Progress ProgressSpec ProgressFacts ProgressRead ProgressExtraFacts.

Lemma session_ok_streak progress s today :
  wf_progress progress = true →
  session_ok (<["last_active" := JStr today]>
                (<["streak" := JInt s]> progress)) = true.
Proof.
  intros Hwf. unfold session_ok, wf_progress, streak_ok in *.
  rewrite !lookup_insert_ne by done. rewrite Hwf.
  by rewrite lookup_insert_eq.
Qed.

Lemma apply_keeps_session op progress :
  session_ok progress = true →
  ∃ progress', apply op progress = Return progress' ∧
               session_ok progress' = true.
Proof.
  intros Hok. pose proof Hok as Hok'. unfold session_ok in Hok'.
  apply andb_true_iff in Hok' as [Hwf Hs].
  destruct (wf_slot _ Hwf) as (courses & Hc & Hslots).
  destruct (mark_of op) as [[[[c m] f] v] |] eqn:Hm.
  - eexists. split; [by apply (apply_mark _ _ _ _ _ _ _ Hm Hc) |].
    unfold session_ok. rewrite (wf_set_field _ _ _ _ _ _ Hwf Hc). simpl.
    unfold streak_ok in *. by rewrite lookup_insert_ne.
  - destruct op; try done. simpl. unfold update_streak.
    destruct (Py.eq_str _ today); [by eexists |].
    destruct (Py.eq_str _ yesterday).
    + unfold streak_ok, Py.get in *.
      destruct (progress !! "streak") as [[] |]; simpl in *; try done;
        simplify_map_eq; eexists; (split; [done |]);
        by apply session_ok_streak.
    + simpl. simplify_map_eq. eexists; split; [done |].
      by apply session_ok_streak.
Qed.

(** X1.  A session never fails on a sound document: if [courses] holds
    dicts of dicts of dicts and the streak, where present, is a number
    (the default document is such a document), then every sequence of
    streak updates and mark operations runs to the end without raising,
    and leaves a document of the same kind. *)
Theorem session_never_raises (ops : list operation)
    (progress : gmap string json) :
  session_ok progress = true →
  session_ok default_progress = true ∧
  ∃ progress', run ops progress = Return progress' ∧
               session_ok progress' = true.
Proof.
  intros Hok. split; [reflexivity |].
  revert progress Hok. induction ops as [| op ops IH]; intros progress Hok.
  - by exists progress.
  - destruct (apply_keeps_session op _ Hok) as (p1 & Hp1 & Hok1).
    simpl. rewrite Hp1. simpl. by apply IH.
Qed.

Lemma session_never_raises_witness :
  ∃ progress',
    run [UpdateStreak "2024-03-10" "2024-03-09"; MarkLesson "py" "m1";
         MarkQuiz "py" "m1" 2 3; MarkChallenge "go" "m7"]
      default_progress = Return progress' ∧
    session_ok progress' = true.
Proof.
  refine (proj2 (session_never_raises _ default_progress _)).
  reflexivity.
Defined.

(** X2.  What a mark operation writes is what [get_module_progress]
    reads: on a document whose [courses] holds dicts of dicts of dicts,
    the record read for the marked module after the operation is the
    record read before it with the one field assigned, and the record of
    every other module reads as before. *)
Theorem mark_is_read_back (op : operation) (c m field : string) (v : json)
    (progress : gmap string json) :
  wf_progress progress = true →
  mark_of op = Some (c, m, field, v) →
  ∃ progress' old,
    apply op progress = Return progress' ∧
    get_module_progress c m progress = Return (JObj old) ∧
    get_module_progress c m progress' = Return (JObj (<[field := v]> old)) ∧
    ∀ c' m', (c', m') ≠ (c, m) →
      get_module_progress c' m' progress'
      = get_module_progress c' m' progress.
Proof.
  intros Hwf Hop.
  destruct (wf_slot _ Hwf) as (courses & Hc & Hok).
  eexists _, _. split; [by apply (apply_mark _ _ _ _ _ _ _ Hop Hc) |].
  split; [by apply get_module_entry |].
  assert (Hc' : (<["courses" := JObj (set_field c m field v courses)]>
                   progress : gmap string json) !! "courses"
                = Some (JObj (set_field c m field v courses)))
    by apply lookup_insert_eq.
  split.
  - rewrite (get_module_entry _ _ _ _ Hc') by by apply slot_ok_set_field.
    by rewrite entry_set_field_same, entry_insert_same.
  - intros c' m' Hne.
    rewrite (get_module_entry _ _ _ _ Hc') by by apply slot_ok_set_field.
    rewrite (get_module_entry _ _ _ _ Hc) by done.
    do 2 f_equal.
    destruct (decide (c' = c)) as [-> | Hcc].
    + rewrite entry_set_field_same, entry_insert_other; [done | congruence].
    + by rewrite entry_set_field_other.
Qed.

Lemma mark_is_read_back_witness :
  ∃ progress' old,
    apply (MarkQuiz "py" "m1" 2 3) default_progress = Return progress' ∧
    get_module_progress "py" "m1" default_progress = Return (JObj old) ∧
    get_module_progress "py" "m1" progress'
    = Return (JObj (<["quiz_score" := JStr "2/3"]> old)) ∧
    ∀ c' m', (c', m') ≠ ("py"%string, "m1"%string) →
      get_module_progress c' m' progress'
      = get_module_progress c' m' default_progress.
Proof.
  refine (mark_is_read_back (MarkQuiz "py" "m1" 2 3) "py" "m1" "quiz_score"
            (JStr "2/3") default_progress _ _).
  - reflexivity.
  - reflexivity.
Defined.

(** X3.  Marking the same field of the same module twice leaves what the
    second operation alone would leave: a second quiz result replaces
    the first, and marking a lesson or a challenge again changes
    nothing more. *)
Theorem later_mark_wins (op1 op2 : operation) (c m field : string)
    (v1 v2 : json) (progress : gmap string json) :
  wf_progress progress = true →
  mark_of op1 = Some (c, m, field, v1) →
  mark_of op2 = Some (c, m, field, v2) →
  run [op1; op2] progress = apply op2 progress.
Proof.
  intros Hwf H1 H2.
  destruct (wf_slot _ Hwf) as (courses & Hc & Hok).
  rewrite (apply_two_marks _ _ _ _ _ _ _ _ _ _ _ _ Hc Hok H1 H2).
  rewrite (apply_mark _ _ _ _ _ _ _ H2 Hc (Hok _ _)).
  by rewrite set_field_twice.
Qed.

Lemma later_mark_wins_witness :
  run [MarkQuiz "py" "m1" 1 3; MarkQuiz "py" "m1" 3 3] default_progress
  = apply (MarkQuiz "py" "m1" 3 3) default_progress.
Proof.
  refine (later_mark_wins _ _ "py" "m1" "quiz_score" (JStr "1/3")
            (JStr "3/3") default_progress _ _ _); reflexivity.
Defined.

(** X4.  Mark operations on different fields, modules or courses can be
    done in either order: the document they leave is the same. *)
Theorem marks_commute (op1 op2 : operation) (c1 m1 f1 c2 m2 f2 : string)
    (v1 v2 : json) (progress : gmap string json) :
  wf_progress progress = true →
  mark_of op1 = Some (c1, m1, f1, v1) →
  mark_of op2 = Some (c2, m2, f2, v2) →
  (c1, m1, f1) ≠ (c2, m2, f2) →
  run [op1; op2] progress = run [op2; op1] progress.
Proof.
  intros Hwf H1 H2 Hne.
  destruct (wf_slot _ Hwf) as (courses & Hc & Hok).
  rewrite (apply_two_marks _ _ _ _ _ _ _ _ _ _ _ _ Hc Hok H1 H2).
  rewrite (apply_two_marks _ _ _ _ _ _ _ _ _ _ _ _ Hc Hok H2 H1).
  rewrite set_field_commute; [done | congruence].
Qed.

Lemma marks_commute_witness :
  run [MarkLesson "py" "m1"; MarkQuiz "py" "m1" 2 3] default_progress
  = run [MarkQuiz "py" "m1" 2 3; MarkLesson "py" "m1"] default_progress.
Proof.
  refine (marks_commute _ _ "py" "m1" "lesson" "py" "m1" "quiz_score"
            (JBool true) (JStr "2/3") default_progress _ _ _ _);
    [reflexivity | reflexivity | reflexivity | discriminate].
Defined.

(** X5.  [update_streak] raises in one situation only: [last_active] is
    yesterday's date (and not today's) and the stored streak is not a
    number, so that adding one to it fails with [TypeError].  In every
    other situation it returns, whatever the document holds. *)
Theorem update_streak_raises_iff (today yesterday : string)
    (progress : gmap string json) :
  let last := Py.get "last_active" JNull progress in
  let streak := Py.get "streak" (JInt 0) progress in
  (update_streak today yesterday progress = Raise TypeError ↔
   last = JStr yesterday ∧ today ≠ yesterday ∧ is_number streak = false) ∧
  (∀ e, update_streak today yesterday progress = Raise e → e = TypeError).
Proof.
  intros last streak. unfold update_streak. fold last. fold streak.
  destruct (Py.eq_str last today) eqn:Ht;
    [apply eq_str_true in Ht | apply eq_str_false in Ht].
  { split; [| done]. split; [done |].
    intros (Hy & Hne & _). congruence. }
  destruct (Py.eq_str last yesterday) eqn:Hy;
    [apply eq_str_true in Hy | apply eq_str_false in Hy].
  - destruct streak eqn:Hs; simpl; simplify_map_eq;
      (split; [split; [try done | by intros (_ & _ & ?)] | congruence]).
    all: intros _; split_and!; [done | congruence | done].
  - simpl. simplify_map_eq. split; [| done].
    split; [done | by intros (? & _)].
Qed.

(** X6.  Loading a progress file that holds a JSON object keeps every
    key the object has with the value it has, and gives each of the three
    default keys the object lacks its default value; nothing is checked
    beyond that.  If the object's [courses] and [streak], where it has
    them, are well formed, the loaded document is one on which a session
    never fails. *)
Theorem load_progress_keeps_and_fills (o : gmap string json) :
  ∃ o', load_progress (Parsed (JObj o)) = Return (JObj o') ∧
        (∀ k v, o !! k = Some v → o' !! k = Some v) ∧
        (∀ k, o !! k = None → o' !! k = default_progress !! k) ∧
        ((o !! "courses" = None ∨ wf_progress o = true) →
         streak_ok o = true → session_ok o' = true).
Proof.
  eexists. split; [apply load_progress_backfill |].
  split_and!.
  - intros k v Hk. by rewrite !dict_setdefault_lookup, Hk.
  - intros k Hk. rewrite !dict_setdefault_lookup, Hk.
    unfold default_progress. repeat case_decide; by simplify_map_eq.
  - intros Hc Hs. unfold session_ok, wf_progress, streak_ok in *.
    rewrite !dict_setdefault_lookup.
    destruct (o !! "courses") as [cs |] eqn:Hcs.
    + destruct Hc as [? | Hc]; [done |]. rewrite Hc. simpl.
      by destruct (o !! "streak").
    + simpl. by destruct (o !! "streak").
Qed.


(** X7.  The streak stays sound: on a document whose streak is an
    integer that is not negative, and at least 1 if [last_active] holds a
    date (the default document is one), [update_streak] returns a streak
    of at least 1, stores it with today's date, and leaves a document of
    the same kind. *)
Theorem streak_at_least_one (today yesterday : string)
    (progress : gmap string json) :
  streak_sound progress →
  streak_sound default_progress ∧
  ∃ progress' k,
    update_streak today yesterday progress = Return (progress', JInt k) ∧
    1 ≤ k ∧
    progress' !! "streak" = Some (JInt k) ∧
    progress' !! "last_active" = Some (JStr today) ∧
    streak_sound progress'.
Proof.
  intros (n & Hs & Hn & Hlast). split.
  { exists 0. split_and!; [done | done |]. intros d Hd. discriminate. }
  assert (Hnew : ∀ k, 1 ≤ k →
            streak_sound (<["last_active" := JStr today]>
                            (<["streak" := JInt k]> progress))).
  { intros k Hk. exists k. split_and!; [by simplify_map_eq | lia | done]. }
  unfold update_streak.
  destruct (Py.eq_str (Py.get "last_active" JNull progress) today) eqn:Ht.
  - apply eq_str_true in Ht. exists progress, n.
    unfold Py.get at 1. rewrite Hs. split_and!; try done.
    + by apply (Hlast today).
    + unfold Py.get in Ht.
      destruct (progress !! "last_active"); simpl in Ht; congruence.
    + by exists n.
  - destruct (Py.eq_str (Py.get "last_active" JNull progress) yesterday)
      eqn:Hy.
    + apply eq_str_true in Hy. exists
        (<["last_active" := JStr today]>
           (<["streak" := JInt (n + 1)]> progress)), (n + 1).
      unfold Py.get at 1. rewrite Hs. simpl. simplify_map_eq.
      split_and!; try done; [lia | apply Hnew; lia].
    + exists (<["last_active" := JStr today]>
                (<["streak" := JInt 1]> progress)), 1.
      simpl. simplify_map_eq. split_and!; try done. by apply Hnew.
Qed.

Lemma streak_at_least_one_witness :
  ∃ progress' k,
    update_streak "2024-03-10" "2024-03-09" default_progress
    = Return (progress', JInt k) ∧
    1 ≤ k ∧
    progress' !! "streak" = Some (JInt k) ∧
    progress' !! "last_active" = Some (JStr "2024-03-10") ∧
    streak_sound progress'.
Proof.
  refine (proj2 (streak_at_least_one "2024-03-10" "2024-03-09"
                   default_progress _)).
  exists 0. split; [reflexivity |]. split; [lia |].
  intros d Hd. discriminate Hd.
Defined.


End ProgressExtras.

(** * Further properties of the lesson parser *)

Module ParserExtras.
Import Str Re StrFacts ReFacts Parser Doc MarkerFacts Lesson ParserFacts
  BodyFacts.

Lemma newline_eq c : newline c = true → c = nl.
Proof. unfold newline. by intros ?%Ascii.eqb_eq. Qed.

Lemma newline_ne c : newline c = false → Ascii.eqb nl c = false.
Proof.
  unfold newline, nl. rewrite !Ascii.eqb_neq. congruence.
Qed.

(** Up to two line breaks followed by another character begin no run
    of three. *)
Lemma no_triple_after (x y : text) (d : ascii) :
  forallb newline x = true → (length x < 3)%nat → newline d = false →
  contains [nl; nl; nl] y = false →
  contains [nl; nl; nl] (x ++ d :: y) = false.
Proof.
  intros Hx Hlen Hd%newline_ne Hy.
  destruct x as [| a [| b [| c x]]]; simpl in Hlen; try lia;
    cbn [forallb] in Hx;
    repeat match goal with
           | H : _ && _ = true |- _ => apply andb_true_iff in H as [? H]
           | H : newline _ = true |- _ => apply newline_eq in H; subst
           end;
    cbn [app contains startswith]; rewrite Hd, Hy;
    by rewrite ?andb_false_r.
Qed.

Lemma no_triple_short (x : text) :
  forallb newline x = true → (length x < 3)%nat →
  contains [nl; nl; nl] x = false.
Proof.
  intros Hx Hlen.
  destruct x as [| a [| b [| c x]]]; simpl in Hlen; try lia;
    cbn [forallb] in Hx;
    repeat match goal with
           | H : _ && _ = true |- _ => apply andb_true_iff in H as [? H]
           | H : newline _ = true |- _ => apply newline_eq in H; subst
           end;
    reflexivity.
Qed.

(** What the substitution makes of a run of line breaks. *)
Lemma collapse_newlines nls :
  forallb newline nls = true →
  sub BLANK_LINES (λ _, [nl; nl]) nls
  = if (3 <=? length nls)%nat then [nl; nl] else nls.
Proof.
  intros Hn. destruct (3 <=? length nls)%nat eqn:Hlen.
  - apply Nat.leb_le in Hlen.
    rewrite <- (app_nil_r nls) at 1. rewrite sub_match with (g := []).
    + done.
    + intros ->. simpl in Hlen. lia.
    + rewrite blank_lines_run by done.
      by apply Nat.leb_le in Hlen as ->.
  - apply sub_id. intros a b -> Hb.
    rewrite forallb_app in Hn. apply andb_true_iff in Hn as [_ Hb'].
    rewrite blank_lines_run by done.
    rewrite length_app in Hlen. apply Nat.leb_gt in Hlen.
    by replace (3 <=? length b)%nat with false
      by (symmetry; apply Nat.leb_gt; lia).
Qed.

(** After the substitution no three line breaks are left in a row. *)
Lemma collapse_no_triple s :
  contains [nl; nl; nl] (sub BLANK_LINES (λ _, [nl; nl]) s) = false.
Proof.
  remember (length s) as n eqn:Hn.
  revert s Hn. induction n as [n IH] using lt_wf_ind. intros s ->.
  destruct (newline_run_prefix s) as (nls & z & -> & Hnls & Hz).
  assert (Hshort : ∃ x, sub BLANK_LINES (λ _, [nl; nl]) nls = x ∧
                        forallb newline x = true ∧ (length x < 3)%nat).
  { rewrite collapse_newlines by done.
    destruct (3 <=? length nls)%nat eqn:Hlen.
    - exists [nl; nl]. split_and!; [done | done | simpl; lia].
    - exists nls. split_and!; [done | done | by apply Nat.leb_gt]. }
  destruct Hshort as (x & Hx & Hxn & Hxl).
  destruct z as [| d z].
  - rewrite app_nil_r, Hx. by apply no_triple_short.
  - rewrite sub_blank_app_r by done. rewrite Hx.
    change (d :: z) with ([d] ++ z).
    rewrite sub_no_match.
    2:{ apply newline_free_inert. simpl. unfold dot.
        unfold newline in Hz. by rewrite Hz. }
    simpl. apply no_triple_after; try done.
    apply (IH (length z)); [| done].
    rewrite length_app. simpl. lia.
Qed.

Lemma contains_strip p s :
  contains p s = false → contains p (strip s) = false.
Proof.
  intros H. destruct (strip_spec s) as (w1 & w2 & Hs & _).
  rewrite Hs in H. apply contains_false_app in H as [_ H].
  by apply contains_false_app in H as [H _].
Qed.

Section WithOsPath.

Variable os_path_join : text → text → text.
Variable os_path_normpath : text → text.

Lemma page_step_normalised readme_dir parts pages i :
  Forall PageShape.normalised pages →
  Forall PageShape.normalised
    (page_step os_path_join os_path_normpath readme_dir parts pages i).
Proof.
  intros H. unfold page_step.
  match goal with
  | |- context [strip (sub BLANK_LINES ?f ?b)] =>
      set (body := strip (sub BLANK_LINES f b));
      assert (Hs : strip body = body) by apply strip_idem;
      assert (Hn : contains [nl; nl; nl] body = false)
        by apply contains_strip, collapse_no_triple
  end.
  clearbody body. destruct body as [| c t]; [done |].
  apply Forall_app. split; [done |]. apply Forall_singleton.
  split_and!; [done | exact Hs | apply strip_idem | exact Hn].
Qed.

End WithOsPath.

(** X8.  Whatever the lesson file holds, every page [parse_readme]
    returns has a content that is not empty, has no whitespace at its
    ends and no three line breaks in a row, and a title without
    whitespace at its ends. *)
Theorem pages_always_normalised
    (os_path_join : text → text → text) (os_path_normpath : text → text)
    (readme_dir : text) (file : option text) :
  Forall PageShape.normalised
    (parse_readme os_path_join os_path_normpath readme_dir file).
Proof.
  unfold parse_readme. destruct file as [text |]; [| done]. cbv zeta.
  destruct (_ <? 3)%nat; [done |].
  match goal with
  | |- Forall _ (foldl ?f [] ?l) =>
      assert (Hfold : ∀ acc, Forall PageShape.normalised acc →
                Forall PageShape.normalised (foldl f acc l))
  end.
  { generalize (range 1
      (length (split PAGE_MARKER
         match search END_MARKER text with
         | Some start => take start text
         | None => text
         end)) 2).
    intros l. induction l as [| i l IH]; intros acc Hacc; simpl; [done |].
    apply IH. by apply page_step_normalised. }
  by apply Hfold.
Qed.

(** X9.  A lesson file in which the page keyword does not occur has no
    pages, and neither has a file that does not exist. *)
Theorem no_page_marker_no_pages
    (os_path_join : text → text → text) (os_path_normpath : text → text)
    (readme_dir text : text) :
  contains (lit "lesson:page") text = false →
  parse_readme os_path_join os_path_normpath readme_dir (Some text) = [] ∧
  parse_readme os_path_join os_path_normpath readme_dir None = [].
Proof.
  intros H. split; [| done]. unfold parse_readme. cbv zeta.
  match goal with
  | |- context [split PAGE_MARKER ?t] =>
      assert (Hsplit : split PAGE_MARKER t = [t])
  end.
  { match goal with |- split _ ?t = _ => set (t' := t) end.
    assert (Ht : contains (lit "lesson:page") t' = false).
    { subst t'. destruct (search END_MARKER text) as [start |]; [| done].
      rewrite <- (take_drop start text) in H.
      by apply contains_false_app in H as [H _]. }
    rewrite <- (app_nil_r t') at 1.
    rewrite split_no_match by by apply no_page_in.
    change (split PAGE_MARKER []) with [[] : list ascii].
    by rewrite prepend_cons, app_nil_r. }
  by rewrite Hsplit.
Qed.

Lemma no_page_marker_no_pages_witness :
  parse_readme Posix.join Posix.normpath (lit "/course")
    (Some (lit "# Notes" ++ nl :: lit "<!-- lesson page One -->text")) = [].
Proof.
  refine (proj1 (no_page_marker_no_pages Posix.join Posix.normpath
                   (lit "/course") _ _)).
  reflexivity.
Defined.


End ParserExtras.

(** * Further properties of the page segmentation *)

Module SegmentExtras.
Import Str Re StrFacts ReFacts MarkerFacts Parser Ui Content SegmentFacts.

(** A lazy group matches some characters of its class and captures
    them. *)
Lemma exec_lazy_group {R} cls s g (k : text → list text → option R) r :
  exec (Grp (Rep false 0 cls)) s g k = Some r →
  ∃ a s', s = a ++ s' ∧ forallb cls a = true ∧ k s' (g ++ [a]) = Some r.
Proof.
  rewrite exec_grp, exec_rep. cbn [rep_min].
  intros (a & s' & -> & Ha & Hk)%rep_lazy_inv.
  rewrite take_app_diff in Hk. eauto.
Qed.

(** A match of the placeholder pattern is a placeholder, and its groups
    are the alt text and the path, each on one line. *)
Lemma img_marker_sound s g n :
  re_match _IMG_MARKER s = Some (g, n) →
  ∃ alt path rest,
    s = _image_marker alt path ++ rest ∧ g = [alt; path] ∧
    n = length (_image_marker alt path) ∧
    forallb dot alt = true ∧ forallb dot path = true.
Proof.
  unfold re_match, _IMG_MARKER. rewrite exec_seq. intros H.
  apply exec_lit_inv in H as (s1 & -> & H).
  rewrite exec_seq in H. apply exec_lit_inv in H as (s2 & -> & H).
  rewrite exec_seq in H.
  apply exec_lazy_group in H as (alt & s3 & -> & Halt & H).
  rewrite exec_seq in H. apply exec_lit_inv in H as (s4 & -> & H).
  rewrite exec_seq in H.
  apply exec_lazy_group in H as (path & s5 & -> & Hpath & H).
  rewrite exec_seq in H. apply exec_lit_inv in H as (s6 & -> & H).
  apply exec_lit_inv in H as (rest & -> & H).
  injection H as <- <-.
  exists alt, path, rest. split_and!; [| done | | done | done].
  - unfold _image_marker. by rewrite <- !app_assoc.
  - unfold _image_marker. repeat (simpl; rewrite ?length_app). lia.
Qed.

(** Every content is prose with embedded placeholders, and [split]
    finds them. *)
Lemma split_any s :
  ∃ t0 frags,
    split _IMG_MARKER s = t0 :: parts_of frags ∧ s = page_text t0 frags ∧
    forallb (λ f, forallb dot (frag_alt f) && forallb dot (frag_path f))
      frags = true.
Proof.
  remember (length s) as n eqn:Hn.
  revert s Hn. induction n as [n IH] using lt_wf_ind. intros s ->.
  destruct s as [| c s'].
  { by exists [], []. }
  assert (Hpush : ∃ t0 frags,
            push c (split _IMG_MARKER s') = t0 :: parts_of frags ∧
            c :: s' = page_text t0 frags ∧
            forallb (λ f, forallb dot (frag_alt f)
                          && forallb dot (frag_path f)) frags = true).
  { destruct (IH (length s') ltac:(simpl; lia) s' eq_refl)
      as (t1 & frags & Hs & Ht & Hf).
    exists (c :: t1), frags. rewrite Hs. split_and!; [done | | done].
    by rewrite Ht at 1. }
  unfold split. cbn [split_from].
  destruct (re_match _IMG_MARKER (c :: s')) as [[g [| n]] |] eqn:Hm;
    [exact Hpush | | exact Hpush].
  apply img_marker_sound in Hm as (alt & path & rest & Hs & -> & Hn & Ha & Hp).
  rewrite split_from_skip.
  assert (Hrest : drop n s' = rest).
  { change (drop n s') with (drop (S n) (c :: s')).
    by rewrite Hs, Hn, drop_app_length. }
  rewrite Hrest.
  destruct (IH (length rest)) with (s := rest) as (t1 & frags & Hr & Ht & Hf).
  { rewrite Hs, length_app, <- Hn. lia. }
  { done. }
  exists [], (Fragment alt path t1 :: frags). rewrite Hr.
  split_and!.
  - done.
  - rewrite Hs, Ht. unfold page_text. cbn [flat_map app frag_alt frag_path
                                          frag_text].
    by rewrite <- !app_assoc.
  - simpl. by rewrite Ha, Hp, Hf.
Qed.

(** The segments of any content, from its parts. *)
Lemma split_any_segments raw :
  ∃ t0 frags,
    raw = page_text t0 frags ∧
    split _IMG_MARKER raw = t0 :: parts_of frags ∧
    _split_page_segments raw
    = text_segment t0
      ++ flat_map (λ f, SImage (frag_alt f) (frag_path f)
                        :: text_segment (frag_text f)) frags ∧
    forallb (λ f, forallb dot (frag_alt f) && forallb dot (frag_path f))
      frags = true.
Proof.
  destruct (split_any raw) as (t0 & frags & Hs & Hr & Hf).
  exists t0, frags. split_and!; try done.
  unfold _split_page_segments. rewrite Hs.
  apply (split_loop_from frags [] t0 _ []); [done |].
  simpl. rewrite length_fragment_parts. lia.
Qed.

Lemma text_segment_trimmed t :
  Forall (λ s, match s with
               | SText t => t ≠ [] ∧ strip t = t
               | SImage alt path =>
                   forallb dot alt = true ∧ forallb dot path = true
               end) (text_segment t).
Proof.
  unfold text_segment, chunk.
  pose proof (strip_idem t) as Hs.
  destruct (strip t) as [| c t'] eqn:Ht; [done |].
  by apply Forall_singleton.
Qed.

(** X10.  Whatever a page content holds, it is prose with embedded image
    placeholders in one way that [_split_page_segments] follows: the
    segments are the chunks of prose, trimmed and in order, a blank
    chunk giving none, and between them the (alt text, path) pairs of the
    placeholders.  Nothing of the content is lost but whitespace around
    the chunks and the syntax of the placeholders. *)
Theorem every_content_splits (raw_content : text) :
  ∃ t0 frags,
    raw_content = page_text t0 frags ∧
    split _IMG_MARKER raw_content = t0 :: parts_of frags ∧
    _split_page_segments raw_content
    = text_segment t0
      ++ flat_map (λ f, SImage (frag_alt f) (frag_path f)
                        :: text_segment (frag_text f)) frags.
Proof.
  destruct (split_any_segments raw_content) as (t0 & frags & H1 & H2 & H3 & _).
  by exists t0, frags.
Qed.

(** X11.  Whatever the content, a text segment is never empty and has no
    whitespace at its ends, and the alt text and the path of an image
    segment hold no line break. *)
Theorem segments_well_formed (raw_content : text) :
  Forall (λ s, match s with
               | SText t => t ≠ [] ∧ strip t = t
               | SImage alt path =>
                   forallb dot alt = true ∧ forallb dot path = true
               end) (_split_page_segments raw_content).
Proof.
  destruct (split_any_segments raw_content) as (t0 & frags & _ & _ & -> & Hf).
  apply Forall_app. split.
  - apply text_segment_trimmed.
  - clear t0. induction frags as [| f frags IH]; [done |].
    cbn [forallb] in Hf. apply andb_true_iff in Hf as [Hd Hf].
    apply andb_true_iff in Hd as [Ha Hp].
    cbn [flat_map]. apply Forall_app. split; [| by apply IH].
    apply Forall_cons. split; [done |]. apply text_segment_trimmed.
Qed.

Section WithPixels.

Import Rendering.

Variable pixels : Type.
Variable _render_image_pixels : text → Z → option pixels.

(** The two loops go through the parts in step. *)
Lemma fallback_loop_segments max_img_width fuel parts : ∀ i segments,
  fallback_loop pixels _render_image_pixels max_img_width fuel parts i
    (flat_map (shown_as pixels _render_image_pixels max_img_width) segments)
  = flat_map (shown_as pixels _render_image_pixels max_img_width)
      (split_loop fuel parts i segments).
Proof.
  induction fuel as [| fuel IH]; intros i segments; [done |].
  cbn [fallback_loop split_loop].
  destruct (i <? length parts)%nat; [| done].
  destruct (i mod 3 =? 0)%nat.
  - rewrite <- IH. f_equal.
    destruct (strip (nth i parts [])); [done |].
    by rewrite flat_map_app.
  - destruct (i mod 3 =? 1)%nat; [| apply IH].
    rewrite <- IH. f_equal.
    rewrite flat_map_app. cbn [flat_map shown_as].
    by destruct (_render_image_pixels _ _).
Qed.

(** X12.  The fallback rendering shows the segments of
    [_split_page_segments], in their order: a text segment as Markdown,
    an image segment as its pixel image between two empty lines with the
    alt text under it, or as the line [Image: alt] when the image cannot
    be rendered.  A content without any segment is shown as it is. *)
Theorem fallback_shows_the_segments (console_width : Z)
    (raw_content : text) :
  _build_page_content_fallback pixels _render_image_pixels console_width
    raw_content
  = match flat_map (shown_as pixels _render_image_pixels
                      (console_width - _PANEL_OVERHEAD))
            (_split_page_segments raw_content) with
    | [] => Single (Markdown raw_content)
    | renderables => Group renderables
    end.
Proof.
  unfold _build_page_content_fallback, _split_page_segments. cbv zeta.
  rewrite <- (fallback_loop_segments _ _ _ 0%nat []). cbn [flat_map].
  by destruct (fallback_loop _ _ _ _ _ _ _).
Qed.

End WithPixels.


End SegmentExtras.

(** * Further properties of rendering and of challenge validation *)

Module RenderingExtras.
Import Rendering.

(** X13.  In a run of calls of [_show_image_notice] only the first one
    can print the notice, and it prints it when the notice has not been
    shown before and the terminal draws no native images; every later
    call prints nothing, whatever the environment has become. *)
Theorem image_notice_at_most_once (calls : list (gmap string string))
    (shown : bool) :
  notices calls shown
  = match calls with
    | [] => []
    | environ :: calls' =>
        (negb shown && negb (_terminal_supports_native_images environ))
        :: repeat false (length calls')
    end.
Proof.
  assert (Hshown : ∀ l, notices l true = repeat false (length l)).
  { induction l as [| e l IH]; [done |]. simpl. by rewrite IH. }
  destruct calls as [| environ calls']; [done |].
  cbn [notices]. unfold _show_image_notice.
  destruct shown; cbn [negb andb]; by rewrite Hshown.
Qed.

End RenderingExtras.

Module ValidateExtras.
Import Str Re StrFacts ReFacts Parser Ui Source ValidateFacts Reset.

Lemma placeholder_ne : PLACEHOLDER ≠ [].
Proof. discriminate. Qed.

(** X14.  [_validate_challenge] never reports zero remaining
    placeholders, never returns [True] without having run the file, and
    after running it returns [True] exactly when the exit code is 0. *)
Theorem validation_outcomes (file : option text) :
  (∀ returned, _validate_challenge file ≠ Done (Incomplete 0) returned) ∧
  (∀ shown, _validate_challenge file ≠ Done shown true) ∧
  (∀ k result,
     _validate_challenge file = Execute k →
     (k result).2 = true ↔
     ∃ stdout stderr, result = CompletedProcess 0 stdout stderr).
Proof.
  unfold _validate_challenge. destruct file as [code |].
  2:{ split_and!; try done. }
  unfold _check_placeholders.
  destruct (contains PLACEHOLDER (_strip_comments code)) eqn:Hc.
  - split_and!; try done. intros returned [= H _].
    by apply (contains_count _ _ placeholder_ne) in Hc.
  - split_and!; try done. intros k result [= <-].
    destruct result as [| returncode stdout stderr]; simpl.
    + split; [done | by intros (? & ? & ?)].
    + destruct (returncode =? 0) eqn:Hr; simpl.
      * apply Z.eqb_eq in Hr as ->. split; [by eauto | done].
      * apply Z.eqb_neq in Hr. split; [done |].
        by intros (? & ? & [= -> _ _]).
Qed.

(** X15.  What a result panel shows is bounded and trimmed: the error
    text of a Failed panel is never longer than 804 characters, and the
    output of a Passed panel has no whitespace at its ends. *)
Theorem shown_text_bounded (result : process) :
  match (classify result).1 with
  | Failed error => (length error <= 804)%nat
  | Passed output => strip output = output
  | _ => True
  end.
Proof.
  destruct result as [| returncode stdout stderr]; [done |].
  unfold classify. destruct (returncode =? 0); cbn [fst].
  { apply strip_idem. }
  match goal with
  | |- context [(800 <? length ?e)%nat] =>
      destruct (800 <? length e)%nat eqn:Hlen
  end.
  - apply Nat.ltb_lt in Hlen. rewrite length_app, length_take.
    change (length (nl :: lit "...")) with 4%nat. lia.
  - apply Nat.ltb_ge in Hlen. lia.
Qed.

(** A substitution by the empty text only deletes. *)
Lemma sub_from_sublist r : ∀ s n, sublist (sub_from r (λ _, []) n s) s.
Proof.
  induction s as [| c s IH]; intros n; [constructor |].
  cbn [sub_from]. destruct n as [| n].
  - destruct (re_match r (c :: s)) as [[g [| m]] |].
    + apply sublist_skip, IH.
    + apply sublist_cons, IH.
    + apply sublist_skip, IH.
  - apply sublist_cons, IH.
Qed.

Lemma rep_greedy_total {R} cls (k : text → option R) :
  (∀ s, is_Some (k s)) → ∀ s, is_Some (rep_greedy cls s k).
Proof.
  intros Hk. induction s as [| c s IH]; simpl; [done |].
  destruct (cls c); [| done].
  destruct (rep_greedy cls s k); [done | apply Hk].
Qed.

(** The comment pattern matches at every [#]. *)
Lemma comment_matches s :
  ∃ g n, re_match COMMENT ("#"%char :: s) = Some (g, S n).
Proof.
  assert (H : is_Some (re_match COMMENT ("#"%char :: s))).
  { unfold re_match, COMMENT. rewrite exec_seq.
    change ("#"%char :: s) with (lit "#" ++ s). rewrite exec_lit, exec_rep.
    cbn [rep_min]. by apply rep_greedy_total. }
  destruct H as [[g n] H]. pose proof (re_match_consumes _ _ _ _ H) as Hn.
  simpl in Hn. destruct n as [| n]; [lia |]. eauto.
Qed.

Lemma sub_comment_no_hash : ∀ s n,
  contains (lit "#") (sub_from COMMENT (λ _, []) n s) = false.
Proof.
  induction s as [| c s IH]; intros n; [done |].
  cbn [sub_from]. destruct n as [| n]; [| apply IH].
  destruct (Ascii.eqb "#" c) eqn:Hc.
  - apply Ascii.eqb_eq in Hc as <-.
    destruct (comment_matches s) as (g & m & ->). apply IH.
  - destruct (re_match COMMENT (c :: s)) as [[g [| m]] |];
      try apply IH;
      change (contains (lit "#") (c :: ?x))
        with (Ascii.eqb "#" c && true || contains (lit "#") x);
      by rewrite Hc, IH.
Qed.

(** X16.  [_strip_comments] only deletes: what it returns is the code
    with some characters left out, in the same order, and no [#] is left
    in it. *)
Theorem strip_comments_only_deletes (code : text) :
  sublist (_strip_comments code) code ∧
  contains (lit "#") (_strip_comments code) = false.
Proof.
  unfold _strip_comments. split.
  - etrans; [apply sub_from_sublist |].
    etrans; apply sub_from_sublist.
  - apply sub_comment_no_hash.
Qed.

(** X17.  [_reset_challenge] starts [git] exactly for the files
    [_validate_challenge] would run: not for a missing file and not for
    a file that still has a placeholder in its code.  Once [git] has
    run, the reset is reported as done exactly when its exit code
    is 0. *)
Theorem reset_runs_git_when_validation_runs (file : option text) :
  ((∃ k, _reset_challenge file = Checkout k) ↔
   (∃ k, _validate_challenge file = Execute k)) ∧
  (∀ k result,
     _reset_challenge file = Checkout k →
     k result = ResetDone ↔ ∃ stderr, result = GitCompleted 0 stderr).
Proof.
  unfold _reset_challenge, _validate_challenge.
  destruct file as [code |].
  2:{ split; [split; by intros [? ?] | done]. }
  destruct (_check_placeholders code).
  { split; [split; by intros [? ?] | done]. }
  split; [split; eauto |].
  intros k result [= <-]. destruct result as [| returncode stderr]; simpl.
  - split; [done | by intros [? ?]].
  - destruct (returncode =? 0) eqn:Hr.
    + apply Z.eqb_eq in Hr as ->. split; [by eauto | done].
    + apply Z.eqb_neq in Hr. split; [done |]. by intros (? & [= -> _]).
Qed.

End ValidateExtras.

(** * Further properties of the menus *)

Module MenuExtras.
Import Str Re StrFacts ReFacts Parser Menus.

Lemma forallb_strip (P : ascii → bool) s :
  forallb P s = true → forallb P (strip s) = true.
Proof.
  intros H. destruct (strip_spec s) as (w1 & w2 & Hs & _).
  rewrite Hs, !forallb_app in H.
  apply andb_true_iff in H as [_ H]. by apply andb_true_iff in H as [H _].
Qed.

(** A line of a file ends at its first line break. *)
Lemma file_lines_shape s :
  Forall (λ line, ∃ l, forallb dot l = true ∧ (line = l ∨ line = l ++ [nl]))
    (file_lines s).
Proof.
  induction s as [| c s IH]; [constructor |].
  cbn [file_lines]. destruct (Ascii.eqb c nl) eqn:Hc.
  - apply Ascii.eqb_eq in Hc as ->. apply Forall_cons. split; [| done].
    exists []. split; [done | by right].
  - assert (Hd : dot c = true) by (unfold dot; fold nl; by rewrite Hc).
    destruct (file_lines s) as [| line lines].
    + apply Forall_singleton. exists [c]. split; [| by left].
      simpl. by rewrite Hd.
    + apply Forall_cons in IH as [(l & Hl & Hline) IH].
      apply Forall_cons. split; [| done].
      exists (c :: l). split; [simpl; by rewrite Hd, Hl |].
      destruct Hline as [-> | ->]; [by left | by right].
Qed.

Lemma file_lines_strip s :
  Forall (λ line, forallb dot (strip line) = true) (file_lines s).
Proof.
  eapply Forall_impl; [apply file_lines_shape |].
  intros line (l & Hl & [-> | ->]).
  - by apply forallb_strip.
  - rewrite BodyFacts.strip_app_space by done. by apply forallb_strip.
Qed.

Lemma first_description_ok lines :
  Forall (λ line, forallb dot (strip line) = true) lines →
  description_ok (first_description lines).
Proof.
  induction lines as [| line lines IH]; intros Hl.
  { unfold description_ok. simpl. split_and!; [lia | done ..]. }
  apply Forall_cons in Hl as [Hline Hl]. cbn [first_description].
  destruct (strip_spec line) as (_ & _ & _ & _ & _ & Hhead & _).
  set (d := strip line) in *. clearbody d.
  destruct (bool_decide (d = []) || startswith (lit "#") d
            || startswith (lit "<!--") d) eqn:Hskip; [by apply IH |].
  apply orb_false_iff in Hskip as [Hskip Hc].
  apply orb_false_iff in Hskip as [_ Hh].
  destruct (100 <? length d)%nat eqn:Hlen.
  - apply Nat.ltb_lt in Hlen.
    destruct d as [| c1 [| c2 [| c3 [| c4 d]]]]; simpl in Hlen; try lia.
    unfold description_ok. split_and!.
    + rewrite length_app, length_take.
      change (length (lit "...")) with 3%nat. lia.
    + rewrite forallb_app. apply andb_true_iff. split; [| done].
      rewrite <- (take_drop 97 (c1 :: c2 :: c3 :: c4 :: d)) in Hline.
      rewrite forallb_app in Hline. by apply andb_true_iff in Hline as [? _].
    + exact Hh.
    + exact Hc.
    + exact Hhead.
  - apply Nat.ltb_ge in Hlen. unfold description_ok. by split_and!.
Qed.

(** X18.  A module description is at most 100 characters long, stands on
    one line, is neither a heading nor a comment and has no whitespace
    in front; a module without a readable README has the empty
    description, and so has a README all of whose lines are blank,
    headings or comments, and no other. *)
Theorem module_description_shape (file : readme) :
  description_ok (_get_module_description file) ∧
  (file = NoReadme ∨ file = UnreadableReadme →
   _get_module_description file = []) ∧
  (∀ t, file = Readme t →
     _get_module_description file = [] ↔
     Forall (λ line, strip line = [] ∨
                     startswith (lit "#") (strip line) = true ∨
                     startswith (lit "<!--") (strip line) = true)
       (file_lines t)).
Proof.
  split_and!.
  - destruct file;
      try (unfold description_ok; simpl; split_and!; [lia | done ..]).
    apply first_description_ok, file_lines_strip.
  - by intros [-> | ->].
  - intros t ->. cbn [_get_module_description].
    generalize (file_lines t). intros lines.
    induction lines as [| line lines IH]; [done |].
    cbn [first_description]. rewrite Forall_cons.
    set (d := strip line). clearbody d.
    destruct (bool_decide (d = []) || startswith (lit "#") d
              || startswith (lit "<!--") d) eqn:Hskip.
    + rewrite IH. split; [| by intros [_ H]].
      intros H. split; [| done].
      apply orb_true_iff in Hskip as [Hskip | Hskip]; [| by right; right].
      apply orb_true_iff in Hskip as [Hskip | Hskip]; [| by right; left].
      left. by apply bool_decide_eq_true in Hskip.
    + apply orb_false_iff in Hskip as [Hskip Hc].
      apply orb_false_iff in Hskip as [Hnil Hh].
      apply bool_decide_eq_false in Hnil.
      split.
      * intros H. exfalso.
        destruct (100 <? length d)%nat; [| done].
        by destruct d.
      * intros [[H | [H | H]] _]; congruence.
Qed.

Lemma quiz_score_truthy score total :
  PyValue.truthy
    (JStr (Py.fmt_int score +:+ "/" +:+ Py.fmt_int total)) = true.
Proof. simpl. by destruct (Py.fmt_int score). Qed.

Lemma truthy_insert k v (o : gmap string json) :
  PyValue.truthy (JObj (<[k := v]> o)) = true.
Proof.
  simpl. apply negb_true_iff, Nat.eqb_neq.
  intros H%map_size_empty_iff. by apply insert_non_empty in H.
Qed.

Lemma truthy_progress (progress : gmap string json) v :
  progress !! "courses" = Some v → PyValue.truthy (JObj progress) = true.
Proof.
  intros H. simpl. apply negb_true_iff, Nat.eqb_neq.
  intros ->%map_size_empty_iff. by rewrite lookup_empty in H.
Qed.

(** The indicator of a module, from its record. *)
Lemma indicator_of_record c m progress v old :
  progress !! "courses" = Some v →
  ProgressRead.get_module_progress c m progress = Return (JObj old) →
  module_indicator c m (Some progress)
  = Return (if PyValue.truthy (Py.get "lesson" JNull old)
               && PyValue.truthy (Py.get "quiz_score" JNull old)
            then Complete
            else if PyValue.truthy (JObj old) then Started else Unmarked).
Proof.
  intros Hc Hget. unfold module_indicator.
  rewrite (truthy_progress _ _ Hc), Hget. cbn [mbind result_bind PyValue.get].
  destruct (PyValue.truthy (Py.get "lesson" JNull old)),
    (PyValue.truthy (Py.get "quiz_score" JNull old)),
    (PyValue.truthy (JObj old)); reflexivity.
Qed.

(** A mark operation and the record of its module before and after. *)
Lemma apply_mark_record op c m field v progress :
  ProgressRead.wf_progress progress = true →
  ProgressRead.mark_of op = Some (c, m, field, v) →
  ∃ progress' courses' old,
    ProgressRead.apply op progress = Return progress' ∧
    ProgressRead.wf_progress progress' = true ∧
    progress' !! "courses" = Some courses' ∧
    ProgressRead.get_module_progress c m progress = Return (JObj old) ∧
    ProgressRead.get_module_progress c m progress'
    = Return (JObj (<[field := v]> old)).
Proof.
  intros Hwf Hop.
  destruct (ProgressExtraFacts.wf_slot _ Hwf) as (courses & Hc & Hok).
  eexists _, _, _.
  split; [by apply (ProgressExtraFacts.apply_mark _ _ _ _ _ _ _ Hop Hc) |].
  split; [by apply ProgressExtraFacts.wf_set_field |].
  split; [apply lookup_insert_eq |].
  split; [by apply ProgressExtraFacts.get_module_entry |].
  erewrite ProgressExtraFacts.get_module_entry;
    [| apply lookup_insert_eq
     | by apply ProgressExtraFacts.slot_ok_set_field].
  by rewrite ProgressExtraFacts.entry_set_field_same,
    ProgressExtraFacts.entry_insert_same.
Qed.

(** X19.  In the module picker a module is shown as complete once its
    lesson and its quiz have been recorded, whatever else its record
    holds.  The challenge plays no part in that: recording it leaves a
    complete module complete and shows every other module as started. *)
Theorem indicator_follows_marks (c m : string) (score total : Z)
    (progress : gmap string json) :
  ProgressRead.wf_progress progress = true →
  (∃ progress',
     ProgressRead.run [ProgressRead.MarkLesson c m;
                       ProgressRead.MarkQuiz c m score total] progress
     = Return progress' ∧
     module_indicator c m (Some progress') = Return Complete) ∧
  (∃ progress',
     ProgressRead.apply (ProgressRead.MarkChallenge c m) progress
     = Return progress' ∧
     module_indicator c m (Some progress')
     = match module_indicator c m (Some progress) with
       | Return Complete => Return Complete
       | _ => Return Started
       end).
Proof.
  intros Hwf. split.
  - destruct (apply_mark_record (ProgressRead.MarkLesson c m) _ _ _ _ _
                Hwf eq_refl)
      as (p1 & cs1 & old & Hp1 & Hwf1 & _ & _ & Hget1).
    destruct (apply_mark_record (ProgressRead.MarkQuiz c m score total)
                _ _ _ _ _ Hwf1 eq_refl)
      as (p2 & cs2 & old1 & Hp2 & Hwf2 & Hc2 & Hold1 & Hget2).
    exists p2. cbn [ProgressRead.run]. rewrite Hp1. cbn [mbind result_bind].
    rewrite Hp2. split; [done |].
    rewrite Hold1 in Hget1. injection Hget1 as ->.
    rewrite (indicator_of_record _ _ _ _ _ Hc2 Hget2).
    unfold Py.get. rewrite lookup_insert_eq.
    rewrite lookup_insert_ne by done. rewrite lookup_insert_eq.
    unfold default. cbn [from_option id]. by rewrite quiz_score_truthy.
  - destruct (apply_mark_record (ProgressRead.MarkChallenge c m) _ _ _ _ _
                Hwf eq_refl)
      as (p1 & cs1 & old & Hp1 & Hwf1 & Hc1 & Hget & Hget1).
    exists p1. split; [done |].
    destruct (ProgressExtraFacts.wf_slot _ Hwf) as (courses & Hc & _).
    rewrite (indicator_of_record _ _ _ _ _ Hc1 Hget1).
    rewrite (indicator_of_record _ _ _ _ _ Hc Hget).
    rewrite truthy_insert. unfold Py.get.
    rewrite !lookup_insert_ne by done.
    destruct (PyValue.truthy (default JNull (old !! "lesson"))
              && PyValue.truthy (default JNull (old !! "quiz_score")));
      [done |].
    by destruct (PyValue.truthy (JObj old)).
Qed.

Lemma indicator_follows_marks_witness :
  ∃ progress',
    ProgressRead.run [ProgressRead.MarkLesson "py" "m1";
                      ProgressRead.MarkQuiz "py" "m1" 0 3]
      Progress.default_progress
    = Return progress' ∧
    module_indicator "py" "m1" (Some progress') = Return Complete.
Proof.
  refine (proj1 (indicator_follows_marks "py" "m1" 0 3
                   Progress.default_progress _)).
  reflexivity.
Defined.


End MenuExtras.

(** * Properties of the theme registry *)

Module ThemeExtras.
Import Theme.

Lemma register_other id c color art r :
  id ≠ c →
  get_course_color id (register_course_theme c color art r)
  = get_course_color id r ∧
  get_course_art id (register_course_theme c color art r)
  = get_course_art id r.
Proof.
  intros Hne. unfold get_course_color, get_course_art, register_course_theme.
  simpl. split.
  - destruct (given color); [| done]. by rewrite lookup_insert_ne.
  - destruct (given art); [| done]. by rewrite lookup_insert_ne.
Qed.

Lemma register_same c color art r :
  get_course_color c (register_course_theme c color art r)
  = default (get_course_color c r) (given color) ∧
  get_course_art c (register_course_theme c color art r)
  = default (get_course_art c r) (given art).
Proof.
  unfold get_course_color, get_course_art, register_course_theme.
  simpl. split.
  - destruct (given color); [| done]. by rewrite lookup_insert_eq.
  - destruct (given art); [| done]. by rewrite lookup_insert_eq.
Qed.

Lemma register_all_other id courses : ∀ r,
  id ∉ course_id <$> courses →
  get_course_color id (register_all courses r) = get_course_color id r ∧
  get_course_art id (register_all courses r) = get_course_art id r.
Proof.
  induction courses as [| c courses IH]; intros r Hid; [done |].
  rewrite fmap_cons in Hid. apply not_elem_of_cons in Hid as [Hne Hid].
  unfold register_all in *. cbn [foldl].
  destruct (IH (register_course_theme (course_id c) (course_color c)
                  (course_art c) r) Hid) as [-> ->].
  by apply register_other.
Qed.

(** X20.  After the registration loop over courses with pairwise
    different ids, every course has the colour and the art it declares:
    a course that declares none (nothing, or the empty string) keeps what
    the registry had for its id, the default if it had nothing, and ids
    of no course in the list read as before the loop. *)
Theorem registered_theme_is_found (courses : list course) (r : registry) :
  NoDup (course_id <$> courses) →
  (∀ c, c ∈ courses →
     get_course_color (course_id c) (register_all courses r)
     = default (get_course_color (course_id c) r) (given (course_color c)) ∧
     get_course_art (course_id c) (register_all courses r)
     = default (get_course_art (course_id c) r) (given (course_art c))) ∧
  (∀ id, id ∉ course_id <$> courses →
     get_course_color id (register_all courses r) = get_course_color id r ∧
     get_course_art id (register_all courses r) = get_course_art id r) ∧
  get_course_color "no-such-course" empty = _DEFAULT_COLOR.
Proof.
  intros Hnd. split_and!; [| by intros; apply register_all_other | done].
  revert r Hnd. induction courses as [| c0 courses IH]; intros r Hnd c Hc.
  { by apply elem_of_nil in Hc. }
  rewrite fmap_cons in Hnd. apply NoDup_cons in Hnd as [Hc0 Hnd].
  unfold register_all in *. cbn [foldl].
  apply elem_of_cons in Hc as [-> | Hc].
  - destruct (register_all_other _ _
                (register_course_theme (course_id c0) (course_color c0)
                   (course_art c0) r) Hc0) as [H1 H2].
    unfold register_all in H1, H2. rewrite H1, H2. apply register_same.
  - destruct (IH (register_course_theme (course_id c0) (course_color c0)
                    (course_art c0) r) Hnd c Hc) as [-> ->].
    assert (Hne : course_id c ≠ course_id c0).
    { intros Heq. apply Hc0. rewrite <- Heq. by apply list_elem_of_fmap_2. }
    by destruct (register_other (course_id c) (course_id c0)
                   (course_color c0) (course_art c0) r Hne) as [-> ->].
Qed.

Lemma registered_theme_is_found_witness :
  let courses :=
    [Course "ai-theory" (Some "cyan"%string) None;
     Course "langchain-fundamentals" (Some "green"%string) (Some "art"%string);
     Course "langchain-agents" (Some "magenta"%string) (Some EmptyString)] in
  get_course_color "langchain-agents" (register_all courses empty)
  = "magenta"%string ∧
  get_course_art "langchain-agents" (register_all courses empty)
  = DEFAULT_ART.
Proof.
  intros courses.
  refine (proj1 (registered_theme_is_found courses empty _)
            (Course "langchain-agents" (Some "magenta"%string)
               (Some EmptyString)) _).
  - apply (bool_decide_unpack _). vm_compute. exact I.
  - repeat constructor.
Defined.

End ThemeExtras.

(** * Properties of the credentials file *)

Module SetupExtras.
Import Str Re StrFacts ReFacts Parser Setup.














End SetupExtras.

(** * From the lesson file to the segments shown *)

Module PipelineExtras.
Import Str Re StrFacts ReFacts Parser Doc Ui Content SegmentFacts BodyFacts
  ParserExtras SegmentExtras.

(** A property every round of the loop keeps holds of every page. *)
Lemma parse_readme_invariant (P : page → Prop)
    (os_path_join : text → text → text) (os_path_normpath : text → text)
    (readme_dir : text) (file : option text) :
  (∀ parts pages i,
     Forall P pages →
     Forall P (page_step os_path_join os_path_normpath readme_dir parts
                 pages i)) →
  Forall P (parse_readme os_path_join os_path_normpath readme_dir file).
Proof.
  intros Hstep. unfold parse_readme. destruct file as [text |]; [| done].
  cbv zeta. destruct (_ <? 3)%nat; [done |].
  match goal with
  | |- Forall _ (foldl _ [] ?l) => generalize l
  end.
  assert (Hnil : Forall P []) by done. revert Hnil.
  generalize (@nil page). intros acc Hacc l. revert acc Hacc.
  induction l as [| i l IH]; intros acc Hacc; simpl; [done |].
  apply IH, Hstep, Hacc.
Qed.

Lemma text_segment_contains q t :
  contains q t = false →
  Forall (λ s, match s with
               | SText x => contains q x = false
               | SImage _ _ => True
               end) (text_segment t).
Proof.
  intros H%contains_strip. unfold text_segment, chunk.
  destruct (strip t); [done |]. by apply Forall_singleton.
Qed.

(** What no content holds, no text segment of it holds. *)
Lemma segments_contain q raw_content :
  contains q raw_content = false →
  Forall (λ s, match s with
               | SText x => contains q x = false
               | SImage _ _ => True
               end) (_split_page_segments raw_content).
Proof.
  destruct (split_any_segments raw_content)
    as (t0 & frags & -> & _ & -> & _).
  unfold page_text. intros [H0 H]%contains_false_app.
  apply Forall_app. split; [by apply text_segment_contains |].
  clear t0 H0. induction frags as [| f frags IH]; [done |].
  cbn [flat_map] in *. rewrite <- app_assoc in H.
  apply contains_false_app in H as [_ H].
  apply contains_false_app in H as [Hf H].
  apply Forall_cons. split; [done |].
  apply Forall_app. split; [by apply text_segment_contains | by apply IH].
Qed.

(** X22.  Whatever the lesson file holds, no text segment of any of its
    pages holds three line breaks in a row: between two paragraphs of a
    rendered page there is never more than one empty line. *)
Theorem text_segments_have_no_blank_runs
    (os_path_join : text → text → text) (os_path_normpath : text → text)
    (readme_dir : text) (file : option text) :
  Forall (λ p,
            Forall (λ s, match s with
                         | SText t => contains [nl; nl; nl] t = false
                         | SImage _ _ => True
                         end) (_split_page_segments (content p)))
    (parse_readme os_path_join os_path_normpath readme_dir file).
Proof.
  eapply Forall_impl.
  - apply (parse_readme_invariant PageShape.normalised).
    intros parts pages i. apply page_step_normalised.
  - intros p (_ & _ & _ & Hp). by apply segments_contain.
Qed.

(** X23.  On a POSIX system, for a page body of prose and image
    references in a lesson file whose directory is absolute, every image
    segment of the parsed page carries an absolute path. *)
Theorem image_segments_are_absolute (readme_dir b0 : text)
    (refs : list reference) :
  let resolve := λ rel_path,
    Posix.normpath (Posix.join readme_dir rel_path) in
  startswith [Posix.sep] readme_dir = true →
  wf_prose b0 = true → forallb (wf_reference resolve) refs = true →
  Forall (λ s, match s with
               | SText _ => True
               | SImage _ path => startswith [Posix.sep] path = true
               end)
    (_split_page_segments
       (Lesson.page_content Posix.join Posix.normpath readme_dir
          (body_text b0 refs))).
Proof.
  intros resolve Hdir Hb0 Hrefs.
  rewrite (parsed_body_segments Posix.join Posix.normpath readme_dir)
    by done.
  assert (Htext : ∀ t, Forall (λ s, match s with
                                    | SText _ => True
                                    | SImage _ path =>
                                        startswith [Posix.sep] path = true
                                    end) (text_segment t)).
  { intros t. unfold text_segment, chunk. destruct (strip t); [done |].
    by apply Forall_singleton. }
  apply Forall_app. split; [apply Htext |].
  clear Hrefs. induction refs as [| r refs IH]; [done |].
  cbn [flat_map]. apply Forall_cons. split.
  - by apply ParserClaims.posix_resolved_absolute.
  - apply Forall_app. split; [apply Htext | apply IH].
Qed.

Lemma image_segments_are_absolute_witness :
  Forall (λ s, match s with
               | SText _ => True
               | SImage _ path => startswith [Posix.sep] path = true
               end)
    (_split_page_segments
       (Lesson.page_content Posix.join Posix.normpath (lit "/d")
          (body_text (lit "Intro ")
             [Reference (lit "a") (lit "img/a.png") (lit " then ");
              Reference (lit "b") (lit "../b.png") (lit " ")]))).
Proof.
  refine (image_segments_are_absolute (lit "/d") (lit "Intro ")
            [Reference (lit "a") (lit "img/a.png") (lit " then ");
             Reference (lit "b") (lit "../b.png") (lit " ")] _ _ _);
    reflexivity.
Defined.

End PipelineExtras.
